(** * The structured-output streaming client of talk-to-ugur-back (package ai)

    A shallow embedding of [ai/client.go]: the incremental field extractor
    ([jsonStreamParser]), the fallback negotiator, the schema builder, the
    emotion normalisation and the two reply orchestrators, followed by the
    properties proved about them. The helpers of the chat handlers that
    call the client ([web/handlers]: [parseLimit], [reverseMessages] and
    [writeSSEData]) are embedded after the client.

    Conventions.
    - A Go [string] is read through the sequence of runes that
      [for _, r := range s] yields ([gostring], a list of code points in [Z]);
      a [strings.Builder] is the list of runes written so far, and
      [WriteRune] stores U+FFFD for a rune that is not a Unicode scalar, as
      [utf8.AppendRune] does.
    - Go string literals that are only compared or stored ([map] keys, error
      messages) are Rocq strings; [go] turns a literal into a [gostring].
    - What the Go code obtains from outside the package is a parameter of
      the section that uses it: Unicode's lower-case table, [json.Unmarshal],
      [os.ReadFile] and the HTTP round trip. *)

From Stdlib Require Import ZArith List Bool Lia String Ascii Floats.
From stdpp Require Import base gmap strings list.
Import ListNotations.

#[local] Set Warnings "-register-all".
#[local] Open Scope Z_scope.

(** ** Go strings as rune sequences *)

Abbreviation rune := Z.
Abbreviation gostring := (list Z).

(** An ASCII literal as a [gostring]. *)
Definition go (s : string) : gostring :=
  map (fun a => Z.of_N (N_of_ascii a)) (list_ascii_of_string s).

(** A JSON text written with ['] where the text has its double quote. *)
Definition js (s : string) : gostring :=
  map (fun r => if r =? 39 then 34 else r) (go s).

Definition RuneError : rune := 0xFFFD.

(** [utf8.ValidRune]: a Unicode scalar value. *)
Definition ValidRune (r : rune) : bool :=
  ((0 <=? r) && (r <? 0xD800)) || ((0xDFFF <? r) && (r <=? 0x10FFFF)).

(** The rune a builder holds after [WriteRune r]. *)
Definition stored (r : rune) : rune := if ValidRune r then r else RuneError.

Definition WriteRune (b : gostring) (r : rune) : gostring := b ++ [stored r].

(** [utf8.RuneLen] of a stored rune, and [len] of a string in bytes. *)
Definition RuneLen (r : rune) : Z :=
  if r <? 0x80 then 1 else if r <? 0x800 then 2 else if r <? 0x10000 then 3 else 4.

Definition len (s : gostring) : Z := fold_right (fun r n => RuneLen r + n) 0 s.

Definition eqs (a b : gostring) : bool := bool_decide (a = b).

(** [unicode.IsSpace]: Unicode's White_Space property. *)
Definition IsSpace (r : rune) : bool :=
  ((9 <=? r) && (r <=? 13)) || (r =? 32) || (r =? 0x85) || (r =? 0xA0)
  || (r =? 0x1680) || ((0x2000 <=? r) && (r <=? 0x200A))
  || (r =? 0x2028) || (r =? 0x2029) || (r =? 0x202F) || (r =? 0x205F)
  || (r =? 0x3000).

Fixpoint TrimLeft (s : gostring) : gostring :=
  match s with
  | [] => []
  | r :: s' => if IsSpace r then TrimLeft s' else s
  end.

Fixpoint TrimRight (s : gostring) : gostring :=
  match s with
  | [] => []
  | r :: s' =>
      match TrimRight s' with
      | [] => if IsSpace r then [] else [r]
      | t => r :: t
      end
  end.

(** [strings.TrimSpace] *)
Definition TrimSpace (s : gostring) : gostring := TrimRight (TrimLeft s).

Fixpoint HasPrefix (s prefix : gostring) : bool :=
  match prefix, s with
  | [], _ => true
  | _ :: _, [] => false
  | a :: prefix', b :: s' => (a =? b) && HasPrefix s' prefix'
  end.

(** [strings.TrimPrefix] *)
Definition TrimPrefix (s prefix : gostring) : gostring :=
  if HasPrefix s prefix then skipn (length prefix) s else s.

(** [strings.Contains] *)
Fixpoint Contains (s substr : gostring) : bool :=
  HasPrefix s substr ||
  match s with
  | [] => false
  | _ :: s' => Contains s' substr
  end.

(** [strings.Index] and [strings.LastIndex] for a one-rune pattern;
    [None] is Go's -1. *)
Fixpoint Index (s : gostring) (c : rune) : option nat :=
  match s with
  | [] => None
  | r :: s' => if r =? c then Some 0%nat else S <$> Index s' c
  end.

Fixpoint LastIndex (s : gostring) (c : rune) : option nat :=
  match s with
  | [] => None
  | r :: s' =>
      match LastIndex s' c with
      | Some i => Some (S i)
      | None => if r =? c then Some 0%nat else None
      end
  end.

(** [s[lo:hi]] *)
Definition slice (s : gostring) (lo hi : nat) : gostring :=
  firstn (hi - lo) (skipn lo s).

(** [strings.Join] *)
Fixpoint Join (elems : list gostring) (sep : gostring) : gostring :=
  match elems with
  | [] => []
  | [e] => e
  | e :: rest => e ++ sep ++ Join rest sep
  end.

Definition asciiLower (r : rune) : rune :=
  if (65 <=? r) && (r <=? 90) then r + 32 else r.

(** [strings.Map]: a negative result drops the character. *)
Definition Map (mapping : rune -> rune) (s : gostring) : gostring :=
  flat_map (fun c => let r := mapping c in if r <? 0 then [] else [stored r]) s.

Section Lower.
(** Unicode's simple lower-case mapping above U+007F
    ([unicode.To(unicode.LowerCase, r)]), a table of the Go runtime. *)
Variable lowerTable : rune -> rune.

(** [unicode.ToLower] *)
Definition unicode_ToLower (r : rune) : rune :=
  if r <=? 127 then asciiLower r else lowerTable r.

(** [strings.ToLower]: bytes are mapped in place when the string is
    ASCII, and the string goes through [strings.Map] otherwise. *)
Definition ToLower (s : gostring) : gostring :=
  if forallb (fun r => r <? 128) s then map asciiLower s
  else Map unicode_ToLower s.

(** The table sends every rune to one that lower-casing leaves alone. *)
Definition lower_stable : Prop :=
  forall r, 0 <= unicode_ToLower r ->
    unicode_ToLower (stored (unicode_ToLower r)) = stored (unicode_ToLower r).
End Lower.

(** The Latin-1 rows of the lower-case table (U+00C0..U+00DE but U+00D7),
    the identity elsewhere: the table of the closed examples below, whose
    strings stay within Latin-1. *)
Definition latin1Lower (r : rune) : rune :=
  if (0xC0 <=? r) && (r <=? 0xDE) && negb (r =? 0xD7) then r + 32 else r.

(** ** Errors *)

(** A Go [error]: the package's [*apiError], or any other error value
    (its message). [errors.As(err, &apiErr)] holds of the first only. *)
Inductive error :=
  | apiError (status : Z) (body : gostring)
  | otherError (msg : string).

(** ** The incremental field extractor *)

(** [strconv.ParseInt(s, 16, 32)]: an optional sign, then hexadecimal
    digits; [None] for a syntax or range error. *)
Definition hexDigit (c : rune) : option Z :=
  if (48 <=? c) && (c <=? 57) then Some (c - 48)
  else if (97 <=? c) && (c <=? 102) then Some (c - 87)
  else if (65 <=? c) && (c <=? 70) then Some (c - 55)
  else None.

Fixpoint ParseUint16 (s : gostring) (n : Z) : option Z :=
  match s with
  | [] => Some n
  | c :: s' =>
      match hexDigit c with
      | Some d => ParseUint16 s' (n * 16 + d)
      | None => None
      end
  end.

Definition ParseInt_16_32 (s : gostring) : option Z :=
  match s with
  | [] => None
  | c :: s' =>
      let neg := c =? 45 in
      let digits := if (c =? 43) || (c =? 45) then s' else s in
      match digits with
      | [] => None
      | _ =>
          match ParseUint16 digits 0 with
          | None => None
          | Some un =>
              if negb neg && (2 ^ 31 <=? un) then None
              else if neg && (2 ^ 31 <? un) then None
              else Some (if neg then - un else un)
          end
      end
  end.

Definition decodeUnicode (hexStr : gostring) : option rune :=
  if negb (len hexStr =? 4) then None else ParseInt_16_32 hexStr.

(** The field [mode], which holds [""], ["key"] or ["value"]. *)
Inductive parserMode := modeNone | modeKey | modeValue.

Record jsonStreamParser := mkParser {
  replyBuilder : gostring;
  replyChunk : gostring;
  currentKey : gostring;
  currentValue : gostring;
  currentKeyName : gostring;
  emotion : gostring;
  inString : bool;
  expectValue : bool;
  mode : parserMode;
  escape : bool;
  unicodeLeft : Z;
  unicodeBuf : gostring
}.

(** The two callbacks of a parser; [None] is Go's [nil] func. A callback
    answers [None] for a [nil] error. *)
Record callbacks := mkCallbacks {
  onReply : option (gostring -> option error);
  onEmotion : option (gostring -> option error)
}.

(** What a run does that its caller observes: the callback invocations, in
    order, and the re-parse of the raw stream by [StreamReply]. *)
Inductive action :=
  | CallReply (s : gostring)
  | CallEmotion (s : gostring)
  | ParseRaw (s : gostring).

(** Assignments to the fields of a parser. *)
Definition setReplyBuilder (v : gostring) (p : jsonStreamParser) :=
  mkParser v (replyChunk p) (currentKey p) (currentValue p) (currentKeyName p)
    (emotion p) (inString p) (expectValue p) (mode p) (escape p)
    (unicodeLeft p) (unicodeBuf p).
Definition setReplyChunk (v : gostring) (p : jsonStreamParser) :=
  mkParser (replyBuilder p) v (currentKey p) (currentValue p) (currentKeyName p)
    (emotion p) (inString p) (expectValue p) (mode p) (escape p)
    (unicodeLeft p) (unicodeBuf p).
Definition setCurrentKey (v : gostring) (p : jsonStreamParser) :=
  mkParser (replyBuilder p) (replyChunk p) v (currentValue p) (currentKeyName p)
    (emotion p) (inString p) (expectValue p) (mode p) (escape p)
    (unicodeLeft p) (unicodeBuf p).
Definition setCurrentValue (v : gostring) (p : jsonStreamParser) :=
  mkParser (replyBuilder p) (replyChunk p) (currentKey p) v (currentKeyName p)
    (emotion p) (inString p) (expectValue p) (mode p) (escape p)
    (unicodeLeft p) (unicodeBuf p).
Definition setCurrentKeyName (v : gostring) (p : jsonStreamParser) :=
  mkParser (replyBuilder p) (replyChunk p) (currentKey p) (currentValue p) v
    (emotion p) (inString p) (expectValue p) (mode p) (escape p)
    (unicodeLeft p) (unicodeBuf p).
Definition setEmotion (v : gostring) (p : jsonStreamParser) :=
  mkParser (replyBuilder p) (replyChunk p) (currentKey p) (currentValue p)
    (currentKeyName p) v (inString p) (expectValue p) (mode p) (escape p)
    (unicodeLeft p) (unicodeBuf p).
Definition setInString (v : bool) (p : jsonStreamParser) :=
  mkParser (replyBuilder p) (replyChunk p) (currentKey p) (currentValue p)
    (currentKeyName p) (emotion p) v (expectValue p) (mode p) (escape p)
    (unicodeLeft p) (unicodeBuf p).
Definition setExpectValue (v : bool) (p : jsonStreamParser) :=
  mkParser (replyBuilder p) (replyChunk p) (currentKey p) (currentValue p)
    (currentKeyName p) (emotion p) (inString p) v (mode p) (escape p)
    (unicodeLeft p) (unicodeBuf p).
Definition setMode (v : parserMode) (p : jsonStreamParser) :=
  mkParser (replyBuilder p) (replyChunk p) (currentKey p) (currentValue p)
    (currentKeyName p) (emotion p) (inString p) (expectValue p) v (escape p)
    (unicodeLeft p) (unicodeBuf p).
Definition setEscape (v : bool) (p : jsonStreamParser) :=
  mkParser (replyBuilder p) (replyChunk p) (currentKey p) (currentValue p)
    (currentKeyName p) (emotion p) (inString p) (expectValue p) (mode p) v
    (unicodeLeft p) (unicodeBuf p).
Definition setUnicodeLeft (v : Z) (p : jsonStreamParser) :=
  mkParser (replyBuilder p) (replyChunk p) (currentKey p) (currentValue p)
    (currentKeyName p) (emotion p) (inString p) (expectValue p) (mode p)
    (escape p) v (unicodeBuf p).
Definition setUnicodeBuf (v : gostring) (p : jsonStreamParser) :=
  mkParser (replyBuilder p) (replyChunk p) (currentKey p) (currentValue p)
    (currentKeyName p) (emotion p) (inString p) (expectValue p) (mode p)
    (escape p) (unicodeLeft p) v.

(** The fields of [newJSONStreamParser]'s result other than the callbacks. *)
Definition newJSONStreamParser : jsonStreamParser :=
  mkParser [] [] [] [] [] [] false false modeNone false 0 [].

(** [handleRune]; its error is always [nil]. *)
Definition handleRune (p : jsonStreamParser) (r : rune) : jsonStreamParser :=
  match mode p with
  | modeKey => setCurrentKey (WriteRune (currentKey p) r) p
  | modeValue =>
      if eqs (currentKeyName p) (go "reply") then
        setReplyChunk (WriteRune (replyChunk p) r)
          (setReplyBuilder (WriteRune (replyBuilder p) r) p)
      else if eqs (currentKeyName p) (go "emotion") && eqs (emotion p) [] then
        setCurrentValue (WriteRune (currentValue p) r) p
      else p
  | modeNone => p
  end.

(** The result of the loop body for one rune, and of [Feed]: the parser
    afterwards, the actions performed, and the error of an early return. *)
Abbreviation outcome := (jsonStreamParser * list action * option error)%type.

Definition continue (p : jsonStreamParser) : outcome := (p, [], None).

(** The rune an escape selector stands for (lines 492-523); [None] for
    [u], which starts the collection of four digits. *)
Definition escaped (r : rune) : option rune :=
  if r =? 98 then Some 8          (* b *)
  else if r =? 102 then Some 12   (* f *)
  else if r =? 110 then Some 10   (* n *)
  else if r =? 114 then Some 13   (* r *)
  else if r =? 116 then Some 9    (* t *)
  else if r =? 117 then None      (* u *)
  else Some r.

(** The closing quote of a string (lines 531-550). *)
Definition closeString (cb : callbacks) (p : jsonStreamParser) : outcome :=
  let p := setInString false p in
  match mode p with
  | modeKey =>
      continue (setMode modeNone (setExpectValue true
        (setCurrentKey [] (setCurrentKeyName (currentKey p) p))))
  | modeValue =>
      let finish q := setMode modeNone (setExpectValue false (setCurrentValue [] q)) in
      if eqs (currentKeyName p) (go "emotion") && eqs (emotion p) [] then
        let p := setEmotion (currentValue p) p in
        match onEmotion cb with
        | Some f =>
            match f (emotion p) with
            | Some err => (p, [CallEmotion (emotion p)], Some err)
            | None => (finish p, [CallEmotion (emotion p)], None)
            end
        | None => continue (finish p)
        end
      else continue (finish p)
  | modeNone => continue (setMode modeNone p)
  end.

(** The body of [Feed]'s loop for the rune [r] (lines 474-572). *)
Definition feedRune (cb : callbacks) (p : jsonStreamParser) (r : rune) : outcome :=
  if 0 <? unicodeLeft p then
    let p := setUnicodeBuf (WriteRune (unicodeBuf p) r) p in
    let p := setUnicodeLeft (unicodeLeft p - 1) p in
    if unicodeLeft p =? 0 then
      let decoded := decodeUnicode (unicodeBuf p) in
      let p := setUnicodeBuf [] p in
      match decoded with
      | Some d => continue (handleRune p d)
      | None => continue p
      end
    else continue p
  else if inString p then
    if escape p then
      let p := setEscape false p in
      match escaped r with
      | Some c => continue (handleRune p c)
      | None => continue (setUnicodeLeft 4 p)
      end
    else if r =? 92 then continue (setEscape true p)
    else if r =? 34 then closeString cb p
    else continue (handleRune p r)
  else if r =? 34 then
    let p := setInString true p in
    continue (setMode (if expectValue p then modeValue else modeKey) p)
  else if r =? 44 then continue (setMode modeNone (setExpectValue false p))
  else continue p.

(** The loop of [Feed] over the runes of [text], left at the first error. *)
Fixpoint feedRunes (cb : callbacks) (p : jsonStreamParser) (text : gostring) : outcome :=
  match text with
  | [] => continue p
  | r :: rest =>
      match feedRune cb p r with
      | (p', acts, Some err) => (p', acts, Some err)
      | (p', acts, None) =>
          let '(p'', acts', err) := feedRunes cb p' rest in
          (p'', acts ++ acts', err)
      end
  end.

(** The end of [Feed] (lines 575-584): the per-feed delta goes to
    [onReply] in one call. *)
Definition flushChunk (cb : callbacks) (p : jsonStreamParser) : outcome :=
  match replyChunk p with
  | [] => continue p
  | chunk =>
      match onReply cb with
      | Some f =>
          match f chunk with
          | Some err => (p, [CallReply chunk], Some err)
          | None => (setReplyChunk [] p, [CallReply chunk], None)
          end
      | None => continue (setReplyChunk [] p)
      end
  end.

Definition Feed (cb : callbacks) (p : jsonStreamParser) (text : gostring) : outcome :=
  match feedRunes cb p text with
  | (p', acts, Some err) => (p', acts, Some err)
  | (p', acts, None) =>
      let '(p'', acts', err) := flushChunk cb p' in
      (p'', acts ++ acts', err)
  end.

(** The methods [Reply] and [Emotion]. *)
Definition parserReply (p : jsonStreamParser) : gostring := replyBuilder p.
Definition parserEmotion (p : jsonStreamParser) : gostring := emotion p.

(** [SetEmotion]: the callback's error is dropped. *)
Definition SetEmotion (cb : callbacks) (p : jsonStreamParser) (em : gostring)
  : jsonStreamParser * list action :=
  if negb (eqs (emotion p) []) then (p, [])
  else
    (setEmotion em p,
     match onEmotion cb with
     | Some _ => if negb (eqs em []) then [CallEmotion em] else []
     | None => []
     end).

(** Successive [Feed] calls on one parser, one per chunk, as the loop of
    [StreamReply] makes them: the first error ends the run. *)
Fixpoint feedAll (cb : callbacks) (p : jsonStreamParser) (chunks : list gostring) : outcome :=
  match chunks with
  | [] => continue p
  | c :: rest =>
      match Feed cb p c with
      | (p', acts, Some err) => (p', acts, Some err)
      | (p', acts, None) =>
          let '(p'', acts', err) := feedAll cb p' rest in
          (p'', acts ++ acts', err)
      end
  end.

(** The arguments of the [onReply] calls of a run, concatenated, and the
    arguments of its [onEmotion] calls. *)
Fixpoint delivered (acts : list action) : gostring :=
  match acts with
  | [] => []
  | CallReply s :: rest => s ++ delivered rest
  | _ :: rest => delivered rest
  end.

Fixpoint emotionCalls (acts : list action) : list gostring :=
  match acts with
  | [] => []
  | CallEmotion s :: rest => s :: emotionCalls rest
  | _ :: rest => emotionCalls rest
  end.

(** ** Requests, responses and the schema builder *)

(** A Go [any] as the schema uses it: a string, a bool, a [[]string], or a
    [map[string]any]. *)
Inductive any :=
  | AString (s : gostring)
  | ABool (b : bool)
  | AStrings (l : list gostring)
  | AMap (m : gmap string any).

Record chatMessage := mkChatMessage {
  Role : gostring;
  Content : gostring;
  Refusal : gostring
}.

Record jsonSchema := mkJsonSchema {
  Name : gostring;
  Description : gostring;
  Schema : gmap string any;
  Strict : bool
}.

Record responseFormat := mkResponseFormat {
  Type_ : gostring;
  JsonSchema : option jsonSchema
}.

Record chatRequest := mkChatRequest {
  Model : gostring;
  Messages : list chatMessage;
  Temperature : float;
  Stream : bool;
  ResponseFormat : responseFormat
}.

(** [chatResponse]: the messages of its choices. *)
Record chatResponse := mkChatResponse { Choices : list chatMessage }.

(** [chatStreamResponse]: the deltas of its choices. *)
Record delta := mkDelta { deltaContent : gostring; deltaRefusal : gostring }.

Record Reply := mkReply { Text : gostring; Emotion : gostring }.

Module aiJSON.
Record t := mk { Reply : gostring; Emotion : gostring }.
End aiJSON.

(** The fields of [db.ChatMessage] the package reads. *)
Module db.
Record ChatMessage := mk { Role : gostring; Content : gostring }.
End db.

Record Client := mkClient {
  baseURL : gostring;
  apiKey : gostring;
  model : gostring;
  temperature : float;
  systemPrompt : gostring;
  promptPath : gostring;
  emotions : list gostring
}.

Definition buildEmotionSchema (c : Client) : gmap string any :=
  let prop : gmap string any := {[ "type" := AString (go "string") ]} in
  if (0 <? length (emotions c))%nat then <[ "enum" := AStrings (emotions c) ]> prop
  else prop.

Definition buildStructuredFormat (c : Client) : responseFormat :=
  let schema : gmap string any :=
    <[ "type" := AString (go "object") ]>
    (<[ "additionalProperties" := ABool false ]>
    (<[ "properties" := AMap
          (<[ "reply" := AMap {[ "type" := AString (go "string") ]} ]>
          (<[ "emotion" := AMap (buildEmotionSchema c) ]> ∅)) ]>
    (<[ "required" := AStrings [go "reply"; go "emotion"] ]> ∅))) in
  mkResponseFormat (go "json_schema")
    (Some (mkJsonSchema (go "chat_reply")
       (go "Structured response for chat reply and emotion.") schema true)).

Definition withTemperature (t : float) (r : chatRequest) : chatRequest :=
  mkChatRequest (Model r) (Messages r) t (Stream r) (ResponseFormat r).

Definition withResponseFormat (f : responseFormat) (r : chatRequest) : chatRequest :=
  mkChatRequest (Model r) (Messages r) (Temperature r) (Stream r) f.

(** [reqBody.Temperature = 0] and
    [reqBody.ResponseFormat = responseFormat{Type: "json_object"}]. *)
Definition withoutTemperature : chatRequest -> chatRequest := withTemperature 0%float.
Definition jsonObjectMode : chatRequest -> chatRequest :=
  withResponseFormat (mkResponseFormat (go "json_object") None).

Section Client.
Variable lowerTable : rune -> rune.

(** ** Error classification *)

Definition shouldFallbackToJSONMode (status : Z) (body : gostring) : bool :=
  if negb (status =? 400) then false
  else
    let lowered := ToLower lowerTable body in
    Contains lowered (go "response_format")
    || Contains lowered (go "json_schema")
    || Contains lowered (go "structured outputs")
    || Contains lowered (go "not supported").

Definition shouldRetryWithoutTemperature (status : Z) (body : gostring) : bool :=
  if negb (status =? 400) then false
  else
    let lowered := ToLower lowerTable body in
    Contains lowered (go "temperature")
    && (Contains lowered (go "unsupported")
        || Contains lowered (go "unsupported_value")).

(** ** Emotion normalisation *)

Fixpoint normalizeLoop (emotion : gostring) (allowed : list gostring) : gostring :=
  match allowed with
  | [] => []
  | e :: rest =>
      if eqs emotion (ToLower lowerTable (TrimSpace e)) then emotion
      else normalizeLoop emotion rest
  end.

Definition normalizeEmotion (emotion : gostring) (allowed : list gostring) : gostring :=
  normalizeLoop (ToLower lowerTable (TrimSpace emotion)) allowed.

Fixpoint fallbackEmotion (allowed : list gostring) : gostring :=
  match allowed with
  | [] => go "neutral"
  | e :: rest =>
      if negb (eqs (TrimSpace e) []) then ToLower lowerTable (TrimSpace e)
      else fallbackEmotion rest
  end.

(** The emotion of a returned [Reply] (lines 170-173 and 280-283). *)
Definition replyEmotion (raw : gostring) (allowed : list gostring) : gostring :=
  let emotion := normalizeEmotion raw allowed in
  if eqs emotion [] then fallbackEmotion allowed else emotion.

(** ** The fallback negotiator *)

Section Negotiator.
(** One transport attempt ([c.doChatRequest] or [c.doChatStreamRequest])
    in a world [World] that answers requests, with results in [R]. *)
Context {World R : Type}.
Variable attempt : chatRequest -> World -> (error + R) * World.

(** The variables [reqBody] and [err]/[parsed] of the fallback chain,
    the world, and the requests attempted so far. *)
Record negotiation := mkNegotiation {
  reqBody : chatRequest;
  result : error + R;
  world : World;
  attempts : list chatRequest
}.

(** [parsed, err = c.doChatRequest(ctx, reqBody)] after the assignment
    [update] to [reqBody]. *)
Definition retry (update : chatRequest -> chatRequest) (n : negotiation) : negotiation :=
  let req := update (reqBody n) in
  let '(r, w) := attempt req (world n) in
  mkNegotiation req r w (attempts n ++ [req]).

Definition firstAttempt (req : chatRequest) (w : World) : negotiation :=
  let '(r, w') := attempt req w in mkNegotiation req r w' [req].

(** Lines 129-132 (339-342). *)
Definition retryTemperature (n : negotiation) : negotiation :=
  match result n with
  | inl (apiError status body) =>
      if shouldRetryWithoutTemperature status body
      then retry withoutTemperature n else n
  | _ => n
  end.

(** Lines 133-138 (343-348). *)
Definition retryJSONMode (n : negotiation) : negotiation :=
  match result n with
  | inl (apiError status body) =>
      if shouldFallbackToJSONMode status body
      then retry jsonObjectMode n else n
  | _ => n
  end.

(** Lines 139-144 (349-354). *)
Definition retryTemperatureAgain (n : negotiation) : negotiation :=
  match result n with
  | inl (apiError status body) =>
      if shouldRetryWithoutTemperature status body
         && negb (Temperature (reqBody n) =? 0)%float
      then retry withoutTemperature n else n
  | _ => n
  end.

(** The fallback chain of [GenerateReply] (lines 127-148) and of
    [doChatStreamRequestWithFallback], which differ in the transport
    method only. *)
Definition negotiate (req : chatRequest) (w : World) : negotiation :=
  let n := firstAttempt req w in
  match result n with
  | inr _ => n
  | inl _ => retryTemperatureAgain (retryJSONMode (retryTemperature n))
  end.
End Negotiator.

(** ** Transport *)

(** The world the client talks to: [send] is lines 305-321 (362-383), the
    request marshalled, built and sent, with the message of a local or
    network failure or the response; [Body] is the response's
    [io.ReadCloser], observed through [ReadAll] ([io.ReadAll], its error
    dropped), [Decode] ([json.NewDecoder(body).Decode] into a
    [chatResponse]) and, for a stream, [ReadLines]: the lines that
    [ReadString('\n')] returns with a [nil] error, and the error of the
    read after them when it is not [io.EOF]. *)
Context {World Body : Type}.
Variable send : chatRequest -> World -> (string + (Z * Body)) * World.
Variable ReadAll : Body -> gostring.
Variable Decode : Body -> string + chatResponse.
Variable ReadLines : Body -> list gostring * option error.
(** [json.Unmarshal] into a [chatStreamResponse] and into an [aiJSON];
    [None] for an error. *)
Variable UnmarshalChunk : gostring -> option (list delta).
Variable UnmarshalAI : gostring -> option aiJSON.t.
(** [os.ReadFile]; [None] for an error. *)
Variable ReadFile : gostring -> option gostring.

Definition doChatRequest (c : Client) (req : chatRequest) (w : World)
  : (error + chatResponse) * World :=
  if eqs (apiKey c) [] then (inl (otherError "missing OPENAI_API_KEY"), w)
  else
    match send req w with
    | (inl msg, w') => (inl (otherError msg), w')
    | (inr (status, body), w') =>
        if 400 <=? status then (inl (apiError status (TrimSpace (ReadAll body))), w')
        else
          match Decode body with
          | inl msg => (inl (otherError msg), w')
          | inr parsed => (inr parsed, w')
          end
    end.

Definition doChatStreamRequest (c : Client) (req : chatRequest) (w : World)
  : (error + Body) * World :=
  if eqs (apiKey c) [] then (inl (otherError "missing OPENAI_API_KEY"), w)
  else
    match send req w with
    | (inl msg, w') => (inl (otherError msg), w')
    | (inr (status, body), w') =>
        if 400 <=? status then (inl (apiError status (TrimSpace (ReadAll body))), w')
        else (inr body, w')
    end.

Definition doChatStreamRequestWithFallback (c : Client) :=
  negotiate (doChatStreamRequest c).

(** ** The reply orchestrators *)

Definition parseAIJSON (content : gostring) : option aiJSON.t :=
  match UnmarshalAI content with
  | Some parsed => Some parsed
  | None =>
      match Index content 123, LastIndex content 125 with
      | Some start, Some end_ =>
          if (end_ <=? start)%nat then None
          else UnmarshalAI (slice content start (end_ + 1))
      | _, _ => None
      end
  end.

Definition loadPromptFromFile (c : Client) : gostring :=
  let path := TrimSpace (promptPath c) in
  if eqs path [] then []
  else
    match ReadFile path with
    | None => []
    | Some data => TrimSpace data
    end.

(** The system message (lines 100-109 and 184-193). *)
Definition systemMessage (c : Client) : chatMessage :=
  let emotionList := Join (emotions c) (go ", ") in
  let formatInstruction :=
    go "Respond ONLY with valid JSON and no extra text. The JSON must have keys 'emotion' and 'reply' in that order. 'emotion' must be one of: "
    ++ emotionList ++ go "." in
  let prompt := loadPromptFromFile c in
  let systemPrompt :=
    if negb (eqs prompt []) then prompt else TrimSpace (systemPrompt c) in
  mkChatMessage (go "system")
    (TrimSpace (systemPrompt ++ [10; 10] ++ formatInstruction)) [].

(** The loop over the history (lines 111-117 and 195-201). *)
Definition appendHistory (messages : list chatMessage) (msg : db.ChatMessage)
  : list chatMessage :=
  let role := db.Role msg in
  if eqs role (go "user") || eqs role (go "assistant")
  then messages ++ [mkChatMessage role (db.Content msg) []]
  else messages.

Definition buildMessages (c : Client) (history : list db.ChatMessage)
  : list chatMessage :=
  fold_left appendHistory history [systemMessage c].

Definition buildRequest (c : Client) (history : list db.ChatMessage)
  (stream : bool) : chatRequest :=
  mkChatRequest (model c) (buildMessages c history) (temperature c) stream
    (buildStructuredFormat c).

(** Lines 150-178: the reply read from the provider's response. *)
Definition replyOfResponse (c : Client) (parsed : chatResponse) : error + Reply :=
  match Choices parsed with
  | [] => inl (otherError "openai api returned no choices")
  | first :: _ =>
      let content := TrimSpace (Content first) in
      if eqs content [] then
        if negb (eqs (TrimSpace (Refusal first)) [])
        then inl (otherError "openai api refused to answer")
        else inl (otherError "openai api returned empty content")
      else
        match parseAIJSON content with
        | Some aiPayload =>
            if eqs (aiJSON.Reply aiPayload) [] then
              inr (mkReply content (fallbackEmotion (emotions c)))
            else
              inr (mkReply (TrimSpace (aiJSON.Reply aiPayload))
                     (replyEmotion (aiJSON.Emotion aiPayload) (emotions c)))
        | None => inr (mkReply content (fallbackEmotion (emotions c)))
        end
  end.

Definition GenerateReply (c : Client) (history : list db.ChatMessage) (w : World)
  : (error + Reply) * World :=
  let n := negotiate (doChatRequest c) (buildRequest c history false) w in
  match result n with
  | inl err => (inl err, world n)
  | inr parsed => (replyOfResponse c parsed, world n)
  end.

(** The variables of [StreamReply]'s read loop. *)
Record streamState := mkStreamState {
  parser : jsonStreamParser;
  rawBuilder : gostring;
  refusalBuilder : gostring
}.

(** Lines 248-258: the choices of one frame. *)
Fixpoint feedChoices (cb : callbacks) (st : streamState) (choices : list delta)
  : streamState * list action * option error :=
  match choices with
  | [] => (st, [], None)
  | choice :: rest =>
      let fed :=
        if negb (eqs (deltaContent choice) []) then
          let '(p, acts, err) := Feed cb (parser st) (deltaContent choice) in
          (mkStreamState p (rawBuilder st ++ deltaContent choice)
             (refusalBuilder st), acts, err)
        else (st, [], None) in
      match fed with
      | (st', acts, Some err) => (st', acts, Some err)
      | (st', acts, None) =>
          let st'' :=
            if negb (eqs (deltaRefusal choice) []) then
              mkStreamState (parser st') (rawBuilder st')
                (refusalBuilder st' ++ deltaRefusal choice)
            else st' in
          let '(st3, acts', err) := feedChoices cb st'' rest in
          (st3, acts ++ acts', err)
      end
  end.

(** Lines 222-259: the read loop over the lines of the stream; the
    boolean tells that the loop was left by [data: [DONE]]. *)
Fixpoint readLoop (cb : callbacks) (st : streamState) (lines : list gostring)
  : streamState * list action * option error * bool :=
  match lines with
  | [] => (st, [], None, false)
  | line :: rest =>
      let line := TrimSpace line in
      if eqs line [] then readLoop cb st rest
      else if negb (HasPrefix line (go "data:")) then readLoop cb st rest
      else
        let data := TrimSpace (TrimPrefix line (go "data:")) in
        if eqs data (go "[DONE]") then (st, [], None, true)
        else
          match UnmarshalChunk data with
          | None => readLoop cb st rest
          | Some choices =>
              match feedChoices cb st choices with
              | (st', acts, Some err) => (st', acts, Some err, false)
              | (st', acts, None) =>
                  let '(st'', acts', err, done) := readLoop cb st' rest in
                  (st'', acts ++ acts', err, done)
              end
          end
  end.

(** Lines 261-288: the result assembled at the end of the stream. *)
Definition streamResult (c : Client) (cb : callbacks) (st : streamState)
  : (error + Reply) * list action :=
  let content := TrimSpace (parserReply (parser st)) in
  let '(content, p, acts) :=
    if eqs content [] then
      let rawContent := TrimSpace (rawBuilder st) in
      if negb (eqs rawContent []) then
        match parseAIJSON rawContent with
        | Some parsed =>
            if negb (eqs (aiJSON.Reply parsed) []) then
              let '(p, acts) :=
                if eqs (parserEmotion (parser st)) []
                then SetEmotion cb (parser st) (aiJSON.Emotion parsed)
                else (parser st, []) in
              (TrimSpace (aiJSON.Reply parsed), p, ParseRaw rawContent :: acts)
            else (content, parser st, [ParseRaw rawContent])
        | None => (content, parser st, [ParseRaw rawContent])
        end
      else (content, parser st, [])
    else (content, parser st, []) in
  if eqs content [] then
    if negb (eqs (TrimSpace (refusalBuilder st)) [])
    then (inl (otherError "openai api refused to answer"), acts)
    else (inl (otherError "openai api returned empty content"), acts)
  else
    (inr (mkReply (TrimSpace content) (replyEmotion (parserEmotion p) (emotions c))),
     acts).

(** [StreamReply] once the stream is open: the read loop, then the
    result. *)
Definition consumeStream (c : Client) (cb : callbacks) (body : Body)
  : (error + Reply) * list action :=
  let '(lines, readErr) := ReadLines body in
  let '(st, acts, err, done) :=
    readLoop cb (mkStreamState newJSONStreamParser [] []) lines in
  match err with
  | Some e => (inl e, acts)
  | None =>
      match (if done then None else readErr) with
      | Some e => (inl e, acts)
      | None =>
          let '(r, acts') := streamResult c cb st in
          (r, acts ++ acts')
      end
  end.

Definition StreamReply (c : Client) (history : list db.ChatMessage)
  (cb : callbacks) (w : World) : (error + Reply) * list action * World :=
  let n := doChatStreamRequestWithFallback c (buildRequest c history true) w in
  match result n with
  | inl err => (inl err, [], world n)
  | inr body =>
      let '(r, acts) := consumeStream c cb body in (r, acts, world n)
  end.
End Client.

(** ** The client's configuration *)

(** [strings.TrimRight]: the trailing characters of [s] that occur in
    [cutset] are removed. *)
Fixpoint strings_TrimRight (s cutset : gostring) : gostring :=
  match s with
  | [] => []
  | r :: s' =>
      match strings_TrimRight s' cutset with
      | [] => if existsb (Z.eqb r) cutset then [] else [r]
      | t => r :: t
      end
  end.

(** The fields of [config.Config] that [NewClient] reads. *)
Module config.
Record Config := mk {
  OpenAIBaseURL : gostring;
  OpenAIAPIKey : gostring;
  OpenAIModel : gostring;
  OpenAITemperature : float;
  AISystemPrompt : gostring;
  AISystemPromptPath : gostring;
  AIEmotions : list gostring
}.
End config.

(** [NewClient]; the HTTP client it makes, with its timeout of a minute,
    is part of the transport. *)
Definition NewClient (cfg : config.Config) : Client :=
  mkClient (strings_TrimRight (config.OpenAIBaseURL cfg) (go "/"))
    (config.OpenAIAPIKey cfg) (config.OpenAIModel cfg)
    (config.OpenAITemperature cfg) (config.AISystemPrompt cfg)
    (config.AISystemPromptPath cfg) (config.AIEmotions cfg).

(** The address a request is posted to (lines 310 and 372). *)
Definition endpoint (c : Client) : gostring := baseURL c ++ go "/chat/completions".

(** * The chat handlers (package handlers) *)

(** ** The [limit] query parameter *)

Definition decimalDigit (c : rune) : option Z :=
  if (48 <=? c) && (c <=? 57) then Some (c - 48) else None.

Fixpoint ParseUint10 (s : gostring) (n : Z) : option Z :=
  match s with
  | [] => Some n
  | c :: s' =>
      match decimalDigit c with
      | Some d => ParseUint10 s' (n * 10 + d)
      | None => None
      end
  end.

(** [strconv.Atoi] where [int] has 64 bits: an optional sign, then decimal
    digits; [None] for a syntax or range error. *)
Definition Atoi (s : gostring) : option Z :=
  match s with
  | [] => None
  | c :: s' =>
      let neg := c =? 45 in
      let digits := if (c =? 43) || (c =? 45) then s' else s in
      match digits with
      | [] => None
      | _ =>
          match ParseUint10 digits 0 with
          | None => None
          | Some un =>
              if negb neg && (2 ^ 63 <=? un) then None
              else if neg && (2 ^ 63 <? un) then None
              else Some (if neg then - un else un)
          end
      end
  end.

Definition parseLimit (raw : gostring) : Z :=
  if eqs raw [] then 0
  else
    match Atoi raw with
    | None => 0
    | Some limit =>
        if limit <=? 0 then 0
        else if 500 <? limit then 500
        else limit
    end.

(** ** The order of the messages *)

Section Reverse.
Context {A : Type}.

(** The loop of [reverseMessages] from the indices [i] and [j], for at
    most [fuel] iterations; [None] when an index is out of range or the
    iterations do not suffice. *)
Fixpoint reverseLoop (fuel : nat) (i j : Z) (messages : list A) : option (list A) :=
  match fuel with
  | O => if i <? j then None else Some messages
  | S fuel =>
      if i <? j then
        match messages !! Z.to_nat i, messages !! Z.to_nat j with
        | Some a, Some b =>
            reverseLoop fuel (i + 1) (j - 1)
              (<[Z.to_nat j := a]> (<[Z.to_nat i := b]> messages))
        | _, _ => None
        end
      else Some messages
  end.

Definition reverseMessages (messages : list A) : option (list A) :=
  reverseLoop (length messages) 0 (Z.of_nat (length messages) - 1) messages.
End Reverse.

(** ** Server-sent events *)

(** [strings.Split] on a one-character separator. *)
Fixpoint Split (s : gostring) (sep : rune) : list gostring :=
  match s with
  | [] => [[]]
  | r :: s' =>
      if r =? sep then [] :: Split s' sep
      else
        match Split s' sep with
        | [] => [[r]]
        | line :: lines => (r :: line) :: lines
        end
  end.

(** What a handler does to [c.Writer]: the [Write] calls and the [Flush]
    calls, in order. *)
Inductive wire :=
  | WriteBytes (b : gostring)
  | Flush.

Section SSE.
(** [c.Writer.Write]: the error it returns for the bytes [b] after the
    calls [sent]; [None] for [nil]. *)
Variable write : list wire -> gostring -> option error.
(** Whether [c.Writer] is an [http.Flusher]. *)
Variable flusher : bool.

(** The loop over the lines of the data (lines 399-403). *)
Fixpoint writeLines (sent : list wire) (lines : list gostring)
  : list wire * option error :=
  match lines with
  | [] => (sent, None)
  | line :: rest =>
      let b := go "data: " ++ line ++ [10] in
      match write sent b with
      | Some err => (sent ++ [WriteBytes b], Some err)
      | None => writeLines (sent ++ [WriteBytes b]) rest
      end
  end.

Definition writeSSEData (sent : list wire) (event data : gostring)
  : list wire * option error :=
  let '(sent, err) :=
    if negb (eqs event []) then
      let b := go "event: " ++ event ++ [10] in
      (sent ++ [WriteBytes b], write sent b)
    else (sent, None) in
  match err with
  | Some e => (sent, Some e)
  | None =>
      match writeLines sent (Split data 10) with
      | (sent, Some e) => (sent, Some e)
      | (sent, None) =>
          match write sent [10] with
          | Some e => (sent ++ [WriteBytes [10]], Some e)
          | None =>
              let sent := sent ++ [WriteBytes [10]] in
              (if flusher then sent ++ [Flush] else sent, None)
          end
      end
  end.
End SSE.


(** * Vocabulary of the properties *)

(** ** Runs of the extractor *)

Definition noCallbacks : callbacks := mkCallbacks None None.

(** Callbacks that record and never fail. *)
Definition collect : callbacks :=
  mkCallbacks (Some (fun _ => None)) (Some (fun _ => None)).

(** The parser after the loop body for one rune when no callback fails,
    and after the runes of a text. *)
Definition step (p : jsonStreamParser) (r : rune) : jsonStreamParser :=
  (feedRune noCallbacks p r).1.1.

Definition run (text : gostring) (p : jsonStreamParser) : jsonStreamParser :=
  fold_left step text p.

(** What [onReply] receives of a delta: nothing when it is [nil]. *)
Definition toReply (cb : callbacks) (s : gostring) : gostring :=
  match onReply cb with Some _ => s | None => [] end.

(** Callbacks that never return an error. *)
Definition neverFails (cb : callbacks) : Prop :=
  (forall f s, onReply cb = Some f -> f s = None) /\
  (forall f s, onEmotion cb = Some f -> f s = None).

(** The calls of [onEmotion] in a run: any number with the empty string,
    then at most one with a non-empty emotion, which the parser keeps. *)
Definition capturedOnce (calls : list gostring) (p : jsonStreamParser) : Prop :=
  exists k last, calls = replicate k [] ++ last /\
    (last = [] \/ (last = [emotion p] /\ emotion p <> [])).

(** ** The value of a JSON string *)

Definition hex4 (a b c d : rune) : option Z :=
  match hexDigit a, hexDigit b, hexDigit c, hexDigit d with
  | Some x, Some y, Some z, Some w => Some (((x * 16 + y) * 16 + z) * 16 + w)
  | _, _, _, _ => None
  end.

Definition isHighSurrogate (u : Z) : bool := (0xD800 <=? u) && (u <? 0xDC00).
Definition isLowSurrogate (u : Z) : bool := (0xDC00 <=? u) && (u <? 0xE000).

(** The rune a two-character escape stands for. *)
Definition escapeValue (selector : rune) : option rune :=
  if (selector =? 34) || (selector =? 92) || (selector =? 47) then Some selector
  else if selector =? 98 then Some 8
  else if selector =? 102 then Some 12
  else if selector =? 110 then Some 10
  else if selector =? 114 then Some 13
  else if selector =? 116 then Some 9
  else None.

(** The escape of a low surrogate at the head of a text, and what follows
    it. *)
Definition lowEscape (s : gostring) : option (Z * gostring) :=
  match s with
  | bs :: u :: e :: f :: g :: h :: rest =>
      if (bs =? 92) && (u =? 117) then
        match hex4 e f g h with
        | Some l => if isLowSurrogate l then Some (l, rest) else None
        | None => None
        end
      else None
  | _ => None
  end.

(** The value of a JSON string as RFC 8259 defines it, for the text
    between its quotes: the two-character escapes, and [\uXXXX] as a
    UTF-16 code unit, a high surrogate followed by a low one standing for
    one scalar. A lone surrogate is read as U+FFFD, as [encoding/json]
    reads it. [None] for a text that is not the body of a string. *)
Fixpoint jsonStringValueFuel (fuel : nat) (s : gostring) : option gostring :=
  match fuel with
  | O => match s with [] => Some [] | _ => None end
  | S fuel =>
      match s with
      | [] => Some []
      | c :: rest =>
          if c =? 92 then
            match rest with
            | [] => None
            | selector :: rest1 =>
                if selector =? 117 then
                  match rest1 with
                  | a :: b :: c' :: d :: rest2 =>
                      match hex4 a b c' d with
                      | None => None
                      | Some u =>
                          if isHighSurrogate u then
                            match lowEscape rest2 with
                            | Some (l, rest3) =>
                                cons (0x10000 + (u - 0xD800) * 0x400 + (l - 0xDC00))
                                  <$> jsonStringValueFuel fuel rest3
                            | None => cons RuneError <$> jsonStringValueFuel fuel rest2
                            end
                          else if isLowSurrogate u then
                            cons RuneError <$> jsonStringValueFuel fuel rest2
                          else cons u <$> jsonStringValueFuel fuel rest2
                      end
                  | _ => None
                  end
                else
                  match escapeValue selector with
                  | Some r => cons r <$> jsonStringValueFuel fuel rest1
                  | None => None
                  end
            end
          else if (c =? 34) || (c <? 32) then None
          else cons c <$> jsonStringValueFuel fuel rest
      end
  end.

Definition jsonStringValue (s : gostring) : option gostring :=
  jsonStringValueFuel (length s) s.

(** ** Flat JSON objects *)

(** The body of a JSON string, character by character: a plain character,
    a two-character escape with its selector, or [\u] with four digits. *)
Inductive stringItem :=
  | Plain (c : rune)
  | Escaped (selector : rune)
  | Unicode (a b c d : rune).

Definition renderItem (it : stringItem) : gostring :=
  match it with
  | Plain c => [c]
  | Escaped selector => [92; selector]
  | Unicode a b c d => [92; 117; a; b; c; d]
  end.

Definition renderItems (items : list stringItem) : gostring :=
  flat_map renderItem items.

Definition itemValue (it : stringItem) : rune :=
  match it with
  | Plain c => c
  | Escaped selector => default 0 (escapeValue selector)
  | Unicode a b c d => default 0 (hex4 a b c d)
  end.

Definition itemsValue (items : list stringItem) : gostring := map itemValue items.

(** A well-formed item that denotes one scalar by itself: no half of a
    surrogate pair. *)
Definition scalarItem (it : stringItem) : Prop :=
  match it with
  | Plain c => c <> 34 /\ c <> 92 /\ 32 <= c /\ ValidRune c = true
  | Escaped selector => is_Some (escapeValue selector)
  | Unicode a b c d =>
      exists u, hex4 a b c d = Some u /\
                isHighSurrogate u = false /\ isLowSurrogate u = false
  end.

(** A member of a flat object: a key and a string value, with the text
    between them ([colon]) and after the value ([after]); or a key and
    what follows it up to and including the comma, for a value that is not
    a string. *)
Inductive member :=
  | stringMember (key : list stringItem) (colon : gostring)
      (value : list stringItem) (after : gostring)
  | otherMember (key : list stringItem) (rest : gostring).

Definition quoted (items : list stringItem) : gostring :=
  [34] ++ renderItems items ++ [34].

Definition renderMember (m : member) : gostring :=
  match m with
  | stringMember key colon value after => quoted key ++ colon ++ quoted value ++ after
  | otherMember key rest => quoted key ++ rest
  end.

Definition quoteFree (s : gostring) : Prop := ~ In 34 s.

Definition wellFormedMember (m : member) : Prop :=
  match m with
  | stringMember key colon value after =>
      Forall scalarItem key /\ Forall scalarItem value /\
      quoteFree colon /\ ~ In 44 colon /\ quoteFree after
  | otherMember key rest =>
      Forall scalarItem key /\ quoteFree rest /\ In 44 rest
  end.

(** The text of a flat object: what precedes the first key, the members,
    and the end, which has no string in it besides the key of a last
    member whose value is not a string. *)
Record flatObject := mkFlatObject {
  opening : gostring;
  members : list member;
  lastKey : option (list stringItem);
  closing : gostring
}.

Definition renderObject (o : flatObject) : gostring :=
  opening o ++ flat_map renderMember (members o)
  ++ match lastKey o with Some key => quoted key | None => [] end
  ++ closing o.

Definition wellFormedObject (o : flatObject) : Prop :=
  quoteFree (opening o) /\ Forall wellFormedMember (members o) /\
  match lastKey o with Some key => Forall scalarItem key | None => True end /\
  quoteFree (closing o).

(** The decoded values of the string members whose key is [reply], in
    order. *)
Definition memberReply (m : member) : gostring :=
  match m with
  | stringMember key _ value _ =>
      if eqs (itemsValue key) (go "reply") then itemsValue value else []
  | otherMember _ _ => []
  end.

Definition replyText (o : flatObject) : gostring :=
  flat_map memberReply (members o).

(** The parser between two members. *)
Definition idle (p : jsonStreamParser) : Prop :=
  inString p = false /\ escape p = false /\ unicodeLeft p = 0 /\
  unicodeBuf p = [] /\ expectValue p = false /\ currentKey p = [].

(** The parser inside a string, between two items. *)
Definition inside (p : jsonStreamParser) : Prop :=
  inString p = true /\ escape p = false /\ unicodeLeft p = 0 /\ unicodeBuf p = [].

(** ** Escalation *)

(** The request sequences a logical call can issue: the original, then
    at most one request with the temperature forced to zero and at most
    one with the response format downgraded, in either order. *)
Definition escalations (req : chatRequest) : list (list chatRequest) :=
  [ [req];
    [req; withoutTemperature req];
    [req; jsonObjectMode req];
    [req; withoutTemperature req; jsonObjectMode (withoutTemperature req)];
    [req; jsonObjectMode req; withoutTemperature (jsonObjectMode req)] ].

(** Every attempt fails with a temperature-unsupported error whose body
    carries no structured-output marker. *)
Definition alwaysTemperatureUnsupported (lowerTable : rune -> rune)
    {World R : Type} (attempt : chatRequest -> World -> (error + R) * World) : Prop :=
  forall req w, exists body w',
    attempt req w = (inl (apiError 400 body), w') /\
    shouldRetryWithoutTemperature lowerTable 400 body = true /\
    shouldFallbackToJSONMode lowerTable 400 body = false.

(** Every attempt fails with a temperature-unsupported error whose body
    also carries a structured-output marker. *)
Definition alwaysBothUnsupported (lowerTable : rune -> rune)
    {World R : Type} (attempt : chatRequest -> World -> (error + R) * World) : Prop :=
  forall req w, exists body w',
    attempt req w = (inl (apiError 400 body), w') /\
    shouldRetryWithoutTemperature lowerTable 400 body = true /\
    shouldFallbackToJSONMode lowerTable 400 body = true.

(** ** Emotions and messages *)

(** An entry of the allowed list that is empty once trimmed. *)
Definition blank (e : gostring) : Prop := TrimSpace e = [].

(** A text that is empty or all white space. *)
Definition allWhiteSpace (s : gostring) : Prop :=
  Forall (fun r => IsSpace r = true) s.

(** Equality up to case. *)
Definition sameIgnoringCase (lowerTable : rune -> rune) (a b : gostring) : Prop :=
  ToLower lowerTable a = ToLower lowerTable b.

Definition keptRole (msg : db.ChatMessage) : bool :=
  eqs (db.Role msg) (go "user") || eqs (db.Role msg) (go "assistant").

Definition toChatMessage (msg : db.ChatMessage) : chatMessage :=
  mkChatMessage (db.Role msg) (db.Content msg) [].

(** The re-parse of the raw stream yields no reply text. *)
Definition noReplyText (UnmarshalAI : gostring -> option aiJSON.t)
    (rawContent : gostring) : Prop :=
  parseAIJSON UnmarshalAI rawContent = None \/
  exists parsed, parseAIJSON UnmarshalAI rawContent = Some parsed /\
                 TrimSpace (aiJSON.Reply parsed) = [].

(** ** Closed examples *)

(** A client and a request for the examples. *)
Definition exampleClient : Client :=
  mkClient (go "https://api.deepseek.com") (go "key") (go "deepseek-chat")
    0.5%float (go "You are Ugur.") [] [go "neutral"; go "happy"; go "sad"].

Definition exampleRequest : chatRequest :=
  mkChatRequest (go "deepseek-chat") [] 0.5%float false (buildStructuredFormat exampleClient).

(** Two error bodies of the provider: the first carries the temperature
    marker alone, the second also the words [not supported]. *)
Definition temperatureValueError : gostring :=
  go "Unsupported value: 'temperature' does not support 0.5 with this model.".

Definition temperatureParameterError : gostring :=
  go "Unsupported parameter: 'temperature' is not supported with this model.".

(** A transport that answers every request with status 400 and [body]. *)
Definition alwaysRejects (body : gostring) (req : chatRequest) (w : unit)
  : (error + unit) * unit := (inl (apiError 400 body), w).

(** A world for the examples: its responses hold what the decoders would
    read from them, a [chatResponse] or the lines of a stream. *)
Inductive exampleBody :=
  | bufferedBody (response : chatResponse)
  | streamBody (lines : list gostring).

Definition exampleSend (body : exampleBody) (req : chatRequest) (w : unit)
  : (string + (Z * exampleBody)) * unit := (inr (200, body), w).

Definition exampleReadAll (body : exampleBody) : gostring := [].

Definition exampleDecode (body : exampleBody) : string + chatResponse :=
  match body with
  | bufferedBody response => inr response
  | streamBody _ => inl "unexpected end of JSON input"
  end.

Definition exampleReadLines (body : exampleBody) : list gostring * option error :=
  match body with
  | bufferedBody _ => ([], None)
  | streamBody lines => (lines, None)
  end.

(** The text up to the closing quote of a JSON string, and what follows
    the quote. *)
Fixpoint untilQuote (s : gostring) : option (gostring * gostring) :=
  match s with
  | [] => None
  | 92 :: c :: rest =>
      match untilQuote rest with
      | Some (body, after) => Some (92 :: c :: body, after)
      | None => None
      end
  | c :: rest =>
      if c =? 34 then Some ([], rest)
      else
        match untilQuote rest with
        | Some (body, after) => Some (c :: body, after)
        | None => None
        end
  end.

(** [json.Unmarshal] on the frames of the shape
    [{"choices":[{"delta":{"content":"..."}}]}], and on the objects of the
    shape [{"emotion":"...","reply":"..."}]; the examples use no other
    JSON text that parses. *)
Definition exampleUnmarshalChunk (data : gostring) : option (list delta) :=
  let opening := js "{'choices':[{'delta':{'content':'" in
  if HasPrefix data opening then
    match untilQuote (skipn (length opening) data) with
    | Some (body, after) =>
        if eqs after (go "}}]}") then
          (fun content => [mkDelta content []]) <$> jsonStringValue body
        else None
    | None => None
    end
  else None.

Definition exampleUnmarshalAI (content : gostring) : option aiJSON.t :=
  let opening := js "{'emotion':'" in
  let middle := js ",'reply':'" in
  if HasPrefix content opening then
    match untilQuote (skipn (length opening) content) with
    | Some (emotionBody, after) =>
        if HasPrefix after middle then
          match untilQuote (skipn (length middle) after) with
          | Some (replyBody, after') =>
              if eqs after' (go "}") then
                match jsonStringValue replyBody, jsonStringValue emotionBody with
                | Some reply, Some emotion => Some (aiJSON.mk reply emotion)
                | _, _ => None
                end
              else None
          | None => None
          end
        else None
    | None => None
    end
  else None.

Definition exampleHistory : list db.ChatMessage :=
  [db.mk (go "user") (go "hi")].

Definition exampleGenerate (response : chatResponse) :=
  GenerateReply latin1Lower (exampleSend (bufferedBody response)) exampleReadAll
    exampleDecode exampleUnmarshalAI (fun _ => None) exampleClient
    exampleHistory tt.

Definition exampleStream (lines : list gostring) (cb : callbacks) :=
  StreamReply latin1Lower (exampleSend (streamBody lines)) exampleReadAll
    exampleReadLines exampleUnmarshalChunk exampleUnmarshalAI (fun _ => None)
    exampleClient exampleHistory cb tt.

(** A line of the stream: [data: ] and a frame whose content is [content],
    written with ['] for the quote of the inner JSON text. *)
Definition frame (content : string) : gostring :=
  js "data: {'choices':[{'delta':{'content':'"
  ++ flat_map (fun r => if r =? 34 then [92; 34] else [r]) (js content)
  ++ js "'}}]}" ++ [10].

(** The stream of the end-to-end example, the reply padded with a space
    on each side. *)
Definition helloLines : list gostring :=
  [frame "{'emotion':'happ"; frame "y','reply':' He"; frame "llo! '}";
   go "data: [DONE]" ++ [10]].

(** ** Flat objects: the captured emotion *)

(** The decoded values of the string members whose key is [emotion], and
    the first of a list of strings that is not empty. *)
Definition memberEmotion (m : member) : gostring :=
  match m with
  | stringMember key _ value _ =>
      if eqs (itemsValue key) (go "emotion") then itemsValue value else []
  | otherMember _ _ => []
  end.

Fixpoint firstNonEmpty (l : list gostring) : gostring :=
  match l with
  | [] => []
  | s :: rest => if eqs s [] then firstNonEmpty rest else s
  end.

Definition emotionText (o : flatObject) : gostring :=
  firstNonEmpty (map memberEmotion (members o)).

(** ** Callbacks, answers and streams *)

(** A callback pair whose [onReply] rejects every delta. *)
Definition rejecting : callbacks :=
  mkCallbacks (Some (fun _ => Some (otherError "write: broken pipe"))) None.

(** A run that stops at the first delta that [onReply] rejects, with the
    error of that call for its result. *)
Definition stopsAtFailedDelivery {R : Type} (cb : callbacks) (acts : list action)
    (failed : error -> R) (r : option R) : Prop :=
  forall before s after f e,
    acts = before ++ CallReply s :: after ->
    onReply cb = Some f -> f s = Some e ->
    after = [] /\ r = Some (failed e).

(** The answers to a sequence of requests sent one after the other. *)
Fixpoint replay {World R : Type} (attempt : chatRequest -> World -> (error + R) * World)
    (reqs : list chatRequest) (w : World) : list (error + R) * World :=
  match reqs with
  | [] => ([], w)
  | req :: rest =>
      let '(r, w1) := attempt req w in
      let '(rs, w2) := replay attempt rest w1 in
      (r :: rs, w2)
  end.

(** An answer that the fallback chain escalates: an API error of status
    400 whose body carries a marker. *)
Definition escalated (lowerTable : rune -> rune) {R : Type} (r : error + R) : Prop :=
  exists body, r = inl (apiError 400 body) /\
    (shouldRetryWithoutTemperature lowerTable 400 body = true \/
     shouldFallbackToJSONMode lowerTable 400 body = true).

(** A delta with neither content nor refusal. *)
Definition quietDelta (d : delta) : bool :=
  eqs (deltaContent d) [] && eqs (deltaRefusal d) [].

(** The lines of a stream that carry nothing: blank lines, lines that do
    not start with [data:], frames that [json.Unmarshal] rejects and frames
    whose deltas are all quiet. *)
Definition ignoredLine (UnmarshalChunk : gostring -> option (list delta))
    (line : gostring) : bool :=
  let line := TrimSpace line in
  eqs line [] || negb (HasPrefix line (go "data:")) ||
  (let data := TrimSpace (TrimPrefix line (go "data:")) in
   negb (eqs data (go "[DONE]")) &&
   match UnmarshalChunk data with
   | None => true
   | Some choices => forallb quietDelta choices
   end).

(** The line that ends a stream. *)
Definition doneLine (line : gostring) : bool :=
  let line := TrimSpace line in
  negb (eqs line []) && HasPrefix line (go "data:") &&
  eqs (TrimSpace (TrimPrefix line (go "data:"))) (go "[DONE]").

(** A string read as code points, none negative, and a lower-case table
    that maps code points to code points. *)
Definition codePoints (s : gostring) : Prop := Forall (fun r => 0 <= r) s.

Definition lower_total (lowerTable : rune -> rune) : Prop :=
  forall r, 0 <= r -> 0 <= lowerTable r.

(** The format instruction of the system message (lines 100-101), and
    the prompt put in front of it (lines 102-105). *)
Definition formatInstruction (c : Client) : gostring :=
  go "Respond ONLY with valid JSON and no extra text. The JSON must have keys 'emotion' and 'reply' in that order. 'emotion' must be one of: "
  ++ Join (emotions c) (go ", ") ++ go ".".

Definition chosenPrompt (ReadFile : gostring -> option gostring) (c : Client)
  : gostring :=
  let prompt := loadPromptFromFile ReadFile c in
  if negb (eqs prompt []) then prompt else TrimSpace (systemPrompt c).

(** ** The handlers *)

(** The bytes of a sequence of calls. *)
Fixpoint bytesOf (sent : list wire) : gostring :=
  match sent with
  | [] => []
  | WriteBytes b :: rest => b ++ bytesOf rest
  | Flush :: rest => bytesOf rest
  end.

(** A writer that accepts everything. *)
Definition accepts (write : list wire -> gostring -> option error) : Prop :=
  forall sent b, write sent b = None.

(** The line of a frame that carries [line] of the data. *)
Definition dataLine (line : gostring) : gostring := go "data: " ++ line ++ [10].

(** The number a list of decimal digits spells. *)
Definition decimalValue (digits : list Z) : Z :=
  fold_left (fun n d => n * 10 + d) digits 0.

(** Calls that are all writes the writer accepted, after the calls [sent]. *)
Definition acceptedAll (write : list wire -> gostring -> option error)
    (sent new : list wire) : Prop :=
  forall before call after, new = before ++ call :: after ->
    exists b, call = WriteBytes b /\ write (sent ++ before) b = None.

(** A writer that accepts [n] calls and fails afterwards. *)
Definition failsFrom (n : nat) (sent : list wire) (b : gostring) : option error :=
  if (n <=? length sent)%nat then Some (otherError "write: broken pipe") else None.

(** ** More closed examples *)

(** The object [{"emotion":"happy","reply": "caf\u00e9\n"}], whose
    reply ends with two escapes. *)
Definition exampleObject : flatObject :=
  mkFlatObject (go "{")
    [stringMember (map Plain (go "emotion")) (go ":") (map Plain (go "happy")) (go ",");
     stringMember (map Plain (go "reply")) (go ": ")
       [Plain 99; Plain 97; Plain 102; Unicode 48 48 101 57; Escaped 110] []]
    None (go "}").

(** A client without an API key. *)
Definition keylessClient : Client :=
  mkClient (go "https://api.openai.com/v1") [] (go "gpt-4o-mini") 0.5%float
    (go "You are Ugur.") [] [go "neutral"; go "happy"; go "sad"].

(** ** Proof automation *)

#[local] Ltac outcome_eq := unfold continue; intros ?; simplify_eq; cbn; done.

(** * Properties *)

(** ** Facts about the string functions *)

Lemma eqs_true a b : eqs a b = true <-> a = b.
Proof. unfold eqs. apply bool_decide_eq_true. Qed.

Lemma eqs_false a b : eqs a b = false <-> a <> b.
Proof. unfold eqs. apply bool_decide_eq_false. Qed.

Lemma TrimLeft_nonspace s :
  match TrimLeft s with [] => True | r :: _ => IsSpace r = false end.
Proof. induction s as [|x s IH]; cbn; [done|]. by destruct (IsSpace x) eqn:E. Qed.

Lemma TrimLeft_id r s : IsSpace r = false -> TrimLeft (r :: s) = r :: s.
Proof. intros H. cbn. by rewrite H. Qed.

Lemma TrimRight_cons r s :
  IsSpace r = false -> exists t, TrimRight (r :: s) = r :: t.
Proof. intros H. cbn. rewrite H. destruct (TrimRight s); eauto. Qed.

Lemma TrimRight_idem s : TrimRight (TrimRight s) = TrimRight s.
Proof.
  induction s as [|r s IH]; [done|]. cbn.
  destruct (TrimRight s) as [|x t] eqn:E.
  - destruct (IsSpace r) eqn:Er; [done|]. cbn. by rewrite Er.
  - cbn in IH. cbn. destruct (TrimRight t) as [|y u] eqn:Et.
    + destruct (IsSpace x) eqn:Ex; [done|]. by injection IH as ->.
    + by rewrite IH.
Qed.

(** [TrimSpace] is idempotent. *)
Lemma TrimSpace_idem s : TrimSpace (TrimSpace s) = TrimSpace s.
Proof.
  unfold TrimSpace.
  pose proof (TrimLeft_nonspace s) as Hh.
  destruct (TrimLeft s) as [|r t]; [done|].
  destruct (TrimRight_cons r t Hh) as [u Hu]. rewrite Hu.
  rewrite TrimLeft_id by done. rewrite <- Hu. apply TrimRight_idem.
Qed.

Lemma asciiLower_idem r : asciiLower (asciiLower r) = asciiLower r.
Proof. unfold asciiLower. repeat case_match; lia. Qed.

Lemma asciiLower_ascii r : (asciiLower r <? 128) = (r <? 128).
Proof. unfold asciiLower. repeat case_match; lia. Qed.

Lemma stored_valid r : ValidRune (stored r) = true.
Proof. unfold stored. destruct (ValidRune r) eqn:E; [done|]. reflexivity. Qed.

Lemma stored_idem r : stored (stored r) = stored r.
Proof. unfold stored at 1. by rewrite stored_valid. Qed.

Lemma stored_nonneg r : 0 <= stored r.
Proof.
  pose proof (stored_valid r) as H. unfold ValidRune in H. lia.
Qed.

Section LowerFacts.
Variable lowerTable : rune -> rune.
Hypothesis stable : lower_stable lowerTable.

Lemma Map_lower_fixed s :
  Forall (fun y => exists r, 0 <= unicode_ToLower lowerTable r /\
                             y = stored (unicode_ToLower lowerTable r)) s ->
  map asciiLower s = s /\ Map (unicode_ToLower lowerTable) s = s.
Proof.
  induction 1 as [|y s (r & Hr & ->) _ [IH1 IH2]]; [done|].
  pose proof (stable r Hr) as Hs.
  set (y := stored (unicode_ToLower lowerTable r)) in *.
  assert (Hy : 0 <= y) by apply stored_nonneg.
  split.
  - cbn. rewrite IH1. f_equal.
    unfold unicode_ToLower in Hs at 1. destruct (y <=? 127) eqn:E; [done|].
    unfold asciiLower. case_match; [lia|done].
  - unfold Map in *. cbn. rewrite IH2, Hs.
    destruct (y <? 0) eqn:E; [lia|]. cbn. f_equal. apply stored_idem.
Qed.

(** Lower-casing is idempotent. *)
Lemma ToLower_idem s : ToLower lowerTable (ToLower lowerTable s) = ToLower lowerTable s.
Proof.
  destruct (forallb (fun r => r <? 128) s) eqn:Ea.
  - assert (Hs : ToLower lowerTable s = map asciiLower s)
      by (unfold ToLower; by rewrite Ea).
    rewrite Hs. unfold ToLower.
    assert (Hb : forallb (fun r => r <? 128) (map asciiLower s) = true).
    { rewrite forallb_forall in *. intros x Hx.
      apply in_map_iff in Hx as (y & <- & Hy).
      rewrite asciiLower_ascii. auto. }
    rewrite Hb, map_map. apply map_ext. intros; apply asciiLower_idem.
  - assert (Hs : ToLower lowerTable s = Map (unicode_ToLower lowerTable) s)
      by (unfold ToLower; by rewrite Ea).
    rewrite Hs.
    assert (HF : Forall (fun y => exists r, 0 <= unicode_ToLower lowerTable r /\
                             y = stored (unicode_ToLower lowerTable r))
                   (Map (unicode_ToLower lowerTable) s)).
    { clear Ea Hs. unfold Map. induction s as [|c s IH]; cbn; [constructor|].
      destruct (unicode_ToLower lowerTable c <? 0) eqn:E; cbn; [done|].
      constructor; [|done]. exists c. split; [lia|done]. }
    apply Map_lower_fixed in HF as [H1 H2].
    clear Ea Hs. unfold ToLower. by case_match.
Qed.
End LowerFacts.

Lemma latin1Lower_stable : lower_stable latin1Lower.
Proof.
  intros r. unfold unicode_ToLower, latin1Lower, asciiLower, stored, ValidRune, RuneError.
  intros Hr. repeat case_match; lia.
Qed.

(** ** The extractor without its callbacks *)

Lemma delivered_app a b : delivered (a ++ b) = delivered a ++ delivered b.
Proof.
  induction a as [|[] a IH]; cbn; [done| |done|done].
  by rewrite IH, app_assoc.
Qed.

Lemma emotionCalls_app a b : emotionCalls (a ++ b) = emotionCalls a ++ emotionCalls b.
Proof. induction a as [|[] a IH]; cbn; [done|done| |done]. by rewrite IH. Qed.

Lemma closeString_ok cb p p' acts :
  closeString cb p = (p', acts, None) ->
  p' = (closeString noCallbacks p).1.1 /\ delivered acts = [].
Proof.
  unfold closeString, continue. cbn [onEmotion noCallbacks].
  destruct (mode (setInString false p)); repeat case_match; outcome_eq.
Qed.

Lemma feedRune_ok cb p r p' acts :
  feedRune cb p r = (p', acts, None) ->
  p' = step p r /\ delivered acts = [].
Proof.
  unfold step, feedRune, continue.
  repeat case_match; try outcome_eq; apply closeString_ok.
Qed.

Lemma feedRunes_ok cb text : forall p p' acts,
  feedRunes cb p text = (p', acts, None) ->
  p' = run text p /\ delivered acts = [].
Proof.
  induction text as [|r text IH]; intros p p' acts; cbn [feedRunes].
  - outcome_eq.
  - destruct (feedRune cb p r) as [[p1 a1] [e1|]] eqn:E1; [done|].
    destruct (feedRunes cb p1 text) as [[p2 a2] e2] eqn:E2.
    intros [= <- <- ->].
    apply feedRune_ok in E1 as [-> Ha1]. apply IH in E2 as [-> Ha2].
    by rewrite delivered_app, Ha1, Ha2.
Qed.

(** The per-feed delta only accumulates: a step from a parser whose delta
    is [c] is the step from the parser with an empty delta, with [c] put
    in front of the new delta. *)
Lemma step_chunk p r c :
  step (setReplyChunk c p) r =
  setReplyChunk (c ++ replyChunk (step (setReplyChunk [] p) r))
    (step (setReplyChunk [] p) r).
Proof.
  destruct p as [rb rc ck cv ckn em ins ev md esc ul ub].
  unfold step, feedRune, closeString, handleRune, continue, WriteRune;
    cbn -[decodeUnicode escaped go eqs Z.ltb Z.eqb Z.sub].
  repeat (case_match; cbn -[decodeUnicode escaped go eqs Z.ltb Z.eqb Z.sub] in *;
          simplify_eq; try rewrite app_nil_r; try done).
Qed.

Lemma run_cons r text p : run (r :: text) p = run text (step p r).
Proof. done. Qed.

Lemma run_chunk text : forall p c,
  run text (setReplyChunk c p) =
  setReplyChunk (c ++ replyChunk (run text (setReplyChunk [] p)))
    (run text (setReplyChunk [] p)).
Proof.
  induction text as [|r text IH]; intros p c.
  - cbn. by rewrite app_nil_r.
  - rewrite !run_cons, step_chunk.
    set (q := step (setReplyChunk [] p) r).
    assert (Hq : run text q =
      setReplyChunk (replyChunk q ++ replyChunk (run text (setReplyChunk [] q)))
        (run text (setReplyChunk [] q))).
    { rewrite <- IH. f_equal. by destruct q. }
    rewrite IH, Hq. cbn. by rewrite app_assoc.
Qed.

(** A [Feed] that returns no error leaves the parser of the run with an
    empty delta, and hands the delta to [onReply] when there is one. *)
Lemma Feed_ok cb p text p' acts :
  Feed cb p text = (p', acts, None) ->
  p' = setReplyChunk [] (run text p) /\
  delivered acts = toReply cb (replyChunk (run text p)).
Proof.
  unfold Feed.
  destruct (feedRunes cb p text) as [[p1 a1] [e1|]] eqn:E1; [done|].
  apply feedRunes_ok in E1 as [-> Ha1].
  unfold flushChunk, continue.
  destruct (replyChunk (run text p)) as [|x chunk] eqn:Ec.
  - intros [= <- <-]. rewrite app_nil_r, Ha1.
    split; [|by unfold toReply; destruct (onReply cb)].
    destruct (run text p); cbn in *; by subst.
  - unfold toReply. destruct (onReply cb) as [f|]; [destruct (f (x :: chunk))|];
      intros ?; simplify_eq; rewrite delivered_app, Ha1; cbn;
      by rewrite ?app_nil_r.
Qed.

Lemma run_app a b p : run (a ++ b) p = run b (run a p).
Proof. apply fold_left_app. Qed.

Lemma setReplyChunk_twice a b p :
  setReplyChunk a (setReplyChunk b p) = setReplyChunk a p.
Proof. done. Qed.

Lemma feedAll_ok cb chunks : forall p p' acts,
  replyChunk p = [] ->
  feedAll cb p chunks = (p', acts, None) ->
  p' = setReplyChunk [] (run (concat chunks) p) /\
  delivered acts = toReply cb (replyChunk (run (concat chunks) p)).
Proof.
  induction chunks as [|c chunks IH]; intros p p' acts Hp; cbn [feedAll concat].
  - unfold continue. intros [= <- <-]. cbn. rewrite Hp.
    split; [by destruct p; cbn in *; subst | by unfold toReply; destruct (onReply cb)].
  - destruct (Feed cb p c) as [[p1 a1] [e1|]] eqn:E1; [done|].
    destruct (feedAll cb p1 chunks) as [[p2 a2] e2] eqn:E2.
    intros [= <- <- ->].
    apply Feed_ok in E1 as [-> Ha1].
    apply IH in E2 as [-> Ha2]; [|done].
    rewrite run_app, delivered_app, Ha1, Ha2.
    set (q := run c p).
    assert (Hq : run (concat chunks) q =
      setReplyChunk
        (replyChunk q ++ replyChunk (run (concat chunks) (setReplyChunk [] q)))
        (run (concat chunks) (setReplyChunk [] q))).
    { rewrite <- run_chunk. f_equal. by destruct q. }
    rewrite Hq. cbn.
    split; [done | by unfold toReply; destruct (onReply cb)].
Qed.

(** ** C1: chunk-boundary independence *)

(** C1. For every sequence of chunks, when neither run is cut short by a
    callback's error, feeding the chunks one by one to a fresh parser hands
    [onReply] the same text, call after call, as feeding their concatenation
    in one [Feed]; the two parsers end in the same state. *)
Theorem feed_chunk_boundary_independent (cb : callbacks)
    (chunks : list gostring) p1 acts1 p2 acts2 :
  feedAll cb newJSONStreamParser chunks = (p1, acts1, None) ->
  Feed cb newJSONStreamParser (concat chunks) = (p2, acts2, None) ->
  delivered acts1 = delivered acts2 /\ p1 = p2.
Proof.
  intros H1 H2.
  apply feedAll_ok in H1 as [-> ->]; [|done].
  apply Feed_ok in H2 as [-> ->]. done.
Qed.

(** C1 on the stream of the end-to-end example. *)
Lemma feed_chunk_boundary_independent_witness :
  let chunks := [js "{'emotion':'happ"; js "y','reply':'He"; js "llo!'}"] in
  delivered (feedAll collect newJSONStreamParser chunks).1.2 =
  delivered (Feed collect newJSONStreamParser (concat chunks)).1.2.
Proof.
  intros chunks.
  refine (proj1 (feed_chunk_boundary_independent collect chunks _ _ _ _ _ _));
    vm_compute; reflexivity.
Defined.

(** With callbacks that never return an error, [Feed] never does. *)
Lemma feedRune_total cb p r :
  neverFails cb -> exists p' acts, feedRune cb p r = (p', acts, None).
Proof.
  intros [_ He]. unfold feedRune, closeString, continue.
  repeat case_match; simplify_eq; eauto.
  match goal with H' : ?f ?s = Some _ |- _ =>
    rewrite (He f s eq_refl) in H'; done end.
Qed.

Lemma feedRunes_total cb text : forall p,
  neverFails cb -> exists p' acts, feedRunes cb p text = (p', acts, None).
Proof.
  induction text as [|r text IH]; intros p Hcb; cbn [feedRunes].
  - unfold continue; eauto.
  - destruct (feedRune_total cb p r Hcb) as (p1 & a1 & ->).
    destruct (IH p1 Hcb) as (p2 & a2 & ->). eauto.
Qed.

Lemma Feed_total cb p text :
  neverFails cb -> exists p' acts, Feed cb p text = (p', acts, None).
Proof.
  intros Hcb. unfold Feed.
  destruct (feedRunes_total cb text p Hcb) as (p1 & a1 & ->).
  unfold flushChunk, continue.
  destruct (replyChunk p1) as [|x chunk]; [eauto|].
  destruct (onReply cb) as [f|] eqn:Ef; [|eauto].
  rewrite (proj1 Hcb f (x :: chunk) Ef). eauto.
Qed.

Lemma feedAll_total cb chunks : forall p,
  neverFails cb -> exists p' acts, feedAll cb p chunks = (p', acts, None).
Proof.
  induction chunks as [|c chunks IH]; intros p Hcb; cbn [feedAll].
  - unfold continue; eauto.
  - destruct (Feed_total cb p c Hcb) as (p1 & a1 & ->).
    destruct (IH p1 Hcb) as (p2 & a2 & ->). eauto.
Qed.

(** ** C3: the capture callback *)

(** C3. On the payload [{"emotion":"","emotion":"happy"}] the emotion
    callback is invoked twice, first with the empty first value and then
    with the value of the second occurrence: the guard [p.emotion == ""]
    of lines 538 and 598 reads an empty captured value as no capture. *)
Theorem emotion_callback_fires_twice :
  Feed collect newJSONStreamParser (js "{'emotion':'','emotion':'happy'}") =
  (setCurrentKeyName (go "emotion") (setEmotion (go "happy") newJSONStreamParser),
   [CallEmotion []; CallEmotion (go "happy")], None).
Proof. vm_compute. reflexivity. Qed.

Section CaptureOnce.
Variable cb : callbacks.

(** Once a non-empty emotion is captured, the loop body neither changes
    it nor invokes [onEmotion]. *)
Lemma feedRune_captured p r p' acts err :
  feedRune cb p r = (p', acts, err) ->
  emotion p <> [] ->
  emotion p' = emotion p /\ emotionCalls acts = [].
Proof.
  intros H Hem. apply eqs_false in Hem.
  destruct p as [rb rc ck cv ckn em ins ev md esc ul ub].
  revert H. unfold feedRune, closeString, handleRune, continue;
    cbn -[decodeUnicode escaped go eqs Z.ltb Z.eqb Z.sub] in *.
  rewrite Hem, ?andb_false_r.
  repeat (case_match; cbn -[decodeUnicode escaped go eqs Z.ltb Z.eqb Z.sub] in *;
          simplify_eq; try rewrite andb_false_r in *; try done);
    intros ?; simplify_eq; done.
Qed.

(** While no emotion is captured, the loop body invokes [onEmotion] at
    most once, with the emotion the parser holds afterwards. *)
Lemma feedRune_capturing p r p' acts err :
  feedRune cb p r = (p', acts, err) ->
  emotion p = [] ->
  emotionCalls acts = [] \/ emotionCalls acts = [emotion p'].
Proof.
  intros H Hem.
  destruct p as [rb rc ck cv ckn em ins ev md esc ul ub].
  revert H. unfold feedRune, closeString, handleRune, continue;
    cbn -[decodeUnicode escaped go eqs Z.ltb Z.eqb Z.sub] in *.
  repeat (case_match; cbn -[decodeUnicode escaped go eqs Z.ltb Z.eqb Z.sub] in *;
          simplify_eq; try done);
    intros ?; simplify_eq; cbn; auto.
Qed.

Lemma capturedOnce_step calls1 calls2 p1 p2 :
  capturedOnce calls1 p1 ->
  (emotion p1 <> [] -> emotion p2 = emotion p1 /\ calls2 = []) ->
  (emotion p1 = [] -> calls2 = [] \/ calls2 = [emotion p2]) ->
  capturedOnce (calls1 ++ calls2) p2.
Proof.
  intros (k & last & -> & Hlast) Hcap Hnone.
  destruct Hlast as [-> | [-> Hne]].
  - rewrite app_nil_r.
    destruct (decide (emotion p1 = [])) as [He|He].
    + destruct (Hnone He) as [-> | ->].
      * exists k, []. rewrite app_nil_r. auto.
      * destruct (decide (emotion p2 = [])) as [H2|H2].
        -- exists (S k), []. split; [|auto]. rewrite app_nil_r.
           replace (emotion p2) with (@nil Z). clear.
           induction k; cbn; [done|]. by f_equal.
        -- exists k, [emotion p2]. auto.
    + destruct (Hcap He) as [_ ->]. exists k, []. rewrite !app_nil_r. auto.
  - destruct (Hcap Hne) as [He ->]. exists k, [emotion p2].
    split; [by rewrite app_nil_r, He | right; by rewrite He].
Qed.

Lemma feedRunes_capturedOnce text : forall p p' acts err calls,
  capturedOnce calls p ->
  feedRunes cb p text = (p', acts, err) ->
  capturedOnce (calls ++ emotionCalls acts) p'.
Proof.
  induction text as [|r text IH]; intros p p' acts err calls Hc; cbn [feedRunes].
  - intros [= <- <- _]. by rewrite app_nil_r.
  - destruct (feedRune cb p r) as [[p1 a1] e1] eqn:E1.
    assert (H1 : capturedOnce (calls ++ emotionCalls a1) p1).
    { apply (capturedOnce_step calls (emotionCalls a1) p p1 Hc).
      - intros Hne. by apply (feedRune_captured p r p1 a1 e1).
      - intros He. by apply (feedRune_capturing p r p1 a1 e1). }
    destruct e1 as [e1|].
    + by intros [= <- <- _].
    + destruct (feedRunes cb p1 text) as [[p2 a2] e2] eqn:E2.
      intros [= <- <- _]. rewrite emotionCalls_app, app_assoc. by eapply IH.
Qed.

Lemma Feed_capturedOnce text p p' acts err calls :
  capturedOnce calls p ->
  Feed cb p text = (p', acts, err) ->
  capturedOnce (calls ++ emotionCalls acts) p'.
Proof.
  intros Hc. unfold Feed.
  destruct (feedRunes cb p text) as [[p1 a1] e1] eqn:E1.
  pose proof (feedRunes_capturedOnce text p p1 a1 e1 calls Hc E1) as H1.
  destruct e1 as [e1|]; [by intros [= <- <- _]|].
  unfold flushChunk, continue.
  repeat case_match; intros ?; simplify_eq; rewrite emotionCalls_app; cbn;
    by rewrite app_nil_r.
Qed.

(** Capture-once for non-empty values: over the [Feed] calls of one parser,
    at most one [onEmotion] call carries a non-empty emotion; it is the
    last call, and the parser keeps that emotion. *)
Lemma feedAll_capturedOnce chunks : forall p p' acts err calls,
  capturedOnce calls p ->
  feedAll cb p chunks = (p', acts, err) ->
  capturedOnce (calls ++ emotionCalls acts) p'.
Proof.
  induction chunks as [|c chunks IH]; intros p p' acts err calls Hc;
    cbn [feedAll].
  - intros [= <- <- _]. by rewrite app_nil_r.
  - destruct (Feed cb p c) as [[p1 a1] e1] eqn:E1.
    pose proof (Feed_capturedOnce c p p1 a1 e1 calls Hc E1) as H1.
    destruct e1 as [e1|]; [by intros [= <- <- _]|].
    destruct (feedAll cb p1 chunks) as [[p2 a2] e2] eqn:E2.
    intros [= <- <- _]. rewrite emotionCalls_app, app_assoc. by eapply IH.
Qed.

(** From a fresh parser. *)
Lemma fresh_capturedOnce chunks p acts err :
  feedAll cb newJSONStreamParser chunks = (p, acts, err) ->
  capturedOnce (emotionCalls acts) p.
Proof.
  apply (feedAll_capturedOnce chunks newJSONStreamParser p acts err []).
  exists 0%nat, []. auto.
Qed.
End CaptureOnce.

(** The escape of U+00E9 reaches [onReply] as that one character however
    the text is cut into chunks. *)
Lemma unicode_escape_any_split (chunks : list gostring) p acts :
  concat chunks = js "{'reply':'caf\u00e9'}" ->
  feedAll collect newJSONStreamParser chunks = (p, acts, None) ->
  delivered acts = [99; 97; 102; 233].
Proof.
  intros Hc H. apply feedAll_ok in H as [_ ->]; [|done].
  rewrite Hc. vm_compute. reflexivity.
Qed.

(** ** C2: the decoded pass-through value *)

(** C2. The object [{'reply':'\ud83d\ude00'}], with the double quote
    for ['], spells U+1F600 as a surrogate pair. The extractor decodes
    each [\uXXXX] by itself ([decodeUnicode] returns the code unit as a
    rune) and [WriteRune] stores U+FFFD for each half, so [onReply]
    receives U+FFFD U+FFFD where the value of the field is the one scalar
    U+1F600. *)
Theorem surrogate_pair_not_decoded :
  (Feed collect newJSONStreamParser (js "{'reply':'\ud83d\ude00'}")).1.2 =
    [CallReply [0xFFFD; 0xFFFD]] /\
  jsonStringValue (go "\ud83d\ude00") = Some [0x1F600].
Proof. split; vm_compute; reflexivity. Qed.

(** ** C4: the escalation bound *)

Section NegotiatorFacts.
Variable lowerTable : rune -> rune.
Context {World R : Type}.
Variable attempt : chatRequest -> World -> (error + R) * World.

Lemma negotiate_escalations req w :
  In (attempts (negotiate lowerTable attempt req w)) (escalations req).
Proof.
  unfold negotiate, firstAttempt, escalations.
  destruct (attempt req w) as [[e|r] w1] eqn:E0; cbn; [|auto].
  unfold retryTemperature; cbn.
  destruct e as [st body|msg]; cbn; [|auto].
  destruct (shouldRetryWithoutTemperature lowerTable st body) eqn:Et.
  - unfold retry; cbn.
    destruct (attempt (withoutTemperature req) w1) as [[e1|r1] w2]; cbn; [|auto].
    unfold retryJSONMode; cbn.
    destruct e1 as [st1 body1|msg1]; cbn; [|auto].
    destruct (shouldFallbackToJSONMode lowerTable st1 body1); cbn.
    + unfold retry; cbn.
      destruct (attempt _ w2) as [[e2|r2] w3]; cbn; [|auto 6].
      unfold retryTemperatureAgain; cbn.
      destruct e2 as [st2 body2|msg2]; cbn; [|auto 6].
      rewrite andb_false_r. cbn. auto 6.
    + unfold retryTemperatureAgain; cbn. rewrite andb_false_r. cbn. auto.
  - unfold retryJSONMode; cbn.
    destruct (shouldFallbackToJSONMode lowerTable st body); cbn.
    + unfold retry; cbn.
      destruct (attempt (jsonObjectMode req) w1) as [[e1|r1] w2]; cbn; [|auto].
      unfold retryTemperatureAgain; cbn.
      destruct e1 as [st1 body1|msg1]; cbn; [|auto].
      destruct (_ && _); cbn; [|auto].
      unfold retry; cbn. destruct (attempt _ w2) as [r2 w3]; cbn. auto 6.
    + unfold retryTemperatureAgain; cbn. rewrite Et. cbn. auto.
Qed.

(** Two attempts, and the answer to the second for the result. *)
Lemma negotiate_two_attempts req w :
  alwaysTemperatureUnsupported lowerTable attempt ->
  let n := negotiate lowerTable attempt req w in
  attempts n = [req; withoutTemperature req] /\
  exists body0 w1 body1,
    attempt req w = (inl (apiError 400 body0), w1) /\
    attempt (withoutTemperature req) w1 = (result n, world n) /\
    result n = inl (apiError 400 body1).
Proof.
  intros Hall. cbv zeta. unfold negotiate, firstAttempt.
  destruct (Hall req w) as (b0 & w1 & E0 & Ht0 & Hj0). rewrite E0.
  cbn [result reqBody world attempts].
  unfold retryTemperature; cbn [result reqBody world attempts].
  rewrite Ht0. unfold retry; cbn [result reqBody world attempts].
  destruct (Hall (withoutTemperature req) w1) as (b1 & w2 & E1 & Ht1 & Hj1).
  rewrite E1.
  unfold retryJSONMode; cbn [result reqBody world attempts]. rewrite Hj1.
  unfold retryTemperatureAgain; cbn [result reqBody world attempts].
  rewrite Ht1. cbn. split; [done|]. by exists b0, w1, b1.
Qed.

(** Three attempts, the third in [json_object] mode, and the answer to
    the third for the result. *)
Lemma negotiate_three_attempts req w :
  alwaysBothUnsupported lowerTable attempt ->
  let n := negotiate lowerTable attempt req w in
  attempts n = [req; withoutTemperature req;
                jsonObjectMode (withoutTemperature req)] /\
  exists body0 w1 body1 w2 body2,
    attempt req w = (inl (apiError 400 body0), w1) /\
    attempt (withoutTemperature req) w1 = (inl (apiError 400 body1), w2) /\
    attempt (jsonObjectMode (withoutTemperature req)) w2 = (result n, world n) /\
    result n = inl (apiError 400 body2).
Proof.
  intros Hall. cbv zeta. unfold negotiate, firstAttempt.
  destruct (Hall req w) as (b0 & w1 & E0 & Ht0 & Hj0). rewrite E0.
  cbn [result reqBody world attempts].
  unfold retryTemperature; cbn [result reqBody world attempts].
  rewrite Ht0. unfold retry; cbn [result reqBody world attempts].
  destruct (Hall (withoutTemperature req) w1) as (b1 & w2 & E1 & Ht1 & Hj1).
  rewrite E1.
  unfold retryJSONMode; cbn [result reqBody world attempts]. rewrite Hj1.
  unfold retry; cbn [result reqBody world attempts].
  destruct (Hall (jsonObjectMode (withoutTemperature req)) w2)
    as (b2 & w3 & E2 & Ht2 & Hj2).
  rewrite E2.
  unfold retryTemperatureAgain; cbn [result reqBody world attempts].
  rewrite Ht2. cbn. split; [done|]. by exists b0, w1, b1, w2, b2.
Qed.

(** C4 (amended). For every transport, a logical call issues one of the
    request sequences of [escalations]: the temperature is forced to zero
    at most once, the response format is downgraded at most once, and at
    most 3 attempts are made. When every attempt fails with a
    temperature-unsupported error whose body carries no
    structured-output marker, exactly 2 attempts are made, the original
    and the one without temperature, and the error that the second
    attempt returned is the result. When the body of every such error
    also carries a structured-output marker, a third attempt is made, in
    [json_object] mode and without temperature, and the error that it
    returned is the result. *)
Theorem negotiate_escalation_bound req w :
  let n := negotiate lowerTable attempt req w in
  In (attempts n) (escalations req) /\
  (length (attempts n) <= 3)%nat /\
  (alwaysTemperatureUnsupported lowerTable attempt ->
   attempts n = [req; withoutTemperature req] /\
   exists body0 w1 body1,
     attempt req w = (inl (apiError 400 body0), w1) /\
     attempt (withoutTemperature req) w1 = (result n, world n) /\
     result n = inl (apiError 400 body1)) /\
  (alwaysBothUnsupported lowerTable attempt ->
   attempts n = [req; withoutTemperature req;
                 jsonObjectMode (withoutTemperature req)] /\
   exists body0 w1 body1 w2 body2,
     attempt req w = (inl (apiError 400 body0), w1) /\
     attempt (withoutTemperature req) w1 = (inl (apiError 400 body1), w2) /\
     attempt (jsonObjectMode (withoutTemperature req)) w2 = (result n, world n) /\
     result n = inl (apiError 400 body2)).
Proof.
  intros n. pose proof (negotiate_escalations req w) as Hin. fold n in Hin.
  split; [done|]. split; [|split].
  - unfold escalations in Hin. cbn in Hin.
    destruct Hin as [<-|[<-|[<-|[<-|[<-|[]]]]]]; cbn; lia.
  - intros Hall. apply (negotiate_two_attempts req w Hall).
  - intros Hall. apply (negotiate_three_attempts req w Hall).
Qed.
End NegotiatorFacts.

(** C4 on a transport that always answers with one of the provider's
    temperature errors: two attempts for the body that carries the
    temperature marker alone, three for the body that also reads
    [not supported]. *)
Lemma negotiate_escalation_bound_witness :
  attempts (negotiate latin1Lower (alwaysRejects temperatureValueError)
              exampleRequest tt)
  = [exampleRequest; withoutTemperature exampleRequest] /\
  attempts (negotiate latin1Lower (alwaysRejects temperatureParameterError)
              exampleRequest tt)
  = [exampleRequest; withoutTemperature exampleRequest;
     jsonObjectMode (withoutTemperature exampleRequest)].
Proof.
  split.
  - refine (proj1 (proj1 (proj2 (proj2 (negotiate_escalation_bound latin1Lower
              (alwaysRejects temperatureValueError) exampleRequest tt))) _)).
    intros req w. eexists _, _. split; [reflexivity|].
    split; vm_compute; reflexivity.
  - refine (proj1 (proj2 (proj2 (proj2 (negotiate_escalation_bound latin1Lower
              (alwaysRejects temperatureParameterError) exampleRequest tt))) _)).
    intros req w. eexists _, _. split; [reflexivity|].
    split; vm_compute; reflexivity.
Defined.

(** C4, as stated, fails: the body [temperatureParameterError] carries
    the temperature marker ([temperature], [unsupported]) and also
    [not supported], which [shouldFallbackToJSONMode] reads as a
    structured-output marker; the call makes 3 attempts. *)
Lemma temperature_unsupported_three_attempts :
  shouldRetryWithoutTemperature latin1Lower 400 temperatureParameterError = true /\
  attempts (negotiate latin1Lower (alwaysRejects temperatureParameterError)
              exampleRequest tt) =
    [exampleRequest; withoutTemperature exampleRequest;
     jsonObjectMode (withoutTemperature exampleRequest)].
Proof. split; vm_compute; reflexivity. Qed.

(** ** C5: emotion normalisation *)

Section EmotionFacts.
Variable lowerTable : rune -> rune.

Lemma normalizeLoop_spec em allowed :
  (normalizeLoop lowerTable em allowed = em /\
   exists e, In e allowed /\ em = ToLower lowerTable (TrimSpace e)) \/
  normalizeLoop lowerTable em allowed = [].
Proof.
  induction allowed as [|e allowed IH]; cbn; [by right|].
  destruct (eqs em _) eqn:E.
  - apply eqs_true in E. left. eauto.
  - destruct IH as [(H & e' & He' & Heq)|H]; [left|by right]. eauto.
Qed.

Lemma fallbackEmotion_spec allowed :
  (exists pre e post, allowed = pre ++ e :: post /\ Forall blank pre /\
     ~ blank e /\
     fallbackEmotion lowerTable allowed = ToLower lowerTable (TrimSpace e)) \/
  (Forall blank allowed /\ fallbackEmotion lowerTable allowed = go "neutral").
Proof.
  induction allowed as [|e allowed IH]; cbn -[go]; [by right|].
  destruct (eqs (TrimSpace e) []) eqn:E; cbn -[go].
  - apply eqs_true in E.
    destruct IH as [(pre & e' & post & -> & Hpre & He' & Hf)|[Hall Hf]].
    + left. exists (e :: pre), e', post. by repeat split; [constructor|..].
    + right. by split; [constructor|].
  - apply eqs_false in E. left. by exists [], e, allowed.
Qed.

Hypothesis stable : lower_stable lowerTable.

Lemma fallbackEmotion_lower allowed :
  ToLower lowerTable (fallbackEmotion lowerTable allowed)
  = fallbackEmotion lowerTable allowed.
Proof.
  destruct (fallbackEmotion_spec allowed)
    as [(pre & e & post & _ & _ & _ & ->)|[_ ->]].
  - by apply ToLower_idem.
  - reflexivity.
Qed.

End EmotionFacts.



(** ** The orchestrators *)

Lemma step_builder p r :
  replyBuilder (step p r) =
  replyBuilder p ++ replyChunk (step (setReplyChunk [] p) r).
Proof.
  destruct p as [rb rc ck cv ckn em ins ev md esc ul ub].
  unfold step, feedRune, closeString, handleRune, continue, WriteRune;
    cbn -[decodeUnicode escaped go eqs Z.ltb Z.eqb Z.sub].
  repeat (case_match; cbn -[decodeUnicode escaped go eqs Z.ltb Z.eqb Z.sub] in *;
          simplify_eq; try rewrite app_nil_r; try done).
Qed.

Lemma run_builder text : forall p,
  replyBuilder (run text p) =
  replyBuilder p ++ replyChunk (run text (setReplyChunk [] p)).
Proof.
  induction text as [|r text IH]; intros p.
  - cbn. by rewrite app_nil_r.
  - rewrite !run_cons, IH, step_builder.
    set (q := step (setReplyChunk [] p) r).
    assert (Hp : step p r = setReplyChunk (replyChunk p ++ replyChunk q) q).
    { unfold q. rewrite <- step_chunk. f_equal. by destruct p. }
    assert (Hq : run text q =
      setReplyChunk (replyChunk q ++ replyChunk (run text (setReplyChunk [] q)))
        (run text (setReplyChunk [] q))).
    { rewrite <- run_chunk. f_equal. by destruct q. }
    rewrite Hp, setReplyChunk_twice, Hq. cbn. by rewrite app_assoc.
Qed.

(** A [Feed] that returns no error from a parser with an empty delta
    leaves the delta empty and hands [onReply] what it adds to the reply. *)
Lemma Feed_builder cb p text p' acts :
  replyChunk p = [] ->
  Feed cb p text = (p', acts, None) ->
  replyChunk p' = [] /\
  toReply cb (replyBuilder p') = toReply cb (replyBuilder p) ++ delivered acts.
Proof.
  intros Hp H. apply Feed_ok in H as [-> ->]. split; [done|].
  cbn. rewrite run_builder.
  replace (setReplyChunk [] p) with p by (destruct p; cbn in *; by subst).
  unfold toReply. by destruct (onReply cb).
Qed.

Section OrchestratorFacts.
Variable lowerTable : rune -> rune.
Context {World Body : Type}.
Variable send : chatRequest -> World -> (string + (Z * Body)) * World.
Variable ReadAll : Body -> gostring.
Variable Decode : Body -> string + chatResponse.
Variable ReadLines : Body -> list gostring * option error.
Variable UnmarshalChunk : gostring -> option (list delta).
Variable UnmarshalAI : gostring -> option aiJSON.t.
Variable ReadFile : gostring -> option gostring.

(** *** C9: the messages of a request *)

Lemma fold_appendHistory history : forall messages,
  fold_left appendHistory history messages =
  messages ++ map toChatMessage (List.filter keptRole history).
Proof.
  induction history as [|msg history IH]; intros messages; cbn.
  - by rewrite app_nil_r.
  - rewrite IH. unfold appendHistory, keptRole.
    destruct (_ || _); cbn; [by rewrite <- app_assoc | done].
Qed.

(** C9. The messages of the request that [GenerateReply] and
    [StreamReply] build are the system message followed by the history
    entries whose role is ["user"] or ["assistant"], in their order, and
    every request the fallback chain sends carries these messages. *)
Theorem history_roles_filtered (c : Client) (history : list db.ChatMessage)
    (stream : bool) :
  let expected :=
    systemMessage ReadFile c :: map toChatMessage (List.filter keptRole history) in
  Messages (buildRequest ReadFile c history stream) = expected /\
  Role (systemMessage ReadFile c) = go "system" /\
  (forall msg, In msg (List.filter keptRole history) <->
     In msg history /\
     (db.Role msg = go "user" \/ db.Role msg = go "assistant")) /\
  (forall (R : Type) (attempt : chatRequest -> World -> (error + R) * World) w req,
     In req (attempts (negotiate lowerTable attempt
                         (buildRequest ReadFile c history stream) w)) ->
     Messages req = expected).
Proof.
  intros expected.
  assert (Hm : Messages (buildRequest ReadFile c history stream) = expected).
  { cbn. unfold buildMessages. by rewrite fold_appendHistory. }
  split; [done|]. split; [done|]. split.
  - intros msg. rewrite filter_In. unfold keptRole.
    rewrite orb_true_iff, !eqs_true. done.
  - intros R attempt w req Hin.
    pose proof (negotiate_escalations lowerTable attempt
                  (buildRequest ReadFile c history stream) w) as Hesc.
    unfold escalations in Hesc. cbn [In] in Hesc.
    destruct Hesc as [H|[H|[H|[H|[H|[]]]]]]; rewrite <- H in Hin;
      cbn [In] in Hin; intuition (subst req; exact Hm).
Qed.

(** *** C8: graceful degradation of the buffered mode *)

Lemma TrimSpace_allWhiteSpace s : allWhiteSpace s <-> TrimSpace s = [].
Proof.
  unfold TrimSpace. split.
  - induction 1 as [|r s Hr _ IH]; [done|]. cbn [TrimLeft]. by rewrite Hr.
  - induction s as [|r s IH]; [constructor|]. cbn [TrimLeft].
    destruct (IsSpace r) eqn:Er.
    + intros H. constructor; [done|by apply IH].
    + intros H. destruct (TrimRight_cons r s Er) as [t Ht]. by rewrite Ht in H.
Qed.

(** C8 (amended). When the transport returns a response whose first
    choice has a content that is not empty once trimmed, and [parseAIJSON]
    fails on that content or yields an empty reply, [GenerateReply] returns
    no error: its reply is the trimmed content and the fallback emotion.
    When the content is empty or all white space, [GenerateReply] returns
    an error: that the provider refused to answer when the refusal text of
    the choice is not blank, and that the content is empty otherwise. *)
Theorem generate_degrades_gracefully (c : Client) (history : list db.ChatMessage)
    (w : World) (parsed : chatResponse) (first : chatMessage)
    (rest : list chatMessage) :
  let content := TrimSpace (Content first) in
  let outcome :=
    (GenerateReply lowerTable send ReadAll Decode UnmarshalAI ReadFile c history w).1 in
  result (negotiate lowerTable (doChatRequest send ReadAll Decode c)
            (buildRequest ReadFile c history false) w) = inr parsed ->
  Choices parsed = first :: rest ->
  (content <> [] ->
   (parseAIJSON UnmarshalAI content = None \/
    exists payload, parseAIJSON UnmarshalAI content = Some payload /\
                    aiJSON.Reply payload = []) ->
   outcome = inr (mkReply content (fallbackEmotion lowerTable (emotions c)))) /\
  (allWhiteSpace (Content first) -> ~ blank (Refusal first) ->
   outcome = inl (otherError "openai api refused to answer")) /\
  (allWhiteSpace (Content first) -> blank (Refusal first) ->
   outcome = inl (otherError "openai api returned empty content")).
Proof.
  intros content outcome Hres Hch. subst outcome.
  unfold GenerateReply. rewrite Hres. cbn [fst].
  unfold replyOfResponse. rewrite Hch. fold content.
  split; [|split].
  - intros Hne Hparse. apply eqs_false in Hne. rewrite Hne.
    destruct Hparse as [-> | (payload & -> & Hr)]; [done|].
    apply eqs_true in Hr. by rewrite Hr.
  - intros Hblank Hrefusal. apply TrimSpace_allWhiteSpace in Hblank.
    fold content in Hblank. apply eqs_true in Hblank. rewrite Hblank.
    apply eqs_false in Hrefusal. by rewrite Hrefusal.
  - intros Hblank Hrefusal. apply TrimSpace_allWhiteSpace in Hblank.
    fold content in Hblank. apply eqs_true in Hblank. rewrite Hblank.
    apply eqs_true in Hrefusal. by rewrite Hrefusal.
Qed.

(** *** C6: the raw-stream fallback *)

(** When the extractor captured reply text, the result is that text,
    trimmed, and nothing else is done. *)
Lemma streamResult_captured (c : Client) (cb : callbacks) (st : streamState) :
  TrimSpace (parserReply (parser st)) <> [] ->
  streamResult lowerTable UnmarshalAI c cb st =
  (inr (mkReply (TrimSpace (parserReply (parser st)))
          (replyEmotion lowerTable (parserEmotion (parser st)) (emotions c))),
   []).
Proof.
  intros Hc. unfold streamResult. apply eqs_false in Hc. rewrite Hc. cbn.
  rewrite Hc. by rewrite TrimSpace_idem.
Qed.

(** C6 (amended). At the end of the stream, [StreamReply] re-parses the
    whole raw stream exactly when the extractor captured no reply text
    and the raw stream is not blank, whether or not the emotion was
    captured. In that case the call fails only if the re-parse yields no
    reply text, and otherwise returns the re-parsed reply, with the
    re-parsed emotion when the extractor captured none. When the
    extractor captured reply text the call succeeds with it and nothing
    is re-parsed. *)
Theorem raw_fallback_when_no_reply (c : Client) (cb : callbacks) (st : streamState) :
  let captured := TrimSpace (parserReply (parser st)) in
  let rawContent := TrimSpace (rawBuilder st) in
  let finish := streamResult lowerTable UnmarshalAI c cb st in
  (captured = [] -> rawContent <> [] ->
     (exists acts, finish.2 = ParseRaw rawContent :: acts) /\
     (forall err, finish.1 = inl err -> noReplyText UnmarshalAI rawContent) /\
     (forall parsed, parseAIJSON UnmarshalAI rawContent = Some parsed ->
        TrimSpace (aiJSON.Reply parsed) <> [] ->
        finish.1 = inr (mkReply (TrimSpace (aiJSON.Reply parsed))
                       (replyEmotion lowerTable
                          (if eqs (parserEmotion (parser st)) []
                           then aiJSON.Emotion parsed
                           else parserEmotion (parser st))
                          (emotions c))))) /\
  (captured <> [] ->
     finish = (inr (mkReply captured
                   (replyEmotion lowerTable (parserEmotion (parser st)) (emotions c))),
            [])).
Proof.
  intros captured rawContent finish. subst finish. unfold streamResult.
  fold captured. fold rawContent. split.
  - intros Hc Hr. rewrite Hc.
    replace (eqs [] []) with true by done.
    apply eqs_false in Hr. rewrite Hr. cbn [negb].
    destruct (parseAIJSON UnmarshalAI rawContent) as [parsed|] eqn:Ep.
    + destruct (eqs (aiJSON.Reply parsed) []) eqn:Er; cbn [negb].
      * apply eqs_true in Er.
        replace (eqs [] []) with true by done.
        destruct (negb _); cbn; (split; [eauto|]); (split;
          [intros; right; exists parsed; by rewrite Er
          |intros ? [= <-]; by rewrite Er]).
      * destruct (eqs (parserEmotion (parser st)) []) eqn:Ee.
        -- destruct (SetEmotion cb (parser st) (aiJSON.Emotion parsed))
             as [p acts] eqn:Es.
           assert (Hp : parserEmotion p = aiJSON.Emotion parsed).
           { unfold SetEmotion in Es. unfold parserEmotion in Ee.
             rewrite Ee in Es. cbn in Es. by injection Es as <- _. }
           destruct (eqs (TrimSpace (aiJSON.Reply parsed)) []) eqn:Et.
           ++ apply eqs_true in Et.
              destruct (negb _); cbn; (split; [eauto|]); (split;
                [intros; right; by exists parsed | by intros ? [= <-]]).
           ++ cbn. split; [eauto|]. split; [done|].
              intros ? [= <-] _. by rewrite TrimSpace_idem, Hp.
        -- destruct (eqs (TrimSpace (aiJSON.Reply parsed)) []) eqn:Et.
           ++ apply eqs_true in Et.
              destruct (negb _); cbn; (split; [eauto|]); (split;
                [intros; right; by exists parsed | by intros ? [= <-]]).
           ++ cbn. split; [eauto|]. split; [done|].
              intros ? [= <-] _. by rewrite TrimSpace_idem.
    + replace (eqs [] []) with true by done.
      destruct (negb _); cbn; (split; [eauto|]); (split; [by left; auto | done]).
  - intros Hc. by apply streamResult_captured.
Qed.

(** *** C10: the text of a streamed reply *)

Lemma feedChoices_builder cb choices : forall st st' acts,
  replyChunk (parser st) = [] ->
  feedChoices cb st choices = (st', acts, None) ->
  replyChunk (parser st') = [] /\
  toReply cb (replyBuilder (parser st')) =
    toReply cb (replyBuilder (parser st)) ++ delivered acts.
Proof.
  induction choices as [|choice choices IH]; intros st st' acts Hst;
    cbn [feedChoices].
  - intros [= <- <-]. by rewrite app_nil_r.
  - destruct (negb (eqs (deltaContent choice) [])).
    + destruct (Feed cb (parser st) (deltaContent choice))
        as [[p a1] [e1|]] eqn:E1; [done|].
      apply Feed_builder in E1 as [Hp Ha1]; [|done].
      match goal with |- context [feedChoices cb ?s choices] =>
        destruct (feedChoices cb s choices) as [[st3 a2] e2] eqn:E2 end.
      intros [= <- <- ->].
      apply IH in E2 as [Hc Ha2]; [|by destruct (negb _)].
      split; [done|]. rewrite Ha2, delivered_app, app_assoc, <- Ha1.
      by destruct (negb _).
    + match goal with |- context [feedChoices cb ?s choices] =>
        destruct (feedChoices cb s choices) as [[st3 a2] e2] eqn:E2 end.
      intros [= <- <- ->].
      apply IH in E2 as [Hc Ha2]; [|by destruct (negb _)].
      split; [done|]. rewrite Ha2. by destruct (negb _).
Qed.

Lemma readLoop_builder cb lines : forall st st' acts fin,
  replyChunk (parser st) = [] ->
  readLoop UnmarshalChunk cb st lines = (st', acts, None, fin) ->
  toReply cb (replyBuilder (parser st')) =
    toReply cb (replyBuilder (parser st)) ++ delivered acts.
Proof.
  induction lines as [|line lines IH]; intros st st' acts fin Hst;
    cbn [readLoop].
  - intros [= <- <- _]. by rewrite app_nil_r.
  - destruct (eqs (TrimSpace line) []); [by apply IH|].
    destruct (negb (HasPrefix _ _)); [by apply IH|].
    destruct (eqs _ (go "[DONE]")).
    { intros [= <- <- _]. by rewrite app_nil_r. }
    destruct (UnmarshalChunk _) as [choices|]; [|by apply IH].
    destruct (feedChoices cb st choices) as [[st1 a1] [e1|]] eqn:E1; [done|].
    apply feedChoices_builder in E1 as [Hc Ha1]; [|done].
    destruct (readLoop UnmarshalChunk cb st1 lines) as [[[st2 a2] e2] d2] eqn:E2.
    intros [= <- <- -> <-].
    apply IH in E2; [|done].
    by rewrite E2, Ha1, delivered_app, app_assoc.
Qed.

Lemma streamResult_delivered c cb st :
  delivered (streamResult lowerTable UnmarshalAI c cb st).2 = [].
Proof.
  unfold streamResult, SetEmotion.
  repeat (case_match; simplify_eq; cbn; try done).
Qed.

(** C10. When [StreamReply] succeeds and the text handed to [onReply],
    call after call, is not blank, the returned [Text] is that text
    without its leading and trailing white space. *)
Theorem stream_text_is_trimmed_delivery (c : Client)
    (history : list db.ChatMessage) (cb : callbacks) (w w' : World)
    (reply : Reply) (acts : list action) :
  StreamReply lowerTable send ReadAll ReadLines UnmarshalChunk UnmarshalAI
    ReadFile c history cb w = (inr reply, acts, w') ->
  TrimSpace (delivered acts) <> [] ->
  Text reply = TrimSpace (delivered acts).
Proof.
  unfold StreamReply.
  destruct (result _) as [err|body]; [done|].
  unfold consumeStream.
  destruct (ReadLines body) as [lines readErr].
  destruct (readLoop _ _ _ lines) as [[[st a1] [e1|]] fin] eqn:E1; [done|].
  destruct (if fin then None else readErr); [done|].
  pose proof (streamResult_delivered c cb st) as Hd.
  pose proof (streamResult_captured c cb st) as Hcap.
  destruct (streamResult lowerTable UnmarshalAI c cb st) as [r a2] eqn:E2.
  intros [= -> <- _]. rewrite delivered_app. cbn in Hd. rewrite Hd, app_nil_r.
  apply readLoop_builder in E1; [|done]. cbn in E1.
  unfold toReply in E1. destruct (onReply cb); cbn in E1.
  - rewrite <- E1. intros Hne. specialize (Hcap Hne).
    by injection Hcap as ->.
  - by rewrite <- E1.
Qed.
End OrchestratorFacts.

(** C8 on a plain-text answer, and on an answer of one space with a
    refusal. *)
Lemma generate_degrades_gracefully_witness :
  (exampleGenerate
     (mkChatResponse [mkChatMessage (go "assistant") (go " Just text. ") []])).1
  = inr (mkReply (go "Just text.") (go "neutral")) /\
  (exampleGenerate
     (mkChatResponse [mkChatMessage (go "assistant") [32] (go "I cannot help.")])).1
  = inl (otherError "openai api refused to answer").
Proof.
  split.
  - refine (proj1 (generate_degrades_gracefully latin1Lower
              (exampleSend (bufferedBody _)) exampleReadAll exampleDecode
              exampleUnmarshalAI (fun _ => None) exampleClient exampleHistory tt
              (mkChatResponse [mkChatMessage (go "assistant") (go " Just text. ") []])
              (mkChatMessage (go "assistant") (go " Just text. ") []) [] _ _) _ _).
    + vm_compute; reflexivity.
    + reflexivity.
    + vm_compute; discriminate.
    + left. vm_compute; reflexivity.
  - refine (proj1 (proj2 (generate_degrades_gracefully latin1Lower
              (exampleSend (bufferedBody _)) exampleReadAll exampleDecode
              exampleUnmarshalAI (fun _ => None) exampleClient exampleHistory tt
              (mkChatResponse [mkChatMessage (go "assistant") [32] (go "I cannot help.")])
              (mkChatMessage (go "assistant") [32] (go "I cannot help.")) [] _ _)) _ _).
    + vm_compute; reflexivity.
    + reflexivity.
    + repeat constructor.
    + vm_compute; discriminate.
Defined.

(** The end-to-end example of the specification. *)
Example stream_hello :
  exampleStream helloLines collect =
  (inr (mkReply (go "Hello!") (go "happy")),
   [CallEmotion (go "happy"); CallReply (go " He"); CallReply (go "llo! ")], tt).
Proof. vm_compute. reflexivity. Qed.

(** C8, as stated, fails: a content of one space is not empty, and
    [GenerateReply] returns an error for it, whatever [json.Unmarshal]
    answers; and the padded text [" Just text. "], on which the parse
    fails, is returned without its padding. *)
Lemma blank_content_is_an_error :
  let answer (content : gostring) :=
    mkChatResponse [mkChatMessage (go "assistant") content []] in
  (forall UnmarshalAI : gostring -> option aiJSON.t,
     GenerateReply latin1Lower (exampleSend (bufferedBody (answer [32])))
       exampleReadAll exampleDecode UnmarshalAI (fun _ => None)
       exampleClient exampleHistory tt
     = (inl (otherError "openai api returned empty content"), tt)) /\
  (forall UnmarshalAI : gostring -> option aiJSON.t,
     UnmarshalAI (go "Just text.") = None ->
     GenerateReply latin1Lower
       (exampleSend (bufferedBody (answer (go " Just text. "))))
       exampleReadAll exampleDecode UnmarshalAI (fun _ => None)
       exampleClient exampleHistory tt
     = (inr (mkReply (go "Just text.") (go "neutral")), tt)).
Proof.
  split; intros UnmarshalAI.
  - vm_compute. reflexivity.
  - intros Hfail. unfold GenerateReply.
    replace (result _) with
      (inr (mkChatResponse [mkChatMessage (go "assistant") (go " Just text. ") []])
       : error + chatResponse) by (vm_compute; reflexivity).
    cbn [fst]. unfold replyOfResponse; cbn [Choices Content].
    replace (TrimSpace (go " Just text. ")) with (go "Just text.")
      by (vm_compute; reflexivity).
    replace (eqs (go "Just text.") []) with false by (vm_compute; reflexivity).
    unfold parseAIJSON. rewrite Hfail.
    replace (Index (go "Just text.") 123) with (@None nat) by (vm_compute; reflexivity).
    f_equal; vm_compute; reflexivity.
Qed.

(** C10 on the end-to-end example. *)
Lemma stream_text_is_trimmed_delivery_witness :
  Text (mkReply (go "Hello!") (go "happy")) =
  TrimSpace (delivered [CallEmotion (go "happy"); CallReply (go " He");
                        CallReply (go "llo! ")]).
Proof.
  refine (stream_text_is_trimmed_delivery latin1Lower
            (exampleSend (streamBody helloLines)) exampleReadAll
            exampleReadLines exampleUnmarshalChunk exampleUnmarshalAI
            (fun _ => None) exampleClient exampleHistory collect tt tt _ _ _ _).
  - vm_compute; reflexivity.
  - vm_compute; discriminate.
Defined.

(** C6, as stated, fails: the stream below carries the object
    [{"reply":"hi"}]; the extractor never finalizes an emotion (no
    [CallEmotion], though [onEmotion] is set), and [StreamReply] returns
    the captured reply with the fallback emotion without re-parsing the raw
    stream (no [ParseRaw]), whatever [json.Unmarshal] would make of it. *)
Lemma captured_reply_is_not_reparsed :
  let lines := [frame "{'reply':'hi'}"; go "data: [DONE]" ++ [10]] in
  parserEmotion (Feed collect newJSONStreamParser (js "{'reply':'hi'}")).1.1 = [] /\
  (forall UnmarshalAI : gostring -> option aiJSON.t,
     StreamReply latin1Lower (exampleSend (streamBody lines)) exampleReadAll
       exampleReadLines exampleUnmarshalChunk UnmarshalAI (fun _ => None)
       exampleClient exampleHistory collect tt
     = (inr (mkReply (go "hi") (go "neutral")), [CallReply (go "hi")], tt)).
Proof.
  split; [vm_compute; reflexivity|].
  intros UnmarshalAI. vm_compute. reflexivity.
Qed.

(** ** C7: the schema builder *)

(** C7. The response format is a function of the allowed emotions alone:
    a [json_schema] format, strict, whose schema is an object with
    [additionalProperties] false, the required properties ["reply"] and
    ["emotion"] and no other property, both strings, the property
    ["emotion"] carrying an [enum] exactly when the allowed list is not
    empty, and then the allowed list as it stands. *)
Theorem buildStructuredFormat_contract (c : Client) :
  exists schema properties emotionSchema,
    buildStructuredFormat c =
      mkResponseFormat (go "json_schema")
        (Some (mkJsonSchema (go "chat_reply")
                 (go "Structured response for chat reply and emotion.")
                 schema true)) /\
    dom schema = {[ "type"; "additionalProperties"; "properties"; "required" ]} /\
    schema !! "type" = Some (AString (go "object")) /\
    schema !! "additionalProperties" = Some (ABool false) /\
    schema !! "required" = Some (AStrings [go "reply"; go "emotion"]) /\
    schema !! "properties" = Some (AMap properties) /\
    dom properties = {[ "reply"; "emotion" ]} /\
    properties !! "reply" = Some (AMap {[ "type" := AString (go "string") ]}) /\
    properties !! "emotion" = Some (AMap emotionSchema) /\
    emotionSchema !! "type" = Some (AString (go "string")) /\
    emotionSchema !! "enum" =
      match emotions c with
      | [] => None
      | _ :: _ => Some (AStrings (emotions c))
      end /\
    dom emotionSchema ⊆ {[ "type"; "enum" ]} /\
    (forall c', emotions c' = emotions c ->
       buildStructuredFormat c' = buildStructuredFormat c).
Proof.
  eexists _, _, (buildEmotionSchema c).
  split; [reflexivity|].
  split; [set_solver|].
  do 4 (split; [reflexivity|]).
  split; [set_solver|].
  do 2 (split; [reflexivity|]).
  unfold buildEmotionSchema.
  split; [by destruct (emotions c)|].
  split; [by destruct (emotions c)|].
  split; [destruct (emotions c); cbn; set_solver|].
  intros c' Hc. unfold buildStructuredFormat, buildEmotionSchema. by rewrite Hc.
Qed.

(** ** The decoded pass-through value of a flat object *)

Lemma hexDigit_range a x : hexDigit a = Some x -> 48 <= a <= 102 /\ 0 <= x < 16.
Proof. unfold hexDigit. repeat case_match; intros [= <-]; lia. Qed.

Lemma ParseUint16_hex4 a b c d u :
  hex4 a b c d = Some u -> ParseUint16 [a; b; c; d] 0 = Some u /\ 0 <= u < 65536.
Proof.
  unfold hex4. cbn.
  destruct (hexDigit a) as [x|] eqn:Ea; [|done].
  destruct (hexDigit b) as [y|] eqn:Eb; [|done].
  destruct (hexDigit c) as [z|] eqn:Ec; [|done].
  destruct (hexDigit d) as [w|] eqn:Ed; [|done].
  apply hexDigit_range in Ea, Eb, Ec, Ed. intros [= <-]. split; [done|lia].
Qed.

Lemma stored_ascii a : 0 <= a < 128 -> stored a = a.
Proof. intros H. unfold stored, ValidRune. repeat case_match; lia. Qed.

Lemma decodeUnicode_hex4 a b c d u :
  hex4 a b c d = Some u ->
  decodeUnicode [stored a; stored b; stored c; stored d] = Some u.
Proof.
  intros H. pose proof (ParseUint16_hex4 a b c d u H) as [Hp Hu].
  unfold hex4 in H.
  destruct (hexDigit a) as [x|] eqn:Ea; [|done].
  destruct (hexDigit b) as [y|] eqn:Eb; [|done].
  destruct (hexDigit c) as [z|] eqn:Ec; [|done].
  destruct (hexDigit d) as [w|] eqn:Ed; [|done].
  apply hexDigit_range in Ea as [Ha _], Eb as [Hb _], Ec as [Hc _], Ed as [Hd _].
  rewrite !stored_ascii by lia.
  unfold decodeUnicode, len, RuneLen. cbn [fold_right].
  repeat (case_match; try lia). cbn [negb].
  unfold ParseInt_16_32.
  replace (a =? 45) with false by lia. replace (a =? 43) with false by lia.
  cbn [orb negb andb]. rewrite Hp.
  replace (2 ^ 31 <=? u) with false by lia. done.
Qed.

Lemma scalarItem_stored it : scalarItem it -> stored (itemValue it) = itemValue it.
Proof.
  destruct it as [c|e|a b c d]; cbn.
  - intros (_ & _ & _ & Hv). unfold stored. by rewrite Hv.
  - intros [v Hv]. rewrite Hv. cbn. revert Hv. unfold escapeValue.
    repeat case_match; intros [= <-]; try done; apply stored_ascii; lia.
  - intros (u & Hu & Hh & Hl). rewrite Hu. cbn.
    apply ParseUint16_hex4 in Hu as [_ Hu].
    unfold stored, ValidRune. unfold isHighSurrogate, isLowSurrogate in *.
    repeat case_match; lia.
Qed.

Lemma escaped_escapeValue e v : escapeValue e = Some v -> escaped e = Some v.
Proof. unfold escapeValue, escaped. repeat case_match; intros [= <-]; (done || lia). Qed.

(** The loop body on the runes of an escape, one rune at a time. *)
Lemma step_backslash rb rc ck cv ckn em ev md ub :
  step (mkParser rb rc ck cv ckn em true ev md false 0 ub) 92 =
  mkParser rb rc ck cv ckn em true ev md true 0 ub.
Proof. reflexivity. Qed.

Lemma step_selector rb rc ck cv ckn em ev md ub e :
  step (mkParser rb rc ck cv ckn em true ev md true 0 ub) e =
  match escaped e with
  | Some c => handleRune (mkParser rb rc ck cv ckn em true ev md false 0 ub) c
  | None => mkParser rb rc ck cv ckn em true ev md false 4 ub
  end.
Proof. unfold step, feedRune. cbn -[escaped handleRune]. by destruct (escaped e). Qed.

Lemma step_u rb rc ck cv ckn em ev md ub :
  step (mkParser rb rc ck cv ckn em true ev md true 0 ub) 117 =
  mkParser rb rc ck cv ckn em true ev md false 4 ub.
Proof. reflexivity. Qed.

Lemma step_digit rb rc ck cv ckn em ins ev md esc ul ub a :
  (1 <? ul) = true ->
  step (mkParser rb rc ck cv ckn em ins ev md esc ul ub) a =
  mkParser rb rc ck cv ckn em ins ev md esc (ul - 1) (ub ++ [stored a]).
Proof.
  intros H. unfold step, feedRune. cbn -[Z.ltb Z.eqb Z.sub decodeUnicode].
  replace (0 <? ul) with true by lia. by replace (ul - 1 =? 0) with false by lia.
Qed.

Lemma step_last_digit rb rc ck cv ckn em ins ev md esc ub a :
  step (mkParser rb rc ck cv ckn em ins ev md esc 1 ub) a =
  match decodeUnicode (ub ++ [stored a]) with
  | Some u => handleRune (mkParser rb rc ck cv ckn em ins ev md esc 0 []) u
  | None => mkParser rb rc ck cv ckn em ins ev md esc 0 []
  end.
Proof.
  unfold step, feedRune. cbn -[decodeUnicode handleRune].
  by destruct (decodeUnicode _).
Qed.

Lemma step_plain rb rc ck cv ckn em ev md ub c :
  c <> 34 -> c <> 92 ->
  step (mkParser rb rc ck cv ckn em true ev md false 0 ub) c =
  handleRune (mkParser rb rc ck cv ckn em true ev md false 0 ub) c.
Proof.
  intros H34 H92. unfold step, feedRune. cbn -[handleRune Z.eqb].
  replace (c =? 92) with false by lia. by replace (c =? 34) with false by lia.
Qed.

(** Inside a string, the runes of one item have the effect of
    [handleRune] on the rune the item denotes. *)
Lemma run_item p it :
  inside p -> scalarItem it ->
  run (renderItem it) p = handleRune p (itemValue it).
Proof.
  intros (Hs & He & Hl & Hb) Hit.
  destruct p as [rb rc ck cv ckn em ins ev md esc ul ub].
  cbn in Hs, He, Hl, Hb. subst.
  destruct it as [c|e|a b c d]; cbn [renderItem itemValue]; unfold run;
    cbn [fold_left].
  - destruct Hit as (H34 & H92 & _ & _). by apply step_plain.
  - destruct Hit as [v Hv]. rewrite Hv. cbn [default].
    by rewrite step_backslash, step_selector, (escaped_escapeValue e v Hv).
  - destruct Hit as (u & Hu & _). rewrite Hu. cbn [default].
    rewrite step_backslash, step_u.
    rewrite !step_digit by done. rewrite step_last_digit.
    cbn [app Z.sub Z.pos_sub Z.succ_double Z.pred_double Z.double Pos.pred_double].
    by rewrite (decodeUnicode_hex4 a b c d u Hu).
Qed.

Lemma handleRune_inside p v : inside p -> inside (handleRune p v).
Proof.
  unfold inside, handleRune. intros H.
  destruct (mode p); [done|done|]. repeat case_match; done.
Qed.

Lemma run_items items : forall p,
  inside p -> Forall scalarItem items ->
  run (renderItems items) p = fold_left handleRune (itemsValue items) p.
Proof.
  induction items as [|it items IH]; intros p Hp Hall; [done|].
  inversion Hall as [|? ? Hit Hrest]; subst.
  unfold renderItems. cbn [flat_map itemsValue map fold_left].
  rewrite run_app, run_item by done.
  apply IH; [by apply handleRune_inside | done].
Qed.

Lemma itemsValue_stored items :
  Forall scalarItem items -> map stored (itemsValue items) = itemsValue items.
Proof.
  unfold itemsValue. induction 1 as [|it items Hit _ IH]; [done|].
  cbn [map]. by rewrite scalarItem_stored, IH.
Qed.

Lemma fold_handleRune_key vs : forall p,
  mode p = modeKey ->
  fold_left handleRune vs p = setCurrentKey (currentKey p ++ map stored vs) p.
Proof.
  induction vs as [|v vs IH]; intros p Hm; cbn [fold_left map].
  - rewrite app_nil_r. by destruct p.
  - assert (Hh : handleRune p v = setCurrentKey (currentKey p ++ [stored v]) p).
    { unfold handleRune. by rewrite Hm. }
    rewrite Hh, IH by done. cbn. by rewrite <- app_assoc.
Qed.

Lemma fold_handleRune_reply vs : forall p,
  mode p = modeValue -> currentKeyName p = go "reply" ->
  fold_left handleRune vs p =
  setReplyChunk (replyChunk p ++ map stored vs)
    (setReplyBuilder (replyBuilder p ++ map stored vs) p).
Proof.
  induction vs as [|v vs IH]; intros p Hm Hk; cbn [fold_left map].
  - rewrite !app_nil_r. by destruct p.
  - assert (Hh : handleRune p v =
      setReplyChunk (replyChunk p ++ [stored v])
        (setReplyBuilder (replyBuilder p ++ [stored v]) p)).
    { unfold handleRune. rewrite Hm, Hk. done. }
    rewrite Hh, IH by done. cbn. by rewrite <- !app_assoc.
Qed.

Lemma fold_handleRune_other vs : forall p,
  mode p = modeValue -> currentKeyName p <> go "reply" ->
  exists buf, fold_left handleRune vs p = setCurrentValue buf p.
Proof.
  induction vs as [|v vs IH]; intros p Hm Hk; cbn [fold_left].
  - exists (currentValue p). by destruct p.
  - assert (Hh : exists buf, handleRune p v = setCurrentValue buf p).
    { unfold handleRune. rewrite Hm. apply eqs_false in Hk. rewrite Hk.
      case_match; [eauto|]. exists (currentValue p). by destruct p. }
    destruct Hh as [buf ->].
    destruct (IH (setCurrentValue buf p)) as [buf' ->]; [done|done|].
    by exists buf'.
Qed.

(** Outside a string, a text without a quote changes nothing, but that a
    comma in it ends the expectation of a value. *)
Lemma run_quoteFree s : forall p,
  inString p = false -> unicodeLeft p = 0 -> quoteFree s ->
  run s p = if existsb (Z.eqb 44) s
            then setMode modeNone (setExpectValue false p) else p.
Proof.
  induction s as [|c s IH]; intros p Hs Hl Hq; [done|].
  assert (Hc : c <> 34) by (intros ->; apply Hq; by left).
  assert (Hq' : quoteFree s) by (intros H; apply Hq; by right).
  rewrite run_cons.
  assert (Hstep : step p c = if 44 =? c then setMode modeNone (setExpectValue false p) else p).
  { unfold step, feedRune. rewrite Hl, Hs. cbn -[Z.eqb].
    replace (c =? 34) with false by lia. rewrite (Z.eqb_sym 44 c).
    by destruct (c =? 44). }
  rewrite Hstep. cbn [existsb]. destruct (44 =? c); cbn [orb].
  - rewrite IH by done. by destruct (existsb _ s).
  - by apply IH.
Qed.

Lemma existsb_comma s : existsb (Z.eqb 44) s = true <-> In 44 s.
Proof.
  rewrite existsb_exists. split.
  - intros (x & Hx & Heq). by replace 44 with x by lia.
  - intros H. exists 44. by rewrite Z.eqb_refl.
Qed.

Lemma run_quoteFree_nocomma s p :
  inString p = false -> unicodeLeft p = 0 -> quoteFree s -> ~ In 44 s ->
  run s p = p.
Proof.
  intros Hs Hl Hq Hc. rewrite run_quoteFree by done.
  destruct (existsb _ s) eqn:E; [|done]. by apply existsb_comma in E.
Qed.

(** A key, from its opening to its closing quote. *)
Lemma run_key key p :
  idle p -> Forall scalarItem key ->
  run (quoted key) p =
  setMode modeNone (setExpectValue true (setCurrentKeyName (itemsValue key) p)).
Proof.
  intros (Hs & He & Hl & Hb & Hv & Hk) Hkey.
  unfold quoted. rewrite !run_app.
  assert (H1 : run [34] p = setMode modeKey (setInString true p)).
  { unfold run, step, feedRune; cbn. rewrite Hl, Hs. cbn. by rewrite Hv. }
  rewrite H1, run_items, fold_handleRune_key, itemsValue_stored; try done.
  destruct p as [rb rc ck cv ckn em ins ev md esc ul ub]. cbn in *. subst.
  unfold run, step, feedRune, closeString; cbn. done.
Qed.

Lemma step_open p :
  inString p = false -> unicodeLeft p = 0 ->
  step p 34 = setMode (if expectValue p then modeValue else modeKey) (setInString true p).
Proof.
  intros Hs Hl. destruct p as [rb rc ck cv ckn em ins ev md esc ul ub].
  cbn in Hs, Hl. subst. reflexivity.
Qed.

Lemma step_close_value p :
  inside p -> mode p = modeValue ->
  exists em, step p 34 =
    setMode modeNone (setExpectValue false (setCurrentValue []
      (setEmotion em (setInString false p)))).
Proof.
  intros (Hs & He & Hl & _) Hm.
  destruct p as [rb rc ck cv ckn em ins ev md esc ul ub].
  cbn in Hs, He, Hl, Hm. subst.
  unfold step, feedRune, closeString. cbn -[go eqs].
  destruct (eqs ckn (go "emotion") && eqs em []); cbn; eauto.
Qed.

(** A string value, from its opening to its closing quote, after a key. *)
Lemma run_value key value p :
  idle p -> Forall scalarItem value ->
  let p1 := setMode modeNone (setExpectValue true (setCurrentKeyName key p)) in
  idle (run (quoted value) p1) /\
  replyBuilder (run (quoted value) p1) =
    replyBuilder p ++ (if eqs key (go "reply") then itemsValue value else []).
Proof.
  intros (Hs & He & Hl & Hb & Hv & Hk) Hval p1.
  unfold quoted. rewrite !run_app.
  change (run [34] p1) with (step p1 34).
  rewrite step_open by done.
  change (expectValue p1) with true. cbv iota.
  set (p2 := setMode modeValue (setInString true p1)).
  assert (Hin2 : inside p2) by done.
  rewrite run_items by done.
  destruct (eqs key (go "reply")) eqn:Ekey.
  - apply eqs_true in Ekey.
    rewrite fold_handleRune_reply, itemsValue_stored by done.
    set (p3 := setReplyChunk _ _).
    change (run [34] p3) with (step p3 34).
    destruct (step_close_value p3) as [em ->]; [done|done|].
    split; [done|reflexivity].
  - apply eqs_false in Ekey.
    destruct (fold_handleRune_other (itemsValue value) p2) as [buf ->]; [done|done|].
    set (p3 := setCurrentValue buf p2).
    change (run [34] p3) with (step p3 34).
    destruct (step_close_value p3) as [em ->]; [done|done|].
    split; [done|]. by rewrite app_nil_r.
Qed.

(** Outside a string, a text without a quote keeps the parser idle. *)
Lemma run_between s p :
  idle p -> quoteFree s ->
  idle (run s p) /\ replyBuilder (run s p) = replyBuilder p.
Proof.
  intros (Hs & He & Hl & Hb & Hv & Hk) Hq.
  rewrite run_quoteFree by done. by destruct (existsb _ s).
Qed.

(** A member leaves the parser idle and adds its reply text. *)
Lemma run_member m p :
  idle p -> wellFormedMember m ->
  idle (run (renderMember m) p) /\
  replyBuilder (run (renderMember m) p) = replyBuilder p ++ memberReply m.
Proof.
  intros Hidle Hm.
  pose proof Hidle as (Hs & He & Hl & Hb & Hv & Hk).
  destruct m as [key colon value after | key rest]; cbn [renderMember memberReply].
  - destruct Hm as (Hkey & Hval & Hq1 & Hc1 & Hq2).
    rewrite !run_app, (run_key key p) by done.
    rewrite (run_quoteFree_nocomma colon); [|exact Hs|exact Hl|done|done].
    destruct (run_value (itemsValue key) value p Hidle Hval) as [Hidle' Hb'].
    destruct (run_between after _ Hidle' Hq2) as [Hidle'' Hb''].
    split; [done|]. by rewrite Hb'', Hb'.
  - destruct Hm as (Hkey & Hq & Hcomma).
    rewrite !run_app, (run_key key p) by done.
    rewrite (run_quoteFree rest); [|exact Hs|exact Hl|done].
    apply existsb_comma in Hcomma. rewrite Hcomma.
    split; [done|]. by rewrite app_nil_r.
Qed.

Lemma run_members ms : forall p,
  idle p -> Forall wellFormedMember ms ->
  idle (run (flat_map renderMember ms) p) /\
  replyBuilder (run (flat_map renderMember ms) p) =
    replyBuilder p ++ flat_map memberReply ms.
Proof.
  induction ms as [|m ms IH]; intros p Hp Hall; cbn [flat_map].
  - by rewrite app_nil_r.
  - inversion Hall as [|? ? Hm Hms]; subst.
    destruct (run_member m p Hp Hm) as [Hidle Hb].
    rewrite run_app. destruct (IH _ Hidle Hms) as [Hidle' Hb'].
    split; [done|]. by rewrite Hb', Hb, <- app_assoc.
Qed.

(** For a well-formed flat object whose strings spell no half of a
    surrogate pair, the reply the extractor builds is the decoded value of
    the string members whose key is [reply]. *)
Lemma flat_object_reply (o : flatObject) :
  wellFormedObject o ->
  replyBuilder (run (renderObject o) newJSONStreamParser) = replyText o.
Proof.
  intros (Hopen & Hms & Hlast & Hclose). unfold renderObject, replyText.
  rewrite !run_app.
  set (p0 := run (opening o) newJSONStreamParser).
  assert (H0 : idle p0 /\ replyBuilder p0 = []).
  { unfold p0. rewrite run_quoteFree by done. by destruct (existsb _ _). }
  destruct H0 as [Hidle0 Hb0].
  destruct (run_members (members o) p0 Hidle0 Hms) as [Hidle1 Hb1].
  set (p1 := run (flat_map renderMember (members o)) p0) in *.
  rewrite Hb0 in Hb1. cbn in Hb1. rewrite <- Hb1.
  assert (H2 : forall p2, inString p2 = false -> unicodeLeft p2 = 0 ->
            replyBuilder (run (closing o) p2) = replyBuilder p2).
  { intros p2 Hs Hl. rewrite run_quoteFree by done. by destruct (existsb _ _). }
  destruct (lastKey o) as [key|].
  - rewrite run_key by done. rewrite H2; [done| |];
      destruct Hidle1 as (? & ? & ? & _); done.
  - cbn. apply H2; destruct Hidle1 as (? & ? & ? & _); done.
Qed.

(** In any chunking, when no callback fails, [onReply] receives that
    value. *)
Lemma flat_object_delivered (cb : callbacks) (o : flatObject)
    (chunks : list gostring) p acts :
  wellFormedObject o ->
  concat chunks = renderObject o ->
  feedAll cb newJSONStreamParser chunks = (p, acts, None) ->
  delivered acts = toReply cb (replyText o).
Proof.
  intros Ho Hc H. apply feedAll_ok in H as [_ ->]; [|done].
  rewrite Hc, <- (flat_object_reply o Ho), run_builder. done.
Qed.

(** The value of such a string is its value in the sense of RFC 8259. *)
Lemma jsonStringValue_items items : forall fuel,
  Forall scalarItem items ->
  (length (renderItems items) <= fuel)%nat ->
  jsonStringValueFuel fuel (renderItems items) = Some (itemsValue items).
Proof.
  induction items as [|it items IH]; intros fuel Hall Hlen.
  - by destruct fuel.
  - inversion Hall as [|? ? Hit Hrest]; subst.
    unfold renderItems in *. cbn [flat_map itemsValue map] in *.
    rewrite length_app in Hlen.
    destruct it as [c|e|a b c d]; cbn [renderItem app length itemValue] in *.
    + destruct fuel as [|fuel]; [lia|]. cbn [jsonStringValueFuel].
      destruct Hit as (H34 & H92 & H32 & _).
      replace (c =? 92) with false by lia. replace (c =? 34) with false by lia.
      replace (c <? 32) with false by lia. cbn [orb].
      rewrite IH; [done|done|lia].
    + destruct fuel as [|fuel]; [lia|]. cbn [jsonStringValueFuel].
      destruct Hit as [v Hv]. rewrite Z.eqb_refl.
      assert (He : (e =? 117) = false).
      { revert Hv. unfold escapeValue. repeat case_match; (done || lia). }
      rewrite He, Hv. cbn. rewrite IH; [done|done|lia].
    + destruct fuel as [|fuel]; [lia|]. cbn [jsonStringValueFuel].
      destruct Hit as (u & Hu & Hh & Hl). rewrite !Z.eqb_refl, Hu, Hh, Hl. cbn.
      rewrite IH; [done|done|lia].
Qed.

Lemma jsonStringValue_render items :
  Forall scalarItem items ->
  jsonStringValue (renderItems items) = Some (itemsValue items).
Proof. intros H. by apply jsonStringValue_items. Qed.

(** * Further properties of package ai *)

(** ** The extractor on flat objects *)

(** X1. For a well-formed flat object whose strings spell no half of a
    surrogate pair, fed in any chunking with callbacks that do not fail,
    [onReply] receives, and [Reply] returns, the values of the string
    members whose key is [reply], where the value of a string is its value
    in the sense of RFC 8259. *)
Theorem flat_object_pass_through (cb : callbacks) (o : flatObject)
    (chunks : list gostring) (p : jsonStreamParser) (acts : list action) :
  wellFormedObject o ->
  concat chunks = renderObject o ->
  feedAll cb newJSONStreamParser chunks = (p, acts, None) ->
  delivered acts = toReply cb (replyText o) /\
  parserReply p = replyText o /\
  forall key colon value after,
    In (stringMember key colon value after) (members o) ->
    jsonStringValue (renderItems key) = Some (itemsValue key) /\
    jsonStringValue (renderItems value) = Some (itemsValue value).
Proof.
  intros Ho Hc H. split; [by eapply flat_object_delivered|]. split.
  - apply feedAll_ok in H as [-> _]; [|done].
    rewrite Hc. unfold parserReply. cbn. by apply flat_object_reply.
  - intros key colon value after Hin.
    destruct Ho as (_ & Hms & _). rewrite Forall_forall in Hms.
    apply list_elem_of_In in Hin.
    destruct (Hms _ Hin) as (Hkey & Hval & _).
    split; by apply jsonStringValue_render.
Qed.

(** X1 on [exampleObject], cut after its 30th character. *)
Lemma flat_object_pass_through_witness :
  let chunks := [firstn 30 (renderObject exampleObject);
                 skipn 30 (renderObject exampleObject)] in
  delivered (feedAll collect newJSONStreamParser chunks).1.2 = [99; 97; 102; 233; 10].
Proof.
  intros chunks.
  refine (proj1 (flat_object_pass_through collect exampleObject chunks _ _ _ _ _)).
  - split; [|split; [|split]].
    + intros H; vm_compute in H; intuition discriminate.
    + repeat constructor; try (intros H; vm_compute in H; intuition discriminate);
        try (eexists; repeat split; reflexivity); try lia.
    + done.
    + intros H; vm_compute in H; intuition discriminate.
  - vm_compute. reflexivity.
  - vm_compute. reflexivity.
Defined.

Lemma step_close_value_exact p :
  inside p -> mode p = modeValue ->
  step p 34 =
  let q := setInString false p in
  setMode modeNone (setExpectValue false (setCurrentValue []
    (if eqs (currentKeyName p) (go "emotion") && eqs (emotion p) []
     then setEmotion (currentValue p) q else q))).
Proof.
  intros (Hs & He & Hl & _) Hm.
  destruct p as [rb rc ck cv ckn em ins ev md esc ul ub].
  cbn in Hs, He, Hl, Hm. subst.
  unfold step, feedRune, closeString. cbn -[go eqs].
  by destruct (eqs ckn (go "emotion") && eqs em []).
Qed.

Lemma fold_handleRune_emotion vs : forall p,
  mode p = modeValue -> currentKeyName p = go "emotion" -> emotion p = [] ->
  fold_left handleRune vs p = setCurrentValue (currentValue p ++ map stored vs) p.
Proof.
  induction vs as [|v vs IH]; intros p Hm Hk He; cbn [fold_left map].
  - rewrite app_nil_r. by destruct p.
  - assert (Hh : handleRune p v = setCurrentValue (currentValue p ++ [stored v]) p).
    { unfold handleRune. rewrite Hm, Hk, He. done. }
    rewrite Hh, IH by done. cbn. by rewrite <- app_assoc.
Qed.

Lemma fold_handleRune_ignored vs : forall p,
  mode p = modeValue -> currentKeyName p <> go "reply" ->
  currentKeyName p <> go "emotion" \/ emotion p <> [] ->
  fold_left handleRune vs p = p.
Proof.
  induction vs as [|v vs IH]; intros p Hm Hk He; cbn [fold_left]; [done|].
  assert (Hh : handleRune p v = p).
  { unfold handleRune. rewrite Hm. apply eqs_false in Hk. rewrite Hk.
    destruct He as [He|He]; apply eqs_false in He; rewrite He;
      by rewrite ?andb_false_r. }
  rewrite Hh. by apply IH.
Qed.

Lemma run_value_emotion key value p :
  idle p -> currentValue p = [] -> Forall scalarItem value ->
  let q := run (quoted value)
             (setMode modeNone (setExpectValue true (setCurrentKeyName key p))) in
  currentValue q = [] /\
  emotion q = if eqs key (go "emotion") && eqs (emotion p) []
              then itemsValue value else emotion p.
Proof.
  intros (Hs & He & Hl & Hb & Hv & Hk) Hcv Hval q. subst q.
  set (p1 := setMode modeNone (setExpectValue true (setCurrentKeyName key p))).
  unfold quoted. rewrite !run_app.
  change (run [34] p1) with (step p1 34).
  rewrite step_open by done.
  change (expectValue p1) with true. cbv iota.
  set (p2 := setMode modeValue (setInString true p1)).
  assert (Hin2 : inside p2) by done.
  rewrite run_items by done.
  destruct (eqs key (go "reply")) eqn:Ereply.
  - apply eqs_true in Ereply.
    rewrite fold_handleRune_reply by done.
    set (p3 := setReplyChunk _ _).
    change (run [34] p3) with (step p3 34).
    rewrite step_close_value_exact by done.
    change (currentKeyName p3) with key. rewrite Ereply.
    replace (eqs (go "reply") (go "emotion")) with false by done.
    done.
  - apply eqs_false in Ereply.
    destruct (eqs key (go "emotion") && eqs (emotion p) []) eqn:Eem.
    + apply andb_true_iff in Eem as [Ek Ee].
      apply eqs_true in Ek, Ee.
      rewrite fold_handleRune_emotion, itemsValue_stored by done.
      set (p3 := setCurrentValue _ _).
      change (run [34] p3) with (step p3 34).
      rewrite step_close_value_exact by done.
      change (currentKeyName p3) with key. change (emotion p3) with (emotion p).
      rewrite Ek, Ee.
      replace (eqs (go "emotion") (go "emotion") && eqs [] []) with true by done.
      cbn. by rewrite Hcv.
    + rewrite fold_handleRune_ignored; [|done|done|].
      2:{ apply andb_false_iff in Eem as [E|E]; apply eqs_false in E; auto. }
      change (run [34] p2) with (step p2 34).
      rewrite step_close_value_exact by done.
      change (currentKeyName p2) with key. change (emotion p2) with (emotion p).
      rewrite Eem. done.
Qed.

Lemma run_member_emotion m p :
  idle p -> currentValue p = [] -> wellFormedMember m ->
  currentValue (run (renderMember m) p) = [] /\
  emotion (run (renderMember m) p) =
    if eqs (emotion p) [] then memberEmotion m else emotion p.
Proof.
  intros Hidle Hcv Hm.
  pose proof Hidle as (Hs & He & Hl & Hb & Hv & Hk).
  destruct m as [key colon value after | key rest]; cbn [renderMember memberEmotion].
  - destruct Hm as (Hkey & Hval & Hq1 & Hc1 & Hq2).
    rewrite !run_app, (run_key key p) by done.
    rewrite (run_quoteFree_nocomma colon); [|exact Hs|exact Hl|done|done].
    destruct (run_value (itemsValue key) value p Hidle Hval) as [Hidle' _].
    destruct (run_value_emotion (itemsValue key) value p Hidle Hcv Hval) as [Hcv' Hem'].
    pose proof Hidle' as (Hs' & _ & Hl' & _).
    rewrite (run_quoteFree after); [|exact Hs'|exact Hl'|done].
    assert (Hgoal : forall q', currentValue q' = [] ->
      emotion q' = (if eqs (itemsValue key) (go "emotion") && eqs (emotion p) []
                    then itemsValue value else emotion p) ->
      currentValue (if existsb (Z.eqb 44) after
                    then setMode modeNone (setExpectValue false q') else q') = [] /\
      emotion (if existsb (Z.eqb 44) after
               then setMode modeNone (setExpectValue false q') else q') =
        if eqs (emotion p) []
        then (if eqs (itemsValue key) (go "emotion") then itemsValue value else [])
        else emotion p).
    { intros q' Hq1' Hq2'.
      destruct (existsb _ after); cbn; rewrite Hq2';
        (split; [done|]);
        destruct (eqs (emotion p) []) eqn:Ee, (eqs (itemsValue key) _); cbn; try done;
        by apply eqs_true in Ee. }
    by apply Hgoal.
  - destruct Hm as (Hkey & Hq & Hcomma).
    rewrite !run_app, (run_key key p) by done.
    rewrite (run_quoteFree rest); [|exact Hs|exact Hl|done].
    apply existsb_comma in Hcomma. rewrite Hcomma. cbn.
    split; [done|]. destruct (eqs (emotion p) []) eqn:Ee; [|done].
    by apply eqs_true in Ee.
Qed.

Lemma run_members_emotion ms : forall p,
  idle p -> currentValue p = [] -> Forall wellFormedMember ms ->
  currentValue (run (flat_map renderMember ms) p) = [] /\
  emotion (run (flat_map renderMember ms) p) =
    firstNonEmpty (emotion p :: map memberEmotion ms).
Proof.
  induction ms as [|m ms IH]; intros p Hp Hcv Hall; cbn [flat_map map].
  - split; [done|]. cbn. destruct (eqs (emotion p) []) eqn:Ee; [|done].
    by apply eqs_true in Ee.
  - inversion Hall as [|? ? Hm Hms]; subst.
    destruct (run_member m p Hp Hm) as [Hidle _].
    destruct (run_member_emotion m p Hp Hcv Hm) as [Hcv' Hem].
    rewrite run_app. destruct (IH _ Hidle Hcv' Hms) as [Hcv'' Hem''].
    split; [done|]. rewrite Hem'', Hem. cbn [firstNonEmpty].
    destruct (eqs (emotion p) []) eqn:Ee; [done|]. cbn [firstNonEmpty].
    by rewrite Ee.
Qed.

(** X2. For a well-formed flat object whose strings spell no half of a
    surrogate pair, fed in any chunking with callbacks that do not fail,
    the emotion the extractor captures is the value of the first string
    member with the key [emotion] whose value is not empty, and the empty
    string when there is none. *)
Theorem flat_object_captured_emotion (cb : callbacks) (o : flatObject)
    (chunks : list gostring) (p : jsonStreamParser) (acts : list action) :
  wellFormedObject o ->
  concat chunks = renderObject o ->
  feedAll cb newJSONStreamParser chunks = (p, acts, None) ->
  parserEmotion p = emotionText o.
Proof.
  intros (Hopen & Hms & Hlast & Hclose) Hc H.
  apply feedAll_ok in H as [-> _]; [|done].
  rewrite Hc. unfold parserEmotion, emotionText, renderObject. cbn [emotion setReplyChunk].
  rewrite !run_app.
  set (p0 := run (opening o) newJSONStreamParser).
  assert (H0 : idle p0 /\ currentValue p0 = [] /\ emotion p0 = []).
  { unfold p0. rewrite run_quoteFree by done. by destruct (existsb _ _). }
  destruct H0 as (Hidle0 & Hcv0 & Hem0).
  destruct (run_members (members o) p0 Hidle0 Hms) as [Hidle1 _].
  destruct (run_members_emotion (members o) p0 Hidle0 Hcv0 Hms) as [Hcv1 Hem1].
  set (p1 := run (flat_map renderMember (members o)) p0) in *.
  rewrite Hem0 in Hem1. cbn [firstNonEmpty] in Hem1.
  replace (eqs [] []) with true in Hem1 by done.
  rewrite <- Hem1.
  assert (H2 : forall p2, inString p2 = false -> unicodeLeft p2 = 0 ->
            emotion (run (closing o) p2) = emotion p2).
  { intros p2 Hs Hl. rewrite run_quoteFree by done. by destruct (existsb _ _). }
  destruct (lastKey o) as [key|].
  - rewrite run_key by done. rewrite H2; [done| |];
      destruct Hidle1 as (? & ? & ? & _); done.
  - cbn. apply H2; destruct Hidle1 as (? & ? & ? & _); done.
Qed.

(** X2 on [exampleObject], cut after its 11th character. *)
Lemma flat_object_captured_emotion_witness :
  let chunks := [firstn 11 (renderObject exampleObject);
                 skipn 11 (renderObject exampleObject)] in
  parserEmotion (feedAll collect newJSONStreamParser chunks).1.1 = go "happy".
Proof.
  intros chunks.
  refine (flat_object_captured_emotion collect exampleObject chunks _ _ _ _ _).
  - split; [|split; [|split]].
    + intros H; vm_compute in H; intuition discriminate.
    + repeat constructor; try (intros H; vm_compute in H; intuition discriminate);
        try (eexists; repeat split; reflexivity); try lia.
    + done.
    + intros H; vm_compute in H; intuition discriminate.
  - vm_compute. reflexivity.
  - vm_compute. reflexivity.
Defined.

(** ** The callback invocations of the extractor *)

(** X3. In a run from a fresh parser, whatever the chunks and the
    callbacks, [onEmotion] receives a non-empty emotion at most once, in
    its last call, and that emotion is the one the parser keeps; the calls
    before it carry the empty string. *)
Theorem emotion_delivered_at_most_once (cb : callbacks) (chunks : list gostring) :
  let run := feedAll cb newJSONStreamParser chunks in
  exists k,
    emotionCalls run.1.2 = replicate k [] \/
    (emotionCalls run.1.2 = replicate k [] ++ [parserEmotion run.1.1] /\
     parserEmotion run.1.1 <> []).
Proof.
  intros run. destruct run as [[p acts] err] eqn:E. cbn.
  apply fresh_capturedOnce in E as (k & last & -> & [->|[-> Hne]]).
  - exists k. left. by rewrite app_nil_r.
  - exists k. by right.
Qed.

Lemma closeString_calls cb p :
  (closeString cb p).1.2 = [] \/
  exists f, onEmotion cb = Some f /\
    (closeString cb p).1.2 = [CallEmotion (emotion (closeString cb p).1.1)] /\
    (closeString cb p).2 = f (emotion (closeString cb p).1.1).
Proof.
  unfold closeString, continue.
  destruct (mode (setInString false p)); cbn -[eqs go]; auto.
  destruct (andb _ _); cbn -[eqs go]; auto.
  destruct (onEmotion cb) as [f|] eqn:Ef.
  - right. exists f. split; [done|].
    destruct (f (currentValue p)) eqn:Efs; cbn; by rewrite ?Efs.
  - by left.
Qed.

Lemma feedRune_calls cb p r :
  (feedRune cb p r).1.2 = [] /\ (feedRune cb p r).2 = None \/
  exists f s, onEmotion cb = Some f /\
    (feedRune cb p r).1.2 = [CallEmotion s] /\ (feedRune cb p r).2 = f s.
Proof.
  unfold feedRune, continue.
  repeat case_match; cbn; auto.
  destruct (closeString_calls cb p) as [Hc|(f & Hf & Ha & He)].
  - left. split; [done|]. revert Hc. unfold closeString, continue.
    cbn -[eqs go]. repeat case_match; cbn; done.
  - right. eauto.
Qed.

Lemma feedRunes_calls cb text : forall p,
  exists ems, (feedRunes cb p text).1.2 = map CallEmotion ems /\
    ((feedRunes cb p text).2 = None \/
     exists f before s, onEmotion cb = Some f /\ ems = before ++ [s] /\
       (feedRunes cb p text).2 = f s /\ is_Some (f s)).
Proof.
  induction text as [|r text IH]; intros p; cbn [feedRunes].
  - exists []. auto.
  - destruct (feedRune_calls cb p r) as [[Ha He]|(f & s & Hf & Ha & He)];
      destruct (feedRune cb p r) as [[p1 a1] e1]; cbn in Ha, He; subst.
    + destruct (IH p1) as (ems & Hems & Herr).
      destruct (feedRunes cb p1 text) as [[p2 a2] e2]; cbn in *. eauto.
    + destruct (f s) as [err|] eqn:Efs.
      * exists [s]. split; [done|]. right. exists f, [], s. rewrite Efs. eauto.
      * destruct (IH p1) as (ems & Hems & Herr).
        destruct (feedRunes cb p1 text) as [[p2 a2] e2]; cbn in *. subst.
        exists (s :: ems). split; [done|].
        destruct Herr as [->|(f' & before & s' & Hf' & -> & He & Hs)]; [auto|].
        right. exists f', (s :: before), s'. eauto.
Qed.

(** X4. One [Feed] invokes [onReply] at most once, after every [onEmotion]
    call it makes, and never with an empty string. *)
Theorem Feed_calls_onReply_last (cb : callbacks) (p : jsonStreamParser)
    (text : gostring) :
  exists ems,
    (Feed cb p text).1.2 = map CallEmotion ems \/
    exists chunk, chunk <> [] /\
      (Feed cb p text).1.2 = map CallEmotion ems ++ [CallReply chunk].
Proof.
  unfold Feed.
  destruct (feedRunes_calls cb text p) as (ems & Hems & _).
  destruct (feedRunes cb p text) as [[p1 a1] [e1|]]; cbn in Hems; subst.
  - exists ems. by left.
  - exists ems. unfold flushChunk, continue.
    destruct (replyChunk p1) as [|x chunk] eqn:Ec; cbn.
    + left. by rewrite app_nil_r.
    + destruct (onReply cb) as [f|]; [|left; cbn; by rewrite app_nil_r].
      right. exists (x :: chunk). split; [done|]. by destruct (f _).
Qed.

(** X5. [Feed] has no error of its own: the error it returns is the one
    its last callback invocation returned, and it invokes nothing after
    it. *)
Theorem Feed_error_is_callback_error (cb : callbacks) (p p' : jsonStreamParser)
    (text : gostring) (acts : list action) (err : error) :
  Feed cb p text = (p', acts, Some err) ->
  exists before s,
    (acts = before ++ [CallReply s] /\
     exists f, onReply cb = Some f /\ f s = Some err) \/
    (acts = before ++ [CallEmotion s] /\
     exists f, onEmotion cb = Some f /\ f s = Some err).
Proof.
  unfold Feed.
  destruct (feedRunes_calls cb text p) as (ems & Hems & Herr).
  destruct (feedRunes cb p text) as [[p1 a1] [e1|]]; cbn in Hems, Herr; subst.
  - intros [= <- <- <-].
    destruct Herr as [|(f & before & s & Hf & -> & He & _)]; [done|].
    exists (map CallEmotion before), s. right.
    rewrite map_app. split; [done|]. eauto.
  - unfold flushChunk, continue.
    destruct (replyChunk p1) as [|x chunk]; [done|].
    destruct (onReply cb) as [f|] eqn:Ef; [|done].
    destruct (f (x :: chunk)) eqn:Efx; [|done].
    intros [= <- <- <-]. exists (map CallEmotion ems), (x :: chunk). left. eauto.
Qed.

(** X5 on a delta that [onReply] rejects. *)
Lemma Feed_error_is_callback_error_witness :
  exists before s,
    ([CallReply (go "x")] = before ++ [CallReply s] /\
     exists f, onReply rejecting = Some f /\
               f s = Some (otherError "write: broken pipe")) \/
    ([CallReply (go "x")] = before ++ [CallEmotion s] /\
     exists f, onEmotion rejecting = Some f /\
               f s = Some (otherError "write: broken pipe")).
Proof.
  refine (Feed_error_is_callback_error rejecting newJSONStreamParser _
            (js "{'reply':'x'}") _ _ _).
  vm_compute. reflexivity.
Defined.

(** ** [decodeUnicode] *)

Lemma ParseUint16_ascii s : forall n u,
  ParseUint16 s n = Some u -> Forall (fun c => 48 <= c <= 102) s.
Proof.
  induction s as [|c s IH]; intros n u; cbn; [done|].
  destruct (hexDigit c) as [d|] eqn:Ed; [|done].
  intros H. constructor; [apply hexDigit_range in Ed; tauto|by eapply IH].
Qed.

Lemma len_ascii s : Forall (fun c => c < 128) s -> len s = Z.of_nat (length s).
Proof.
  induction 1 as [|c s Hc _ IH]; [done|].
  cbn [len fold_right length]. fold (len s). rewrite IH.
  unfold RuneLen. replace (c <? 128) with true by lia. lia.
Qed.

Lemma ParseUint16_three b c d x :
  ParseUint16 [b; c; d] 0 = Some x <-> hex4 48 b c d = Some x.
Proof.
  unfold hex4. cbn.
  destruct (hexDigit b), (hexDigit c), (hexDigit d); cbn; done.
Qed.

(** X6. [decodeUnicode] accepts exactly the strings of four characters
    that are four hexadecimal digits, or a sign followed by three: the
    value is then the number the digits spell, negated after [-]. *)
Theorem decodeUnicode_accepts (hexStr : gostring) (u : rune) :
  decodeUnicode hexStr = Some u <->
  exists a b c d,
    hexStr = [a; b; c; d] /\
    (hex4 a b c d = Some u \/
     exists x, hex4 48 b c d = Some x /\
               ((a = 43 /\ u = x) \/ (a = 45 /\ u = - x))).
Proof.
  split.
  - unfold decodeUnicode. destruct (len hexStr =? 4) eqn:El; [|done]. cbn [negb].
    apply Z.eqb_eq in El. unfold ParseInt_16_32.
    destruct hexStr as [|a s]; [done|].
    destruct ((a =? 43) || (a =? 45)) eqn:Esign.
    + destruct s as [|b s]; [done|].
      destruct (ParseUint16 (b :: s) 0) as [un|] eqn:Ep; [|done].
      pose proof (ParseUint16_ascii _ _ _ Ep) as Hascii.
      assert (Hlen : len (a :: b :: s) = Z.of_nat (length (a :: b :: s))).
      { apply len_ascii. constructor; [lia|].
        eapply Forall_impl; [exact Hascii|]. cbn. lia. }
      rewrite El in Hlen. cbn [length] in Hlen.
      destruct s as [|c [|d [|e s]]]; cbn [length] in Hlen; try lia.
      apply (proj1 (ParseUint16_three b c d un)) in Ep. pose proof Ep as Hx.
      apply ParseUint16_hex4 in Hx as [_ Hx].
      replace (2 ^ 31 <=? un) with false by lia.
      replace (2 ^ 31 <? un) with false by lia.
      rewrite !andb_false_r. intros [= <-].
      exists a, b, c, d. split; [done|]. right. exists un. split; [done|].
      destruct (a =? 45) eqn:E45; [right; lia | left; lia].
    + destruct (ParseUint16 (a :: s) 0) as [un|] eqn:Ep; [|done].
      pose proof (ParseUint16_ascii _ _ _ Ep) as Hascii.
      assert (Hlen : len (a :: s) = Z.of_nat (length (a :: s))).
      { apply len_ascii. eapply Forall_impl; [exact Hascii|]. cbn. lia. }
      rewrite El in Hlen. cbn [length] in Hlen.
      destruct s as [|b [|c [|d [|e s]]]]; cbn [length] in Hlen; try lia.
      assert (Hh : hex4 a b c d = Some un).
      { revert Ep. unfold hex4. cbn.
        destruct (hexDigit a), (hexDigit b), (hexDigit c), (hexDigit d); cbn; try done. }
      pose proof Hh as Hx. apply ParseUint16_hex4 in Hx as [_ Hx].
      replace (a =? 45) with false by lia.
      replace (2 ^ 31 <=? un) with false by lia. cbn.
      intros [= <-]. exists a, b, c, d. auto.
  - intros (a & b & c & d & -> & [Hh | (x & Hx & Hsign)]).
    + pose proof Hh as Hs. unfold hex4 in Hs.
      destruct (hexDigit a) eqn:Ea; [|done]. destruct (hexDigit b) eqn:Eb; [|done].
      destruct (hexDigit c) eqn:Ec; [|done]. destruct (hexDigit d) eqn:Ed; [|done].
      apply hexDigit_range in Ea as [Ha _], Eb as [Hb _], Ec as [Hc _], Ed as [Hd _].
      rewrite <- (decodeUnicode_hex4 a b c d u Hh).
      by rewrite !stored_ascii by lia.
    + pose proof Hx as Hs. unfold hex4 in Hs. cbn in Hs.
      destruct (hexDigit b) eqn:Eb; [|done].
      destruct (hexDigit c) eqn:Ec; [|done]. destruct (hexDigit d) eqn:Ed; [|done].
      apply hexDigit_range in Eb as [Hb _], Ec as [Hc _], Ed as [Hd _].
      pose proof Hx as Hr. apply ParseUint16_hex4 in Hr as [_ Hr].
      apply (proj2 (ParseUint16_three b c d x)) in Hx.
      unfold decodeUnicode.
      assert (Hlen : len [a; b; c; d] = 4).
      { rewrite len_ascii; [done|]. repeat constructor; lia. }
      rewrite Hlen. cbn [Z.eqb Pos.eqb negb]. unfold ParseInt_16_32.
      replace ((a =? 43) || (a =? 45)) with true by lia. rewrite Hx.
      replace (2 ^ 31 <=? x) with false by lia.
      replace (2 ^ 31 <? x) with false by lia. rewrite !andb_false_r.
      destruct Hsign as [[-> ->]|[-> ->]]; done.
Qed.

(** ** Error classification and the fallback chain *)

Lemma HasPrefix_app s : forall a b,
  HasPrefix s (a ++ b) = true -> HasPrefix s a = true.
Proof.
  induction s as [|x s IH]; intros [|y a] b; cbn; try done.
  intros [-> H]%andb_true_iff. by rewrite (IH a b H).
Qed.

Lemma Contains_app s a b : Contains s (a ++ b) = true -> Contains s a = true.
Proof.
  induction s as [|x s IH]; cbn [Contains].
  - rewrite !orb_false_r. apply HasPrefix_app.
  - intros [H|H]%orb_true_iff; apply orb_true_iff;
      [left; by eapply HasPrefix_app | right; by apply IH].
Qed.

Section ClassifierFacts.
Variable lowerTable : rune -> rune.

(** X7. [shouldRetryWithoutTemperature] holds exactly of status 400 with
    a body that contains, whatever the case of its letters, [temperature]
    and [unsupported]: the test for [unsupported_value] adds nothing. *)
Theorem temperature_marker_spec (status : Z) (body : gostring) :
  shouldRetryWithoutTemperature lowerTable status body =
  (status =? 400)
  && Contains (ToLower lowerTable body) (go "temperature")
  && Contains (ToLower lowerTable body) (go "unsupported").
Proof.
  unfold shouldRetryWithoutTemperature.
  destruct (status =? 400); cbn [negb andb]; [|done].
  destruct (Contains _ (go "temperature")); cbn [andb]; [|done].
  destruct (Contains _ (go "unsupported")) eqn:E; [done|]. cbn [orb].
  destruct (Contains _ (go "unsupported_value")) eqn:E2; [|done].
  change (go "unsupported_value") with (go "unsupported" ++ go "_value") in E2.
  apply Contains_app in E2. congruence.
Qed.

Lemma shouldRetryWithoutTemperature_400 status body :
  shouldRetryWithoutTemperature lowerTable status body = true -> status = 400.
Proof. unfold shouldRetryWithoutTemperature. destruct (status =? 400) eqn:E; [lia|done]. Qed.

Lemma shouldFallbackToJSONMode_400 status body :
  shouldFallbackToJSONMode lowerTable status body = true -> status = 400.
Proof. unfold shouldFallbackToJSONMode. destruct (status =? 400) eqn:E; [lia|done]. Qed.
End ClassifierFacts.

Section NegotiatorTrace.
Variable lowerTable : rune -> rune.
Context {World R : Type}.
Variable attempt : chatRequest -> World -> (error + R) * World.

(** X8. The requests of a logical call are sent one after the other; the
    result of the call is the answer to the last of them, and every
    answer before it was an API error of status 400 whose body carries the
    temperature marker or a structured-output marker. *)
Theorem negotiate_answers (req : chatRequest) (w : World) :
  let n := negotiate lowerTable attempt req w in
  exists failures,
    replay attempt (attempts n) w = (failures ++ [result n], world n) /\
    Forall (escalated lowerTable) failures.
Proof.
  cbv zeta. unfold negotiate, firstAttempt.
  destruct (attempt req w) as [[e|r] w1] eqn:E0; cbn [result];
    [|exists []; cbn; rewrite E0; done].
  unfold retryTemperature; cbn [result].
  assert (Hstop : exists failures,
    replay attempt [req] w = (failures ++ [inl e], w1) /\
    Forall (escalated lowerTable (R:=R)) failures).
  { exists []. cbn. by rewrite E0. }
  destruct e as [st body|msg].
  2:{ unfold retryJSONMode, retryTemperatureAgain; cbn. done. }
  destruct (shouldRetryWithoutTemperature lowerTable st body) eqn:Et.
  - pose proof (shouldRetryWithoutTemperature_400 _ _ _ Et) as ->.
    assert (He : escalated lowerTable (R:=R) (inl (apiError 400 body)))
      by (exists body; auto).
    unfold retry; cbn [result reqBody world attempts].
    destruct (attempt (withoutTemperature req) w1) as [[e1|r1] w2] eqn:E1;
      cbn [result reqBody world attempts app].
    2:{ unfold retryJSONMode, retryTemperatureAgain; cbn.
        exists [inl (apiError 400 body)]. rewrite E0, E1. cbn. auto. }
    unfold retryJSONMode; cbn [result reqBody world attempts].
    destruct e1 as [st1 body1|msg1].
    2:{ unfold retryTemperatureAgain; cbn.
        exists [inl (apiError 400 body)]. rewrite E0, E1. cbn. auto. }
    destruct (shouldFallbackToJSONMode lowerTable st1 body1) eqn:Ej.
    + pose proof (shouldFallbackToJSONMode_400 _ _ _ Ej) as ->.
      assert (He1 : escalated lowerTable (R:=R) (inl (apiError 400 body1)))
        by (exists body1; auto).
      unfold retry; cbn [result reqBody world attempts].
      destruct (attempt (jsonObjectMode (withoutTemperature req)) w2)
        as [r2 w3] eqn:E2; cbn [result reqBody world attempts app].
      assert (Hsame : retryTemperatureAgain lowerTable attempt
                (mkNegotiation (jsonObjectMode (withoutTemperature req)) r2 w3
                   [req; withoutTemperature req;
                    jsonObjectMode (withoutTemperature req)]) =
              mkNegotiation (jsonObjectMode (withoutTemperature req)) r2 w3
                   [req; withoutTemperature req;
                    jsonObjectMode (withoutTemperature req)]).
      { unfold retryTemperatureAgain; cbn.
        destruct r2 as [[st2 body2|msg2]|r2]; [|done|done].
        by rewrite andb_false_r. }
      rewrite Hsame. cbn [result reqBody world attempts].
      exists [inl (apiError 400 body); inl (apiError 400 body1)].
      cbn. rewrite E0, E1, E2. cbn. auto.
    + unfold retryTemperatureAgain; cbn. rewrite andb_false_r.
      exists [inl (apiError 400 body)]. cbn. rewrite E0, E1. cbn. auto.
  - unfold retryJSONMode; cbn [result reqBody world attempts].
    destruct (shouldFallbackToJSONMode lowerTable st body) eqn:Ej.
    + pose proof (shouldFallbackToJSONMode_400 _ _ _ Ej) as ->.
      assert (He : escalated lowerTable (R:=R) (inl (apiError 400 body)))
        by (exists body; auto).
      unfold retry; cbn [result reqBody world attempts].
      destruct (attempt (jsonObjectMode req) w1) as [[e1|r1] w2] eqn:E1;
        cbn [result reqBody world attempts app].
      2:{ unfold retryTemperatureAgain; cbn.
          exists [inl (apiError 400 body)]. rewrite E0, E1. cbn. auto. }
      unfold retryTemperatureAgain; cbn [result reqBody world attempts].
      destruct e1 as [st1 body1|msg1].
      2:{ exists [inl (apiError 400 body)]. cbn. rewrite E0, E1. cbn. auto. }
      destruct (shouldRetryWithoutTemperature lowerTable st1 body1 && _) eqn:Et1.
      * apply andb_true_iff in Et1 as [Et1 _].
        pose proof (shouldRetryWithoutTemperature_400 _ _ _ Et1) as ->.
        assert (He1 : escalated lowerTable (R:=R) (inl (apiError 400 body1)))
          by (exists body1; auto).
        unfold retry; cbn [result reqBody world attempts].
        destruct (attempt (withoutTemperature (jsonObjectMode req)) w2)
          as [r2 w3] eqn:E2; cbn [result reqBody world attempts app].
        exists [inl (apiError 400 body); inl (apiError 400 body1)].
        cbn. rewrite E0, E1, E2. cbn. auto.
      * exists [inl (apiError 400 body)]. cbn. rewrite E0, E1. cbn. auto.
    + unfold retryTemperatureAgain; cbn. rewrite Et. cbn. done.
Qed.

(** X9. An answer that is not an API error of status 400 with a marker
    in its body ends the call: a success, a transport error and any other
    API error are returned after the one attempt. *)
Theorem negotiate_no_retry (req : chatRequest) (w w' : World) (r : error + R) :
  attempt req w = (r, w') ->
  ~ escalated lowerTable r ->
  negotiate lowerTable attempt req w = mkNegotiation req r w' [req].
Proof.
  intros E0 Hne. unfold negotiate, firstAttempt. rewrite E0. cbn [result].
  destruct r as [[st body|msg]|r]; [|done|done].
  assert (Ht : shouldRetryWithoutTemperature lowerTable st body = false).
  { destruct (shouldRetryWithoutTemperature lowerTable st body) eqn:E; [|done].
    destruct Hne. pose proof (shouldRetryWithoutTemperature_400 _ _ _ E) as ->.
    exists body. auto. }
  assert (Hj : shouldFallbackToJSONMode lowerTable st body = false).
  { destruct (shouldFallbackToJSONMode lowerTable st body) eqn:E; [|done].
    destruct Hne. pose proof (shouldFallbackToJSONMode_400 _ _ _ E) as ->.
    exists body. auto. }
  unfold retryTemperature, retryJSONMode, retryTemperatureAgain; cbn.
  rewrite Ht; cbn. rewrite Hj; cbn. by rewrite Ht.
Qed.
End NegotiatorTrace.

(** A rate-limit answer is returned at once. *)
Lemma negotiate_no_retry_witness :
  negotiate latin1Lower
    (fun (req : chatRequest) (w : unit) =>
       (inl (apiError 429 (go "Rate limit reached")) : error + unit, w))
    exampleRequest tt
  = mkNegotiation exampleRequest (inl (apiError 429 (go "Rate limit reached"))) tt
      [exampleRequest].
Proof.
  refine (negotiate_no_retry latin1Lower _ exampleRequest tt tt _ _ _).
  - reflexivity.
  - intros (body & [= <-] & _).
Defined.

(** ** More facts about the string functions *)

Lemma TrimLeft_suffix s : exists pre, s = pre ++ TrimLeft s.
Proof.
  induction s as [|r s [pre IH]]; [by exists []|]. cbn.
  destruct (IsSpace r); [|by exists []]. exists (r :: pre). cbn. by rewrite <- IH.
Qed.

Lemma TrimRight_prefix s : exists post, s = TrimRight s ++ post.
Proof.
  induction s as [|r s [post IH]]; [by exists []|]. cbn.
  destruct (TrimRight s) as [|x t] eqn:E.
  - destruct (IsSpace r); [exists (r :: s) | exists s]; done.
  - exists post. cbn. by rewrite IH at 1.
Qed.

Lemma TrimSpace_In r s : In r (TrimSpace s) -> In r s.
Proof.
  unfold TrimSpace. intros H.
  destruct (TrimLeft_suffix s) as [pre Hs].
  destruct (TrimRight_prefix (TrimLeft s)) as [post Ht].
  rewrite Hs, Ht, !in_app_iff. auto.
Qed.

Lemma TrimRight_snoc s r : IsSpace r = false -> TrimRight (s ++ [r]) = s ++ [r].
Proof.
  intros Hr. induction s as [|a s IH]; cbn; [by rewrite Hr|].
  rewrite IH. by destruct s.
Qed.

Lemma TrimSpace_head s :
  match TrimSpace s with [] => True | r :: _ => IsSpace r = false end.
Proof.
  unfold TrimSpace. pose proof (TrimLeft_nonspace s) as H.
  destruct (TrimLeft s) as [|r t]; [done|].
  destruct (TrimRight_cons r t H) as [u ->]. done.
Qed.

(** A text that starts and ends with a character that is not white space
    is its own trimming. *)
Lemma TrimSpace_fixed a s z :
  IsSpace a = false -> IsSpace z = false ->
  TrimSpace (a :: s ++ [z]) = a :: s ++ [z].
Proof.
  intros Ha Hz. unfold TrimSpace. rewrite TrimLeft_id by done.
  apply (TrimRight_snoc (a :: s) z Hz).
Qed.

(** ** The outcomes of the orchestrators *)

Section OrchestratorOutcomes.
Variable lowerTable : rune -> rune.
Context {World Body : Type}.
Variable send : chatRequest -> World -> (string + (Z * Body)) * World.
Variable ReadAll : Body -> gostring.
Variable Decode : Body -> string + chatResponse.
Variable ReadLines : Body -> list gostring * option error.
Variable UnmarshalChunk : gostring -> option (list delta).
Variable UnmarshalAI : gostring -> option aiJSON.t.
Variable ReadFile : gostring -> option gostring.

(** X10. With an empty API key both orchestrators fail with [missing
    OPENAI_API_KEY]: nothing is sent, no callback is invoked and the world
    is left as it was. *)
Theorem missing_api_key_sends_nothing (c : Client) (history : list db.ChatMessage)
    (cb : callbacks) (w : World) :
  apiKey c = [] ->
  GenerateReply lowerTable send ReadAll Decode UnmarshalAI ReadFile c history w
    = (inl (otherError "missing OPENAI_API_KEY"), w) /\
  StreamReply lowerTable send ReadAll ReadLines UnmarshalChunk UnmarshalAI
    ReadFile c history cb w
    = (inl (otherError "missing OPENAI_API_KEY"), [], w).
Proof.
  intros Hkey. apply eqs_true in Hkey. split.
  - unfold GenerateReply, negotiate, firstAttempt, doChatRequest.
    rewrite Hkey. reflexivity.
  - unfold StreamReply, doChatStreamRequestWithFallback, negotiate, firstAttempt,
      doChatStreamRequest.
    rewrite Hkey. reflexivity.
Qed.

Lemma streamResult_text (c : Client) (cb : callbacks) (st : streamState)
    (reply : Reply) (acts : list action) :
  streamResult lowerTable UnmarshalAI c cb st = (inr reply, acts) ->
  Text reply <> [] /\ TrimSpace (Text reply) = Text reply.
Proof.
  unfold streamResult.
  set (captured := TrimSpace (parserReply (parser st))).
  set (rawContent := TrimSpace (rawBuilder st)).
  assert (Hfinal : forall content p acts0,
    (if eqs content [] then
       if negb (eqs (TrimSpace (refusalBuilder st)) [])
       then (inl (otherError "openai api refused to answer"), acts0)
       else (inl (otherError "openai api returned empty content"), acts0)
     else
       (inr (mkReply (TrimSpace content)
               (replyEmotion lowerTable (parserEmotion p) (emotions c))), acts0))
    = (inr reply, acts) ->
    TrimSpace content = content ->
    Text reply <> [] /\ TrimSpace (Text reply) = Text reply).
  { intros content p acts0 H Hfix.
    destruct (eqs content []) eqn:Ec.
    - by destruct (negb _).
    - apply eqs_false in Ec. injection H as <- _. cbn. by rewrite !Hfix. }
  destruct (eqs captured []) eqn:Ecap.
  - destruct (negb (eqs rawContent [])).
    + destruct (parseAIJSON UnmarshalAI rawContent) as [parsed|].
      * destruct (negb (eqs (aiJSON.Reply parsed) [])).
        -- destruct (if eqs (parserEmotion (parser st)) [] then _ else _) as [p acts0].
           intros H. eapply Hfinal; [exact H|]. apply TrimSpace_idem.
        -- intros H. eapply Hfinal; [exact H|]. apply TrimSpace_idem.
      * intros H. eapply Hfinal; [exact H|]. apply TrimSpace_idem.
    + intros H. eapply Hfinal; [exact H|]. apply TrimSpace_idem.
  - intros H. eapply Hfinal; [exact H|]. apply TrimSpace_idem.
Qed.

(** X11. The text of a reply that [StreamReply] returns is never empty and
    has no white space at either end. *)
Theorem stream_reply_text_not_blank (c : Client) (history : list db.ChatMessage)
    (cb : callbacks) (w w' : World) (reply : Reply) (acts : list action) :
  StreamReply lowerTable send ReadAll ReadLines UnmarshalChunk UnmarshalAI
    ReadFile c history cb w = (inr reply, acts, w') ->
  Text reply <> [] /\ TrimSpace (Text reply) = Text reply.
Proof.
  unfold StreamReply.
  destruct (result _) as [err|body]; [done|].
  unfold consumeStream.
  destruct (ReadLines body) as [lines readErr].
  destruct (readLoop _ _ _ lines) as [[[st a1] [e1|]] fin]; [done|].
  destruct (if fin then None else readErr); [done|].
  destruct (streamResult lowerTable UnmarshalAI c cb st) as [r a2] eqn:E2.
  intros [= -> _ _]. by eapply streamResult_text.
Qed.

(** X12. The text of a reply that [GenerateReply] returns has no white
    space at either end; it is empty exactly when the content parsed into
    a payload whose reply is not empty but blank. *)
Theorem generate_reply_text (c : Client) (history : list db.ChatMessage)
    (w : World) (reply : Reply) :
  (GenerateReply lowerTable send ReadAll Decode UnmarshalAI ReadFile c history w).1
    = inr reply ->
  TrimSpace (Text reply) = Text reply /\
  (Text reply = [] <->
   exists parsed first rest payload,
     result (negotiate lowerTable (doChatRequest send ReadAll Decode c)
               (buildRequest ReadFile c history false) w) = inr parsed /\
     Choices parsed = first :: rest /\
     parseAIJSON UnmarshalAI (TrimSpace (Content first)) = Some payload /\
     aiJSON.Reply payload <> [] /\ TrimSpace (aiJSON.Reply payload) = []).
Proof.
  unfold GenerateReply.
  destruct (result _) as [err|parsed] eqn:Eres; [done|]. cbn [fst].
  unfold replyOfResponse.
  destruct (Choices parsed) as [|first rest] eqn:Ech; [done|].
  destruct (eqs (TrimSpace (Content first)) []) eqn:Ec; [by destruct (negb _)|].
  apply eqs_false in Ec.
  destruct (parseAIJSON UnmarshalAI (TrimSpace (Content first))) as [payload|] eqn:Ep.
  - destruct (eqs (aiJSON.Reply payload) []) eqn:Er.
    + apply eqs_true in Er. intros [= <-]. cbn. split; [apply TrimSpace_idem|].
      split; [done|]. intros (? & ? & ? & payload' & [= <-] & Hch & Hp & Hne & _).
      rewrite Ech in Hch. injection Hch as <- <-. rewrite Ep in Hp.
      injection Hp as <-. done.
    + apply eqs_false in Er. intros [= <-]. cbn. split; [apply TrimSpace_idem|].
      split.
      * intros Hblank. exists parsed, first, rest, payload. done.
      * intros (? & ? & ? & payload' & [= <-] & Hch & Hp & _ & Hblank).
        rewrite Ech in Hch. injection Hch as <- <-. rewrite Ep in Hp.
        by injection Hp as <-.
  - intros [= <-]. cbn. split; [apply TrimSpace_idem|].
    split; [done|]. intros (? & ? & ? & payload' & [= <-] & Hch & Hp & _).
    rewrite Ech in Hch. injection Hch as <- <-. by rewrite Ep in Hp.
Qed.
End OrchestratorOutcomes.

(** X10 on a client without a key. *)
Lemma missing_api_key_sends_nothing_witness :
  GenerateReply latin1Lower (exampleSend (streamBody helloLines)) exampleReadAll
    exampleDecode exampleUnmarshalAI (fun _ => None) keylessClient exampleHistory tt
    = (inl (otherError "missing OPENAI_API_KEY"), tt) /\
  StreamReply latin1Lower (exampleSend (streamBody helloLines)) exampleReadAll
    exampleReadLines exampleUnmarshalChunk exampleUnmarshalAI (fun _ => None)
    keylessClient exampleHistory collect tt
    = (inl (otherError "missing OPENAI_API_KEY"), [], tt).
Proof.
  refine (missing_api_key_sends_nothing latin1Lower _ exampleReadAll exampleDecode
            exampleReadLines exampleUnmarshalChunk exampleUnmarshalAI _
            keylessClient exampleHistory collect tt _).
  reflexivity.
Defined.

(** X11 on the end-to-end example. *)
Lemma stream_reply_text_not_blank_witness :
  Text (mkReply (go "Hello!") (go "happy")) <> [] /\
  TrimSpace (Text (mkReply (go "Hello!") (go "happy")))
    = Text (mkReply (go "Hello!") (go "happy")).
Proof.
  refine (stream_reply_text_not_blank latin1Lower
            (exampleSend (streamBody helloLines)) exampleReadAll
            exampleReadLines exampleUnmarshalChunk exampleUnmarshalAI
            (fun _ => None) exampleClient exampleHistory collect tt tt _ _ _).
  vm_compute. reflexivity.
Defined.

(** A reply of one space: the text returned is empty. *)
Lemma generate_reply_text_witness :
  TrimSpace (Text (mkReply [] (go "happy"))) = Text (mkReply [] (go "happy")).
Proof.
  refine (proj1 (generate_reply_text latin1Lower
            (exampleSend (bufferedBody (mkChatResponse
               [mkChatMessage (go "assistant")
                  (js "{'emotion':'happy','reply':' '}") []])))
            exampleReadAll exampleDecode exampleUnmarshalAI (fun _ => None)
            exampleClient exampleHistory tt _ _)).
  vm_compute. reflexivity.
Defined.

Section ReplyParts.
Variable lowerTable : rune -> rune.

Lemma ToLower_not_empty s :
  lower_total lowerTable -> codePoints s -> s <> [] -> ToLower lowerTable s <> [].
Proof.
  intros Htot Hs Hne. unfold ToLower.
  destruct s as [|x s]; [done|]. destruct (forallb _ _); [done|].
  unfold Map. cbn [flat_map].
  inversion Hs as [|? ? Hx _]; subst.
  assert (H0 : 0 <= unicode_ToLower lowerTable x).
  { unfold unicode_ToLower, asciiLower. repeat case_match; try lia. by apply Htot. }
  replace (unicode_ToLower lowerTable x <? 0) with false by lia. done.
Qed.

Lemma fallbackEmotion_not_empty allowed :
  lower_total lowerTable -> Forall codePoints allowed ->
  fallbackEmotion lowerTable allowed <> [].
Proof.
  intros Htot. induction 1 as [|e allowed He _ IH]; [done|]. cbn -[go].
  destruct (eqs (TrimSpace e) []) eqn:E; cbn [negb]; [done|].
  apply eqs_false in E. apply ToLower_not_empty; [done| |done].
  unfold codePoints in *. rewrite List.Forall_forall in *.
  intros r Hr. apply He. by apply TrimSpace_In.
Qed.

Lemma replyEmotion_not_empty raw allowed :
  lower_total lowerTable -> Forall codePoints allowed ->
  replyEmotion lowerTable raw allowed <> [].
Proof.
  intros Htot Hall. unfold replyEmotion.
  destruct (eqs _ []) eqn:E; [by apply fallbackEmotion_not_empty|].
  by apply eqs_false in E.
Qed.

Context {World Body : Type}.
Variable send : chatRequest -> World -> (string + (Z * Body)) * World.
Variable ReadAll : Body -> gostring.
Variable Decode : Body -> string + chatResponse.
Variable ReadLines : Body -> list gostring * option error.
Variable UnmarshalChunk : gostring -> option (list delta).
Variable UnmarshalAI : gostring -> option aiJSON.t.
Variable ReadFile : gostring -> option gostring.

(** X13. The emotion of a reply that [GenerateReply] or [StreamReply]
    returns is never empty, whatever the provider answered. *)
Theorem reply_emotion_never_empty (c : Client) (history : list db.ChatMessage)
    (cb : callbacks) (w : World) :
  lower_total lowerTable ->
  Forall codePoints (emotions c) ->
  (forall reply,
     (GenerateReply lowerTable send ReadAll Decode UnmarshalAI ReadFile c history w).1
       = inr reply -> Emotion reply <> []) /\
  (forall reply acts w',
     StreamReply lowerTable send ReadAll ReadLines UnmarshalChunk UnmarshalAI
       ReadFile c history cb w = (inr reply, acts, w') -> Emotion reply <> []).
Proof.
  intros Htot Hall.
  pose proof (fallbackEmotion_not_empty (emotions c) Htot Hall) as Hf.
  pose proof (fun raw => replyEmotion_not_empty raw (emotions c) Htot Hall) as Hr.
  split.
  - intros reply. unfold GenerateReply.
    destruct (result _) as [err|parsed]; [done|]. cbn [fst].
    unfold replyOfResponse.
    destruct (Choices parsed) as [|first rest]; [done|].
    destruct (eqs (TrimSpace (Content first)) []); [by destruct (negb _)|].
    destruct (parseAIJSON _ _) as [payload|]; [|by intros [= <-]].
    destruct (eqs (aiJSON.Reply payload) []); intros [= <-]; [done|apply Hr].
  - intros reply acts w'. unfold StreamReply.
    destruct (result _) as [err|body]; [done|].
    unfold consumeStream.
    destruct (ReadLines body) as [lines readErr].
    destruct (readLoop _ _ _ lines) as [[[st a1] [e1|]] fin]; [done|].
    destruct (if fin then None else readErr); [done|].
    unfold streamResult.
    destruct (if eqs (TrimSpace (parserReply (parser st))) [] then _ else _)
      as [[content p] acts2].
    destruct (eqs content []); [by destruct (negb _)|].
    intros [= <- _ _]. apply Hr.
Qed.

(** ** [parseAIJSON] *)

Lemma Index_first pre c rest :
  ~ In c pre -> Index (pre ++ c :: rest) c = Some (length pre).
Proof.
  induction pre as [|a pre IH]; intros Hn; cbn.
  - by rewrite Z.eqb_refl.
  - assert (a <> c) by (intros ->; apply Hn; by left).
    replace (a =? c) with false by lia.
    rewrite IH; [done|]. intros Hin. apply Hn. by right.
Qed.

Lemma LastIndex_none c s : ~ In c s -> LastIndex s c = None.
Proof.
  induction s as [|a s IH]; intros Hn; cbn; [done|].
  rewrite IH by (intros Hin; apply Hn; by right).
  assert (a <> c) by (intros ->; apply Hn; by left).
  by replace (a =? c) with false by lia.
Qed.

Lemma LastIndex_last s c post :
  ~ In c post -> LastIndex (s ++ c :: post) c = Some (length s).
Proof.
  intros Hn. induction s as [|a s IH]; cbn.
  - by rewrite LastIndex_none, Z.eqb_refl.
  - by rewrite IH.
Qed.

(** X14. When the content as a whole is not valid JSON, [parseAIJSON]
    parses the text from its first opening brace to its last closing brace
    and ignores what surrounds it. *)
Theorem parseAIJSON_finds_the_object (pre inner post : gostring) :
  ~ In 123 pre -> ~ In 125 post ->
  UnmarshalAI (pre ++ [123] ++ inner ++ [125] ++ post) = None ->
  parseAIJSON UnmarshalAI (pre ++ [123] ++ inner ++ [125] ++ post)
  = UnmarshalAI ([123] ++ inner ++ [125]).
Proof.
  intros Hpre Hpost Hfail. unfold parseAIJSON. rewrite Hfail.
  cbn [app]. rewrite Index_first by done.
  replace (pre ++ 123 :: inner ++ 125 :: post)
    with ((pre ++ 123 :: inner) ++ 125 :: post) by (by rewrite <- app_assoc).
  rewrite LastIndex_last by done.
  rewrite length_app. cbn [length].
  replace (length pre + S (length inner) <=? length pre)%nat with false
    by (symmetry; apply Nat.leb_gt; lia).
  f_equal. unfold slice. rewrite <- app_assoc. cbn [app].
  rewrite skipn_app, skipn_all, Nat.sub_diag. cbn [skipn app].
  replace (length pre + S (length inner) + 1 - length pre)%nat
    with (length (123 :: inner ++ [125])) by (cbn; rewrite length_app; cbn; lia).
  replace (123 :: inner ++ 125 :: post) with ((123 :: inner ++ [125]) ++ post)
    by (cbn; by rewrite <- app_assoc).
  by rewrite firstn_app, firstn_all, Nat.sub_diag, app_nil_r.
Qed.

(** ** The system message *)

Lemma chosenPrompt_trimmed c :
  match chosenPrompt ReadFile c with [] => True | r :: _ => IsSpace r = false end.
Proof.
  unfold chosenPrompt, loadPromptFromFile.
  destruct (eqs (TrimSpace (promptPath c)) []); cbn [negb];
    [apply TrimSpace_head|].
  destruct (ReadFile _) as [data|]; [|apply TrimSpace_head].
  destruct (eqs (TrimSpace data) []); cbn [negb]; apply TrimSpace_head.
Qed.

(** X15. The system message is the chosen prompt, a blank line and the
    format instruction, and the format instruction alone when the prompt
    is empty: trimming takes nothing from the instruction, which names the
    allowed emotions separated by [, ]. *)
Theorem systemMessage_content (c : Client) :
  Role (systemMessage ReadFile c) = go "system" /\
  Content (systemMessage ReadFile c) =
    match chosenPrompt ReadFile c with
    | [] => formatInstruction c
    | prompt => prompt ++ [10; 10] ++ formatInstruction c
    end.
Proof.
  split; [done|].
  unfold systemMessage. cbn [Content].
  fold (chosenPrompt ReadFile c).
  change (go "Respond ONLY with valid JSON and no extra text. The JSON must have keys 'emotion' and 'reply' in that order. 'emotion' must be one of: "
          ++ Join (emotions c) (go ", ") ++ go ".") with (formatInstruction c).
  pose proof (chosenPrompt_trimmed c) as Hp.
  assert (Hf : exists body, formatInstruction c = 82 :: body ++ [46]).
  { unfold formatInstruction.
    match goal with |- context [go ?s ++ ?list ++ _] =>
      exists (List.tl (go s) ++ list) end.
    rewrite <- app_assoc. reflexivity. }
  destruct Hf as [body Hf]. rewrite Hf.
  destruct (chosenPrompt ReadFile c) as [|r prompt].
  - cbn [app]. unfold TrimSpace. cbn [TrimLeft].
    replace (IsSpace 10) with true by done.
    fold (TrimSpace (82 :: body ++ [46])). by apply TrimSpace_fixed.
  - replace ((r :: prompt) ++ [10; 10] ++ 82 :: body ++ [46])
      with (r :: (prompt ++ [10; 10] ++ 82 :: body) ++ [46]).
    + by apply TrimSpace_fixed.
    + cbn. f_equal. by rewrite <- !app_assoc.
Qed.
End ReplyParts.

(** X13 on a plain-text answer, with the Latin-1 table. *)
Lemma reply_emotion_never_empty_witness :
  Emotion (mkReply (go "Just text.") (go "neutral")) <> [].
Proof.
  refine (proj1 (reply_emotion_never_empty latin1Lower
            (exampleSend (bufferedBody (mkChatResponse
               [mkChatMessage (go "assistant") (go " Just text. ") []])))
            exampleReadAll exampleDecode exampleReadLines exampleUnmarshalChunk
            exampleUnmarshalAI (fun _ => None) exampleClient exampleHistory
            collect tt _ _) _ _).
  - intros r Hr. unfold latin1Lower. case_match; lia.
  - repeat constructor; lia.
  - vm_compute. reflexivity.
Defined.

(** An object with text around it. *)
Lemma parseAIJSON_finds_the_object_witness :
  parseAIJSON exampleUnmarshalAI
    (go "Sure: " ++ [123] ++ js "'emotion':'happy','reply':'hi'" ++ [125] ++ go " ok")
  = Some (aiJSON.mk (go "hi") (go "happy")).
Proof.
  refine (parseAIJSON_finds_the_object exampleUnmarshalAI (go "Sure: ")
            (js "'emotion':'happy','reply':'hi'") (go " ok") _ _ _).
  - intros H. vm_compute in H. intuition discriminate.
  - intros H. vm_compute in H. intuition discriminate.
  - vm_compute. reflexivity.
Defined.

(** ** [NewClient] *)

Lemma strings_TrimRight_spec s c :
  exists k, s = strings_TrimRight s [c] ++ replicate k c /\
            ~ exists t, strings_TrimRight s [c] = t ++ [c].
Proof.
  induction s as [|r s (k & Hs & Hend)]; cbn [strings_TrimRight].
  - exists 0%nat. split; [done|]. by intros [[|? ?] ?].
  - destruct (strings_TrimRight s [c]) as [|x t] eqn:E.
    + cbn [existsb orb]. rewrite orb_false_r. destruct (r =? c) eqn:Er.
      * apply Z.eqb_eq in Er as ->. exists (S k). cbn in *. split; [by rewrite <- Hs|].
        by intros [[|? ?] ?].
      * exists k. split; [cbn in *; by rewrite <- Hs|].
        intros [[|y t] Ht]; cbn in Ht; [injection Ht as ->; lia|].
        injection Ht as _ Ht. by destruct t.
    + exists k. split; [cbn in *; by rewrite <- Hs|].
      intros [[|y u] Hu]; cbn in Hu; [done|].
      injection Hu as -> Hu. apply Hend. by exists u.
Qed.

(** X16. [NewClient] copies the configuration and takes every trailing
    slash from the base address, so that the address requests are posted
    to has one slash between the base and [chat/completions]. *)
Theorem NewClient_endpoint (cfg : config.Config) :
  let c := NewClient cfg in
  (exists k, config.OpenAIBaseURL cfg = baseURL c ++ replicate k 47) /\
  (~ exists t, baseURL c = t ++ [47]) /\
  endpoint c = baseURL c ++ [47] ++ go "chat/completions" /\
  apiKey c = config.OpenAIAPIKey cfg /\ model c = config.OpenAIModel cfg /\
  temperature c = config.OpenAITemperature cfg /\
  systemPrompt c = config.AISystemPrompt cfg /\
  promptPath c = config.AISystemPromptPath cfg /\
  emotions c = config.AIEmotions cfg.
Proof.
  intros c. destruct (strings_TrimRight_spec (config.OpenAIBaseURL cfg) 47)
    as (k & Hk & Hend).
  split; [by exists k|]. split; [done|]. done.
Qed.

(** ** The read loop of [StreamReply] *)

Section StreamFacts.
Variable lowerTable : rune -> rune.
Context {World Body : Type}.
Variable send : chatRequest -> World -> (string + (Z * Body)) * World.
Variable ReadAll : Body -> gostring.
Variable Decode : Body -> string + chatResponse.
Variable ReadLines : Body -> list gostring * option error.
Variable UnmarshalChunk : gostring -> option (list delta).
Variable UnmarshalAI : gostring -> option aiJSON.t.
Variable ReadFile : gostring -> option gostring.

Lemma feedChoices_quiet cb choices : forall st,
  forallb quietDelta choices = true ->
  feedChoices cb st choices = (st, [], None).
Proof.
  induction choices as [|d choices IH]; intros st; cbn [forallb feedChoices]; [done|].
  intros [[Hc Hr]%andb_true_iff Hrest]%andb_true_iff.
  rewrite Hc, Hr. cbn [negb]. by rewrite IH.
Qed.

(** X17. The read loop of [StreamReply] passes over the lines that carry
    nothing, a frame that is not valid JSON among them: the outcome is the
    one of the stream without these lines. *)
Theorem readLoop_skips_ignored_lines (cb : callbacks) (st : streamState)
    (lines : list gostring) :
  readLoop UnmarshalChunk cb st lines =
  readLoop UnmarshalChunk cb st
    (List.filter (fun line => negb (ignoredLine UnmarshalChunk line)) lines).
Proof.
  revert st. induction lines as [|line lines IH]; intros st; [done|].
  cbn [List.filter]. unfold ignoredLine at 1.
  cbn [readLoop].
  destruct (eqs (TrimSpace line) []) eqn:E1; cbn [orb negb]; [apply IH|].
  destruct (HasPrefix (TrimSpace line) (go "data:")) eqn:E2; cbn [orb negb]; [|apply IH].
  destruct (eqs (TrimSpace (TrimPrefix (TrimSpace line) (go "data:"))) (go "[DONE]")) eqn:E3;
    cbn [negb andb].
  { cbn [readLoop]. by rewrite E1, E2, E3. }
  destruct (UnmarshalChunk _) as [choices|] eqn:E4; cbn [negb]; [|apply IH].
  destruct (forallb quietDelta choices) eqn:E5; cbn [negb].
  - rewrite feedChoices_quiet by done. rewrite <- IH.
    by destruct (readLoop UnmarshalChunk cb st lines) as [[[? ?] ?] ?].
  - cbn [readLoop]. rewrite E1, E2, E3, E4. cbn [negb].
    destruct (feedChoices cb st choices) as [[st1 a1] [e1|]]; [done|].
    by rewrite IH.
Qed.

Lemma readLoop_stops_at_done cb before : forall st line after,
  doneLine line = true ->
  readLoop UnmarshalChunk cb st (before ++ line :: after) =
  readLoop UnmarshalChunk cb st (before ++ [line]).
Proof.
  induction before as [|l before IH]; intros st line after Hdone.
  - cbn [app readLoop]. unfold doneLine in Hdone.
    apply andb_true_iff in Hdone as [[H1 H2]%andb_true_iff H3].
    apply negb_true_iff in H1. by rewrite H1, H2, H3.
  - cbn [app readLoop].
    destruct (eqs (TrimSpace l) []); [by apply IH|].
    destruct (negb _); [by apply IH|].
    destruct (eqs _ (go "[DONE]")); [done|].
    destruct (UnmarshalChunk _) as [choices|]; [|by apply IH].
    destruct (feedChoices cb st choices) as [[st1 a1] [e1|]]; [done|].
    by rewrite IH.
Qed.

Lemma readLoop_done_flag cb before : forall st line st' acts fin,
  doneLine line = true ->
  readLoop UnmarshalChunk cb st (before ++ [line]) = (st', acts, None, fin) ->
  fin = true.
Proof.
  induction before as [|l before IH]; intros st line st' acts fin Hdone.
  - cbn [app readLoop]. unfold doneLine in Hdone.
    apply andb_true_iff in Hdone as [[H1 H2]%andb_true_iff H3].
    apply negb_true_iff in H1. rewrite H1, H2, H3. cbn. by intros [= _ _ <-].
  - cbn [app readLoop].
    destruct (eqs (TrimSpace l) []); [by apply IH|].
    destruct (negb _); [by apply IH|].
    destruct (eqs _ (go "[DONE]")); [by intros [= _ _ <-]|].
    destruct (UnmarshalChunk _) as [choices|]; [|by apply IH].
    destruct (feedChoices cb st choices) as [[st1 a1] [e1|]]; [done|].
    destruct (readLoop UnmarshalChunk cb st1 (before ++ [line]))
      as [[[st2 a2] e2] d2] eqn:E.
    intros [= <- <- -> <-]. by eapply IH.
Qed.

(** X18. What follows the line [data: [DONE]] does not count: neither the
    lines after it nor a read error after it changes what [StreamReply]
    makes of the response. *)
Theorem nothing_counts_after_done (c : Client) (cb : callbacks) (body body' : Body)
    (before after : list gostring) (line : gostring) (readErr : option error) :
  doneLine line = true ->
  ReadLines body = (before ++ line :: after, readErr) ->
  ReadLines body' = (before ++ [line], None) ->
  consumeStream lowerTable ReadLines UnmarshalChunk UnmarshalAI c cb body =
  consumeStream lowerTable ReadLines UnmarshalChunk UnmarshalAI c cb body'.
Proof.
  intros Hdone Hb Hb'. unfold consumeStream. rewrite Hb, Hb'.
  rewrite readLoop_stops_at_done by done.
  destruct (readLoop _ _ _ (before ++ [line])) as [[[st a1] [e1|]] fin] eqn:E; [done|].
  apply readLoop_done_flag in E as ->; done.
Qed.

Lemma run_drop_chunk text q :
  setReplyChunk [] (run text (setReplyChunk [] q)) = setReplyChunk [] (run text q).
Proof.
  replace (run text q) with (run text (setReplyChunk (replyChunk q) q))
    by (by destruct q).
  by rewrite (run_chunk text q (replyChunk q)).
Qed.

Lemma feedChoices_sync cb choices : forall st st' acts,
  parser st = setReplyChunk [] (run (rawBuilder st) newJSONStreamParser) ->
  feedChoices cb st choices = (st', acts, None) ->
  parser st' = setReplyChunk [] (run (rawBuilder st') newJSONStreamParser).
Proof.
  induction choices as [|choice choices IH]; intros st st' acts Hst;
    cbn [feedChoices].
  - by intros [= <- <-].
  - destruct (negb (eqs (deltaContent choice) [])).
    + destruct (Feed cb (parser st) (deltaContent choice))
        as [[p a1] [e1|]] eqn:E1; [done|].
      apply Feed_ok in E1 as [Hp _].
      match goal with |- context [feedChoices cb ?s choices] =>
        destruct (feedChoices cb s choices) as [[st3 a2] e2] eqn:E2 end.
      intros [= <- <- ->]. eapply IH; [|exact E2].
      assert (Hsync : p = setReplyChunk []
                (run (rawBuilder st ++ deltaContent choice) newJSONStreamParser)).
      { rewrite Hp, Hst, run_app. apply run_drop_chunk. }
      by destruct (negb _).
    + match goal with |- context [feedChoices cb ?s choices] =>
        destruct (feedChoices cb s choices) as [[st3 a2] e2] eqn:E2 end.
      intros [= <- <- ->]. eapply IH; [|exact E2]. by destruct (negb _).
Qed.

Lemma readLoop_sync cb lines : forall st st' acts fin,
  parser st = setReplyChunk [] (run (rawBuilder st) newJSONStreamParser) ->
  readLoop UnmarshalChunk cb st lines = (st', acts, None, fin) ->
  parser st' = setReplyChunk [] (run (rawBuilder st') newJSONStreamParser).
Proof.
  induction lines as [|line lines IH]; intros st st' acts fin Hst;
    cbn [readLoop].
  - by intros [= <- _ _].
  - destruct (eqs (TrimSpace line) []); [by apply IH|].
    destruct (negb (HasPrefix _ _)); [by apply IH|].
    destruct (eqs _ (go "[DONE]")); [by intros [= <- _ _]|].
    destruct (UnmarshalChunk _) as [choices|]; [|by apply IH].
    destruct (feedChoices cb st choices) as [[st1 a1] [e1|]] eqn:E1; [done|].
    apply feedChoices_sync in E1; [|done].
    destruct (readLoop UnmarshalChunk cb st1 lines) as [[[st2 a2] e2] d2] eqn:E2.
    intros [= <- <- -> <-]. by eapply IH.
Qed.

(** X19. How the provider cuts the content into frames does not matter:
    when no callback fails, the read loop leaves the extractor in the state
    that one [Feed] of the whole raw content gives a fresh parser, and
    [onReply] has received the same text. *)
Theorem stream_frames_are_immaterial (cb : callbacks) (lines : list gostring)
    (st : streamState) (acts acts1 : list action) (fin : bool)
    (p1 : jsonStreamParser) :
  readLoop UnmarshalChunk cb (mkStreamState newJSONStreamParser [] []) lines
    = (st, acts, None, fin) ->
  Feed cb newJSONStreamParser (rawBuilder st) = (p1, acts1, None) ->
  parser st = p1 /\ delivered acts = delivered acts1.
Proof.
  intros Hloop Hfeed.
  pose proof (readLoop_sync cb lines (mkStreamState newJSONStreamParser [] [])
                _ _ _ eq_refl Hloop) as Hsync.
  pose proof (readLoop_builder UnmarshalChunk cb lines
                (mkStreamState newJSONStreamParser [] []) _ _ _ eq_refl Hloop) as Hd.
  apply Feed_ok in Hfeed as [-> ->]. split; [done|].
  cbn in Hd. rewrite Hsync in Hd. cbn in Hd.
  rewrite run_builder in Hd. cbn in Hd.
  unfold toReply in *. by destruct (onReply cb).
Qed.
End StreamFacts.

(** A frame and a read error after [data: [DONE]]. *)
Lemma nothing_counts_after_done_witness :
  let ReadLines (body : list gostring * option error) := body in
  consumeStream latin1Lower ReadLines exampleUnmarshalChunk exampleUnmarshalAI
    exampleClient collect
    (helloLines ++ [frame "{'reply':'more'}"], Some (otherError "unexpected EOF"))
  = consumeStream latin1Lower ReadLines exampleUnmarshalChunk exampleUnmarshalAI
      exampleClient collect (helloLines, None).
Proof.
  intros ReadLines.
  refine (nothing_counts_after_done latin1Lower ReadLines exampleUnmarshalChunk
            exampleUnmarshalAI exampleClient collect _ _
            (firstn 3 helloLines) [frame "{'reply':'more'}"]
            (go "data: [DONE]" ++ [10]) (Some (otherError "unexpected EOF")) _ _ _);
    reflexivity.
Defined.

(** X19 on the end-to-end example, three frames. *)
Lemma stream_frames_are_immaterial_witness :
  let loop := readLoop exampleUnmarshalChunk collect
                (mkStreamState newJSONStreamParser [] []) helloLines in
  let fed := Feed collect newJSONStreamParser
               (js "{'emotion':'happy','reply':' Hello! '}") in
  parser loop.1.1.1 = fed.1.1 /\ delivered loop.1.1.2 = delivered fed.1.2.
Proof.
  intros loop fed.
  refine (stream_frames_are_immaterial exampleUnmarshalChunk collect
            helloLines loop.1.1.1 loop.1.1.2 fed.1.2 true fed.1.1 _ _).
  - vm_compute. reflexivity.
  - vm_compute. reflexivity.
Defined.

(** ** A delivery that fails *)

Lemma emotion_calls_no_reply ems before s after :
  map CallEmotion ems <> before ++ CallReply s :: after.
Proof.
  revert before. induction ems as [|e ems IH]; intros [|b before]; cbn; try done.
  intros [= _ H]. by eapply IH.
Qed.

Lemma last_reply_call ems c before s after :
  map CallEmotion ems ++ [CallReply c] = before ++ CallReply s :: after ->
  s = c /\ after = [].
Proof.
  revert before. induction ems as [|e ems IH]; intros [|b before]; cbn.
  - by intros [= -> <-].
  - intros [= _ H]. by destruct before.
  - done.
  - intros [= _ H]. by eapply IH.
Qed.

Lemma stopsAtFailedDelivery_app {R : Type} cb a1 a2 (failed : error -> R) r :
  stopsAtFailedDelivery cb a1 failed None ->
  stopsAtFailedDelivery cb a2 failed r ->
  stopsAtFailedDelivery cb (a1 ++ a2) failed r.
Proof.
  intros H1 H2 before s after f e Heq Hf He.
  apply app_eq_app in Heq as [l [[-> Hl]|[-> Hl]]].
  - destruct l as [|x l]; cbn in Hl.
    + rewrite app_nil_r in H1. by eapply (H2 []).
    + injection Hl as <- ->.
      by destruct (H1 before s l f e eq_refl Hf He).
  - by eapply H2.
Qed.

Lemma Feed_stops cb p text :
  stopsAtFailedDelivery cb (Feed cb p text).1.2 id (Feed cb p text).2.
Proof.
  intros before s after f e. unfold Feed.
  destruct (feedRunes_calls cb text p) as (ems & Hems & _).
  destruct (feedRunes cb p text) as [[p1 a1] [e1|]]; cbn in Hems; subst; cbn.
  - intros H. by apply emotion_calls_no_reply in H.
  - unfold flushChunk, continue.
    destruct (replyChunk p1) as [|x chunk]; cbn.
    + rewrite app_nil_r. intros H. by apply emotion_calls_no_reply in H.
    + destruct (onReply cb) as [g|]; [|done].
      destruct (g (x :: chunk)) eqn:Eg; cbn;
        intros [-> ->]%last_reply_call [= <-] He; by rewrite Eg in He; simplify_eq.
Qed.

Section StreamStops.
Variable lowerTable : rune -> rune.
Context {World Body : Type}.
Variable send : chatRequest -> World -> (string + (Z * Body)) * World.
Variable ReadAll : Body -> gostring.
Variable ReadLines : Body -> list gostring * option error.
Variable UnmarshalChunk : gostring -> option (list delta).
Variable UnmarshalAI : gostring -> option aiJSON.t.
Variable ReadFile : gostring -> option gostring.

Lemma stops_nil {R : Type} cb (failed : error -> R) r :
  stopsAtFailedDelivery cb [] failed r.
Proof. intros [|? ?] ? ? ? ? H; done. Qed.

Lemma feedChoices_stops cb choices : forall st,
  stopsAtFailedDelivery cb (feedChoices cb st choices).1.2 id
    (feedChoices cb st choices).2.
Proof.
  induction choices as [|choice choices IH]; intros st; cbn [feedChoices].
  - apply stops_nil.
  - destruct (negb (eqs (deltaContent choice) [])).
    + pose proof (Feed_stops cb (parser st) (deltaContent choice)) as HF.
      destruct (Feed cb (parser st) (deltaContent choice)) as [[p a1] [e1|]];
        cbn in HF; [done|].
      match goal with |- context [feedChoices cb ?s choices] =>
        pose proof (IH s) as H2;
        destruct (feedChoices cb s choices) as [[st3 a2] e2] end.
      cbn in *. by apply stopsAtFailedDelivery_app.
    + match goal with |- context [feedChoices cb ?s choices] =>
        pose proof (IH s) as H2;
        destruct (feedChoices cb s choices) as [[st3 a2] e2] end.
      done.
Qed.

Lemma readLoop_stops cb lines : forall st,
  stopsAtFailedDelivery cb (readLoop UnmarshalChunk cb st lines).1.1.2 id
    (readLoop UnmarshalChunk cb st lines).1.2.
Proof.
  induction lines as [|line lines IH]; intros st; cbn [readLoop].
  - apply stops_nil.
  - destruct (eqs (TrimSpace line) []); [apply IH|].
    destruct (negb (HasPrefix _ _)); [apply IH|].
    destruct (eqs _ (go "[DONE]")); [apply stops_nil|].
    destruct (UnmarshalChunk _) as [choices|]; [|apply IH].
    pose proof (feedChoices_stops cb choices st) as H1.
    destruct (feedChoices cb st choices) as [[st1 a1] [e1|]]; cbn in H1; [done|].
    pose proof (IH st1) as H2.
    destruct (readLoop UnmarshalChunk cb st1 lines) as [[[st2 a2] e2] d2].
    cbn in *. by apply stopsAtFailedDelivery_app.
Qed.

Lemma streamResult_no_reply_call c cb st before s after :
  (streamResult lowerTable UnmarshalAI c cb st).2 <> before ++ CallReply s :: after.
Proof.
  unfold streamResult, SetEmotion.
  repeat (case_match; simplify_eq; cbn);
    destruct before as [|? [|? [|? ?]]]; cbn; try done.
Qed.

(** X20. When [onReply] returns an error for a delta, [StreamReply]
    invokes no callback after that call and returns that error. *)
Theorem stream_stops_at_failed_delivery (c : Client)
    (history : list db.ChatMessage) (cb : callbacks) (w w' : World)
    (r : error + Reply) (acts before after : list action) (s : gostring)
    (f : gostring -> option error) (e : error) :
  StreamReply lowerTable send ReadAll ReadLines UnmarshalChunk UnmarshalAI
    ReadFile c history cb w = (r, acts, w') ->
  acts = before ++ CallReply s :: after ->
  onReply cb = Some f -> f s = Some e ->
  after = [] /\ r = inl e.
Proof.
  unfold StreamReply.
  destruct (result _) as [err|body].
  { intros [= <- <- _] H. by destruct before. }
  unfold consumeStream.
  destruct (ReadLines body) as [lines readErr].
  pose proof (readLoop_stops cb lines (mkStreamState newJSONStreamParser [] [])) as Hl.
  destruct (readLoop _ _ _ lines) as [[[st a1] e1] fin]. cbn in Hl.
  destruct e1 as [e1|].
  { intros [= <- <- _] Hacts Hf He.
    destruct (Hl _ _ _ _ _ Hacts Hf He) as [-> [= ->]]. done. }
  destruct (if fin then None else readErr).
  { intros [= <- <- _] Hacts Hf He. by destruct (Hl _ _ _ _ _ Hacts Hf He). }
  pose proof (streamResult_no_reply_call c cb st) as Hno.
  destruct (streamResult lowerTable UnmarshalAI c cb st) as [r2 a2]. cbn in Hno.
  intros [= <- <- _] Hacts Hf He.
  apply app_eq_app in Hacts as [l [[-> Hl2]|[-> Hl2]]].
  - destruct l as [|x l]; cbn in Hl2.
    + by destruct (Hno [] s after).
    + injection Hl2 as <- ->. by destruct (Hl before s l f e eq_refl Hf He).
  - by destruct (Hno l s after).
Qed.
End StreamStops.

(** The first delta of the end-to-end example is rejected. *)
Lemma stream_stops_at_failed_delivery_witness :
  (exampleStream helloLines rejecting).1.1 = inl (otherError "write: broken pipe").
Proof.
  refine (proj2 (stream_stops_at_failed_delivery latin1Lower
            (exampleSend (streamBody helloLines)) exampleReadAll
            exampleReadLines exampleUnmarshalChunk exampleUnmarshalAI
            (fun _ => None) exampleClient exampleHistory rejecting tt tt
            (exampleStream helloLines rejecting).1.1
            [CallReply (go " He")] [] [] (go " He")
            (fun _ => Some (otherError "write: broken pipe"))
            (otherError "write: broken pipe") _ eq_refl eq_refl eq_refl)).
  vm_compute. reflexivity.
Defined.

(** ** The emotion callback over a whole call *)

Section StreamEmotion.
Variable lowerTable : rune -> rune.
Context {World Body : Type}.
Variable send : chatRequest -> World -> (string + (Z * Body)) * World.
Variable ReadAll : Body -> gostring.
Variable ReadLines : Body -> list gostring * option error.
Variable UnmarshalChunk : gostring -> option (list delta).
Variable UnmarshalAI : gostring -> option aiJSON.t.
Variable ReadFile : gostring -> option gostring.

Lemma feedChoices_capturedOnce cb choices : forall st st' acts err calls,
  capturedOnce calls (parser st) ->
  feedChoices cb st choices = (st', acts, err) ->
  capturedOnce (calls ++ emotionCalls acts) (parser st').
Proof.
  induction choices as [|choice choices IH]; intros st st' acts err calls Hc;
    cbn [feedChoices].
  - intros [= <- <- _]. by rewrite app_nil_r.
  - destruct (negb (eqs (deltaContent choice) [])).
    + destruct (Feed cb (parser st) (deltaContent choice)) as [[p a1] e1] eqn:E1.
      pose proof (Feed_capturedOnce cb _ _ _ _ _ calls Hc E1) as H1.
      destruct e1 as [e1|]; [by intros [= <- <- _]|].
      match goal with |- context [feedChoices cb ?s choices] =>
        destruct (feedChoices cb s choices) as [[st3 a2] e2] eqn:E2 end.
      intros [= <- <- _]. rewrite emotionCalls_app, app_assoc.
      eapply IH; [|exact E2]. by destruct (negb _).
    + match goal with |- context [feedChoices cb ?s choices] =>
        destruct (feedChoices cb s choices) as [[st3 a2] e2] eqn:E2 end.
      intros [= <- <- _]. cbn [app]. eapply IH; [|exact E2]. by destruct (negb _).
Qed.

Lemma readLoop_capturedOnce cb lines : forall st st' acts err fin calls,
  capturedOnce calls (parser st) ->
  readLoop UnmarshalChunk cb st lines = (st', acts, err, fin) ->
  capturedOnce (calls ++ emotionCalls acts) (parser st').
Proof.
  induction lines as [|line lines IH]; intros st st' acts err fin calls Hc;
    cbn [readLoop].
  - intros [= <- <- _ _]. by rewrite app_nil_r.
  - destruct (eqs (TrimSpace line) []); [by apply IH|].
    destruct (negb (HasPrefix _ _)); [by apply IH|].
    destruct (eqs _ (go "[DONE]")).
    { intros [= <- <- _ _]. by rewrite app_nil_r. }
    destruct (UnmarshalChunk _) as [choices|]; [|by apply IH].
    destruct (feedChoices cb st choices) as [[st1 a1] e1] eqn:E1.
    pose proof (feedChoices_capturedOnce cb choices _ _ _ _ calls Hc E1) as H1.
    destruct e1 as [e1|]; [by intros [= <- <- _ _]|].
    destruct (readLoop UnmarshalChunk cb st1 lines) as [[[st2 a2] e2] d2] eqn:E2.
    intros [= <- <- _ _]. rewrite emotionCalls_app, app_assoc. by eapply IH.
Qed.

Lemma streamResult_emotion c cb st calls :
  capturedOnce calls (parser st) ->
  let out := streamResult lowerTable UnmarshalAI c cb st in
  exists k,
    calls ++ emotionCalls out.2 = replicate k [] \/
    exists e, e <> [] /\ calls ++ emotionCalls out.2 = replicate k [] ++ [e] /\
      forall reply, out.1 = inr reply ->
        Emotion reply = replyEmotion lowerTable e (emotions c).
Proof.
  intros (k & last & -> & Hlast) out. subst out. exists k.
  unfold streamResult.
  destruct (if eqs (TrimSpace (parserReply (parser st))) [] then _ else _)
    as [[content p] acts2] eqn:EX.
  assert (HX : (p = parser st /\ emotionCalls acts2 = []) \/
               (emotion (parser st) = [] /\
                (emotionCalls acts2 = [] \/
                 emotionCalls acts2 = [emotion p] /\ emotion p <> []))).
  { revert EX. unfold SetEmotion, parserEmotion.
    destruct (eqs (TrimSpace _) []); [|intros [= _ <- <-]; auto].
    destruct (negb (eqs (TrimSpace (rawBuilder st)) [])); [|intros [= _ <- <-]; auto].
    destruct (parseAIJSON _ _) as [parsed|]; [|intros [= _ <- <-]; auto].
    destruct (negb (eqs (aiJSON.Reply parsed) [])); [|intros [= _ <- <-]; auto].
    destruct (eqs (emotion (parser st)) []) eqn:Ee; [|intros [= _ <- <-]; auto].
    cbn [negb]. apply eqs_true in Ee. intros [= _ <- <-]. right. split; [done|].
    cbn [emotionCalls].
    destruct (onEmotion cb); [|auto].
    destruct (eqs (aiJSON.Emotion parsed) []) eqn:Em; cbn; [auto|].
    apply eqs_false in Em. auto. }
  set (fin := if eqs content [] then _ else _).
  assert (Hout : fin.2 = acts2 /\
    forall reply, fin.1 = inr reply ->
      Emotion reply = replyEmotion lowerTable (emotion p) (emotions c)).
  { unfold fin.
    destruct (eqs content []);
      [destruct (negb (eqs (TrimSpace (refusalBuilder st)) []))|];
      split; try done. by intros reply [= <-]. }
  destruct Hout as [Hacts Hr]. rewrite Hacts. clearbody fin.
  destruct HX as [[-> Hno]|[He Hcalls]].
  - rewrite Hno, app_nil_r.
    destruct Hlast as [->|[-> Hne]]; [left; by rewrite app_nil_r|].
    right. exists (emotion (parser st)). auto.
  - destruct Hlast as [->|[_ Hne]]; [|done]. rewrite app_nil_r.
    destruct Hcalls as [->|[-> Hne]]; [left; by rewrite app_nil_r|].
    right. exists (emotion p). auto.
Qed.

(** X21. Over a whole call of [StreamReply], [onEmotion] receives a
    non-empty emotion at most once, in its last invocation, be it captured
    by the extractor or taken from the re-parsed raw stream; it receives the
    emotion as the provider wrote it, and the emotion of the reply
    returned is that emotion normalised. *)
Theorem stream_emotion_delivered_once (c : Client) (history : list db.ChatMessage)
    (cb : callbacks) (w w' : World) (r : error + Reply) (acts : list action) :
  StreamReply lowerTable send ReadAll ReadLines UnmarshalChunk UnmarshalAI
    ReadFile c history cb w = (r, acts, w') ->
  exists k,
    emotionCalls acts = replicate k [] \/
    exists e, e <> [] /\ emotionCalls acts = replicate k [] ++ [e] /\
      forall reply, r = inr reply ->
        Emotion reply = replyEmotion lowerTable e (emotions c).
Proof.
  unfold StreamReply.
  destruct (result _) as [err|body].
  { intros [= <- <- _]. exists 0%nat. by left. }
  unfold consumeStream.
  destruct (ReadLines body) as [lines readErr].
  destruct (readLoop _ _ _ lines) as [[[st a1] e1] fin] eqn:E1.
  assert (Hc : capturedOnce (emotionCalls a1) (parser st)).
  { apply (readLoop_capturedOnce cb lines _ _ _ _ _ [] ltac:(exists 0%nat, []; auto) E1). }
  assert (Hfail : forall e, exists k,
    emotionCalls a1 = replicate k [] \/
    exists e0, e0 <> [] /\ emotionCalls a1 = replicate k [] ++ [e0] /\
      forall reply, (inl e : error + Reply) = inr reply ->
        Emotion reply = replyEmotion lowerTable e0 (emotions c)).
  { intros e. destruct Hc as (k & last & -> & [->|[-> Hne]]); exists k.
    - left. by rewrite app_nil_r.
    - right. exists (emotion (parser st)). done. }
  destruct e1 as [e1|]; [intros [= <- <- _]; apply Hfail|].
  destruct (if fin then None else readErr); [intros [= <- <- _]; apply Hfail|].
  pose proof (streamResult_emotion c cb st _ Hc) as Hs. cbv zeta in Hs.
  destruct (streamResult lowerTable UnmarshalAI c cb st) as [r2 a2].
  intros [= <- <- _]. rewrite emotionCalls_app. exact Hs.
Qed.
End StreamEmotion.

(** The end-to-end example: [happy] is delivered once. *)
Lemma stream_emotion_delivered_once_witness :
  exists k,
    [go "happy"] = replicate k [] \/
    exists e, e <> [] /\ [go "happy"] = replicate k [] ++ [e] /\
      forall reply,
        (inr (mkReply (go "Hello!") (go "happy")) : error + Reply) = inr reply ->
        Emotion reply = replyEmotion latin1Lower e (emotions exampleClient).
Proof.
  refine (stream_emotion_delivered_once latin1Lower
            (exampleSend (streamBody helloLines)) exampleReadAll
            exampleReadLines exampleUnmarshalChunk exampleUnmarshalAI
            (fun _ => None) exampleClient exampleHistory collect tt tt
            (inr (mkReply (go "Hello!") (go "happy")))
            [CallEmotion (go "happy"); CallReply (go " He"); CallReply (go "llo! ")] _).
  vm_compute. reflexivity.
Defined.

(** * Properties of package handlers *)

(** ** [parseLimit] *)

Lemma ParseUint10_nonneg s : forall n u,
  0 <= n -> ParseUint10 s n = Some u -> 0 <= u.
Proof.
  induction s as [|c s IH]; intros n u Hn; cbn.
  - by intros [= <-].
  - unfold decimalDigit. destruct (_ && _) eqn:E; [|done].
    apply IH. lia.
Qed.

(** X22. [parseLimit] answers a number from 0 to 500 for every text. *)
Theorem parseLimit_range (raw : gostring) : 0 <= parseLimit raw <= 500.
Proof.
  unfold parseLimit. destruct (eqs raw []); [lia|].
  destruct (Atoi raw) as [limit|]; [|lia].
  repeat case_match; lia.
Qed.

Lemma ParseUint10_digits digits : forall n,
  Forall (fun d => 0 <= d <= 9) digits ->
  ParseUint10 (map (fun d => 48 + d) digits) n
  = Some (fold_left (fun n d => n * 10 + d) digits n).
Proof.
  induction digits as [|d digits IH]; intros n Hall; [done|].
  inversion Hall as [|? ? Hd Hrest]; subst. cbn.
  unfold decimalDigit. replace ((48 <=? 48 + d) && (48 + d <=? 57)) with true by lia.
  replace (48 + d - 48) with d by lia. by apply IH.
Qed.

Lemma decimalValue_nonneg digits : forall n,
  0 <= n -> Forall (fun d => 0 <= d <= 9) digits ->
  0 <= fold_left (fun n d => n * 10 + d) digits n.
Proof.
  induction digits as [|d digits IH]; intros n Hn Hall; [done|].
  inversion Hall; subst. cbn. apply IH; [lia|done].
Qed.

(** X23. On a text of decimal digits, leading zeros allowed, [parseLimit]
    answers the number they spell, capped at 500, and 0 when the number
    does not fit a 64-bit [int]; a [+] in front changes nothing, and any
    text that starts with [-] gives 0. *)
Theorem parseLimit_decimal (digits : list Z) (rest : gostring) :
  digits <> [] -> Forall (fun d => 0 <= d <= 9) digits ->
  let text := map (fun d => 48 + d) digits in
  let limit :=
    if 2 ^ 63 <=? decimalValue digits then 0 else Z.min (decimalValue digits) 500 in
  parseLimit text = limit /\ parseLimit (43 :: text) = limit /\
  parseLimit (45 :: rest) = 0.
Proof.
  intros Hne Hall text limit.
  pose proof (ParseUint10_digits digits 0 Hall) as Hp. fold text in Hp.
  fold (decimalValue digits) in Hp.
  pose proof (decimalValue_nonneg digits 0 ltac:(lia) Hall) as Hv.
  fold (decimalValue digits) in Hv.
  assert (Htext : exists c t, text = c :: t /\ 48 <= c <= 57).
  { unfold text. destruct digits as [|d ds]; [done|]. inversion Hall; subst.
    cbn. eexists _, _. split; [done|]. lia. }
  destruct Htext as (c & t & Ht & Hc).
  assert (Hlimit : forall un, un = decimalValue digits ->
            (if 2 ^ 63 <=? un then 0
             else if un <=? 0 then 0 else if 500 <? un then 500 else un) = limit).
  { intros un ->. unfold limit. repeat case_match; lia. }
  split; [|split].
  - unfold parseLimit. rewrite Ht. replace (eqs (c :: t) []) with false by done.
    unfold Atoi. replace ((c =? 43) || (c =? 45)) with false by lia.
    rewrite <- Ht, Hp. replace (c =? 45) with false by lia. cbn [negb andb].
    rewrite <- (Hlimit _ eq_refl). by destruct (2 ^ 63 <=? decimalValue digits).
  - unfold parseLimit. replace (eqs (43 :: text) []) with false by done.
    unfold Atoi. cbn [Z.eqb Pos.eqb orb negb andb]. rewrite Ht, <- Ht, Hp.
    rewrite <- (Hlimit _ eq_refl). by destruct (2 ^ 63 <=? decimalValue digits).
  - unfold parseLimit. replace (eqs (45 :: rest) []) with false by done.
    unfold Atoi. cbn [Z.eqb Pos.eqb orb negb andb].
    destruct rest as [|x rest]; [done|].
    destruct (ParseUint10 (x :: rest) 0) as [un|] eqn:E; [|done].
    apply ParseUint10_nonneg in E; [|lia].
    destruct (2 ^ 63 <? un); [done|]. by replace (- un <=? 0) with true by lia.
Qed.

(** X23 on the texts [0750], [+0750] and [-1]. *)
Lemma parseLimit_decimal_witness :
  parseLimit (go "0750") = 500 /\ parseLimit (go "+0750") = 500 /\
  parseLimit (go "-1") = 0.
Proof.
  refine (parseLimit_decimal [0; 7; 5; 0] (go "1") _ _).
  - discriminate.
  - repeat constructor; lia.
Defined.

(** ** [reverseMessages] *)

Section ReverseFacts.
Context {A : Type}.

Lemma reverseLoop_middle fuel : forall (pre mid post : list A),
  length pre = length post -> (length mid <= 2 * fuel + 1)%nat ->
  reverseLoop fuel (Z.of_nat (length pre))
    (Z.of_nat (length pre + length mid) - 1) (pre ++ mid ++ post)
  = Some (pre ++ rev mid ++ post).
Proof.
  induction fuel as [|fuel IH]; intros pre mid post Hlen Hfuel.
  - destruct mid as [|a [|b mid]]; cbn [length] in Hfuel; [| |lia].
    + cbn [reverseLoop]. replace (_ <? _) with false by (symmetry; apply Z.ltb_ge; cbn [length]; lia). done.
    + cbn [reverseLoop]. replace (_ <? _) with false by (symmetry; apply Z.ltb_ge; cbn [length]; lia). done.
  - cbn [reverseLoop].
    destruct mid as [|a mid].
    { replace (_ <? _) with false by (symmetry; apply Z.ltb_ge; cbn [length]; lia). done. }
    destruct (exists_last (l:=a :: mid)) as (m' & b & Hm'); [done|].
    destruct m' as [|a' m].
    { cbn in Hm'. injection Hm' as -> ->.
      replace (_ <? _) with false by (symmetry; apply Z.ltb_ge; cbn [length]; lia). done. }
    cbn in Hm'. injection Hm' as <- ->.
    replace (_ <? _) with true by (symmetry; apply Z.ltb_lt; cbn [length]; rewrite length_app; cbn [length]; lia).
    rewrite Nat2Z.id.
    replace (Z.to_nat (Z.of_nat (length pre + length (a :: m ++ [b])) - 1))
      with (length pre + S (length m))%nat
      by (cbn [length]; rewrite length_app; cbn; lia).
    replace (pre ++ (a :: m ++ [b]) ++ post) with (pre ++ a :: m ++ b :: post)
      by (cbn; by rewrite <- app_assoc).
    assert (Hi : (pre ++ a :: m ++ b :: post) !! length pre = Some a).
    { by rewrite list_lookup_middle. }
    assert (Hj : (pre ++ a :: m ++ b :: post) !! (length pre + S (length m))%nat
                 = Some b).
    { replace (pre ++ a :: m ++ b :: post) with ((pre ++ a :: m) ++ b :: post)
        by (by rewrite <- !app_assoc).
      rewrite list_lookup_middle; [done|]. rewrite length_app. cbn. lia. }
    rewrite Hi, Hj.
    assert (Hswap : <[(length pre + S (length m))%nat := a]>
                      (<[length pre := b]> (pre ++ a :: m ++ b :: post))
                    = (pre ++ [b]) ++ m ++ (a :: post)).
    { replace (<[length pre := b]> (pre ++ a :: m ++ b :: post))
        with ((pre ++ b :: m) ++ b :: post).
      - rewrite insert_app_r_alt by (rewrite length_app; cbn; lia).
        replace (length pre + S (length m) - length (pre ++ b :: m))%nat with 0%nat
          by (rewrite length_app; cbn; lia).
        cbn. by rewrite <- !app_assoc.
      - rewrite insert_app_r_alt by lia. rewrite Nat.sub_diag. cbn.
        by rewrite <- !app_assoc. }
    rewrite Hswap.
    replace (Z.of_nat (length pre) + 1) with (Z.of_nat (length (pre ++ [b])))
      by (rewrite length_app; cbn; lia).
    replace (Z.of_nat (length pre + length (a :: m ++ [b])) - 1 - 1)
      with (Z.of_nat (length (pre ++ [b]) + length m) - 1)
      by (cbn [length]; rewrite !length_app; cbn; lia).
    rewrite IH.
    + f_equal. cbn [rev]. rewrite rev_app_distr. cbn.
      by rewrite <- !app_assoc.
    + rewrite length_app. cbn. lia.
    + cbn [length] in Hfuel. rewrite length_app in Hfuel. cbn in Hfuel. lia.
Qed.

(** X24. [reverseMessages] ends without an index out of range and leaves
    the messages in the reverse order. *)
Theorem reverseMessages_reverses (messages : list A) :
  reverseMessages messages = Some (rev messages).
Proof.
  unfold reverseMessages.
  pose proof (reverseLoop_middle (length messages) [] messages [] eq_refl) as H.
  cbn [length app Nat.add] in H. rewrite !app_nil_r in H. apply H. lia.
Qed.
End ReverseFacts.

(** ** Server-sent events *)

Lemma Split_spec s sep :
  Split s sep <> [] /\ Join (Split s sep) [sep] = s /\
  Forall (fun line => ~ In sep line) (Split s sep).
Proof.
  induction s as [|r s IH]; cbn [Split].
  - split; [done|]. split; [done|]. constructor; [|done]. by intros [].
  - destruct IH as (Hne & Hjoin & Hall). destruct (r =? sep) eqn:Er.
    + apply Z.eqb_eq in Er as ->. split; [done|]. split.
      * cbn [Join]. destruct (Split s sep) as [|line lines] eqn:E; [done|].
        cbn [app]. by rewrite Hjoin.
      * constructor; [by intros []|done].
    + apply Z.eqb_neq in Er.
      destruct (Split s sep) as [|line lines] eqn:E; [done|].
      split; [done|]. apply Forall_cons in Hall as [Hline Hlines]. split.
      * rewrite <- Hjoin. by destruct lines.
      * constructor; [|done]. intros [Hr|Hin]; [by symmetry in Hr|done].
Qed.

Section SSEFacts.
Variable write : list wire -> gostring -> option error.
Variable flusher : bool.

Lemma writeLines_accepted lines : forall sent,
  accepts write ->
  writeLines write sent lines = (sent ++ map (fun l => WriteBytes (dataLine l)) lines, None).
Proof.
  induction lines as [|line lines IH]; intros sent Hacc; cbn [writeLines map].
  - by rewrite app_nil_r.
  - rewrite Hacc, IH by done. by rewrite <- app_assoc.
Qed.

Lemma bytesOf_app a b : bytesOf (a ++ b) = bytesOf a ++ bytesOf b.
Proof.
  induction a as [|[c|] a IH]; cbn; [done| |done]. by rewrite IH, app_assoc.
Qed.

Lemma bytesOf_lines lines :
  bytesOf (map (fun l => WriteBytes (dataLine l)) lines) = flat_map dataLine lines.
Proof. induction lines as [|l lines IH]; cbn [map bytesOf flat_map]; [done|]. by rewrite IH. Qed.

Lemma writeSSEData_accepted sent event data :
  accepts write ->
  writeSSEData write flusher sent event data =
  (sent ++ (if eqs event [] then [] else [WriteBytes (go "event: " ++ event ++ [10])])
        ++ map (fun l => WriteBytes (dataLine l)) (Split data 10)
        ++ [WriteBytes [10]] ++ (if flusher then [Flush] else []), None).
Proof.
  intros Hacc. unfold writeSSEData.
  destruct (eqs event []); cbn [negb].
  - rewrite writeLines_accepted, Hacc by done.
    destruct flusher; by rewrite <- ?app_assoc.
  - rewrite Hacc, writeLines_accepted, Hacc by done.
    destruct flusher; by rewrite <- ?app_assoc.
Qed.

(** X25. When the writer accepts every write, [writeSSEData] writes one
    frame: the [event:] line unless the event name is empty, one [data:]
    line for each line of the data, however many, and an empty line; the
    payloads of the [data:] lines hold no newline and give the data back when
    joined by newlines. The writer is flushed afterwards when it can be. *)
Theorem writeSSEData_frame (sent : list wire) (event data : gostring) :
  accepts write ->
  exists new lines,
    writeSSEData write flusher sent event data = (sent ++ new, None) /\
    bytesOf new =
      (if eqs event [] then [] else go "event: " ++ event ++ [10])
      ++ flat_map dataLine lines ++ [10] /\
    Join lines [10] = data /\
    Forall (fun line => ~ In 10 line) lines /\
    (In Flush new <-> flusher = true).
Proof.
  intros Hacc. rewrite writeSSEData_accepted by done.
  destruct (Split_spec data 10) as (Hne & Hjoin & Hall).
  eexists _, (Split data 10). split; [reflexivity|].
  split; [|split; [done|split; [done|]]].
  - rewrite !bytesOf_app, bytesOf_lines.
    destruct (eqs event []), flusher; cbn; by rewrite ?app_nil_r.
  - rewrite !in_app_iff, in_map_iff.
    destruct (eqs event []), flusher; cbn; split; try done; intuition; try done;
      match goal with H : exists _, _ |- _ => destruct H as (? & ? & ?); done end.
Qed.

Lemma first_newline c : forall X before Y,
  ~ In 10 c -> c ++ 10 :: X = before ++ 10 :: Y ->
  (before = c /\ X = Y) \/ exists b', before = c ++ 10 :: b' /\ X = b' ++ 10 :: Y.
Proof.
  induction c as [|x c IH]; intros X before Y Hc; cbn [app].
  - destruct before as [|y before]; cbn [app].
    + intros [= ->]. by left.
    + intros [= <- ->]. right. by exists before.
  - assert (x <> 10) by (intros ->; apply Hc; by left).
    assert (Hc' : ~ In 10 c) by (intros Hin; apply Hc; by right).
    destruct before as [|y before]; cbn [app]; [by intros [= ? _]|].
    intros [= <- Heq]. destruct (IH _ _ _ Hc' Heq) as [[-> ->]|(b' & -> & ->)].
    + by left.
    + right. by exists b'.
Qed.

Lemma one_terminator rows : forall before after,
  Forall (fun c => c <> [] /\ ~ In 10 c) rows ->
  flat_map (fun c => c ++ [10]) rows ++ [10] = before ++ 10 :: 10 :: after ->
  after = [].
Proof.
  induction rows as [|c rows IH]; intros before after Hall; cbn [flat_map app].
  - destruct before as [|? [|? ?]]; done.
  - inversion Hall as [|? ? [Hc1 Hc2] Hrest]; subst.
    rewrite <- !app_assoc. cbn [app]. intros Heq.
    apply first_newline in Heq as [[-> Hout]|(b' & -> & Hout)]; [|by eapply IH|done].
    destruct rows as [|c' rows]; cbn [flat_map app] in Hout; [by injection Hout|].
    inversion Hrest as [|? ? [Hc1' Hc2'] _]; subst.
    destruct c' as [|x c']; [done|]. cbn in Hout. injection Hout as -> _.
    destruct Hc2'. by left.
Qed.

Lemma Join_In x line lines sep :
  In line lines -> In x line -> In x (Join lines sep).
Proof.
  induction lines as [|l0 rest IH]; [done|]. intros [->|Hin] Hx; cbn [Join].
  - destruct rest; [done|]. rewrite in_app_iff. by left.
  - destruct rest as [|l1 rest]; [done|]. rewrite !in_app_iff. right. right.
    by apply IH.
Qed.

(** X26. A frame that [writeSSEData] writes holds one event. When the
    event name has no line feed, the frame starts with a character that
    ends no line, ends with two line feeds, and has two line feeds in a row
    nowhere before its end, whatever the data. When neither the event name
    nor the data has a carriage return, the frame has none: its lines end
    with a line feed and with nothing else, and so no line before the last
    is empty. *)
Theorem writeSSEData_one_event (sent : list wire) (event data : gostring) :
  accepts write -> ~ In 10 event ->
  exists new,
    writeSSEData write flusher sent event data = (sent ++ new, None) /\
    (exists c rest, bytesOf new = c :: rest /\ c <> 10 /\ c <> 13) /\
    (exists body, bytesOf new = body ++ [10; 10]) /\
    (forall before after, bytesOf new = before ++ [10; 10] ++ after -> after = []) /\
    (~ In 13 event -> ~ In 13 data -> ~ In 13 (bytesOf new)).
Proof.
  intros Hacc Hevent. rewrite writeSSEData_accepted by done.
  destruct (Split_spec data 10) as (Hne & Hjoin & Hall).
  eexists. split; [reflexivity|].
  set (rows := (if eqs event [] then [] else [go "event: " ++ event])
               ++ map (fun l => go "data: " ++ l) (Split data 10)).
  assert (Hbytes : bytesOf
      ((if eqs event [] then [] else [WriteBytes (go "event: " ++ event ++ [10])])
       ++ map (fun l => WriteBytes (dataLine l)) (Split data 10)
       ++ [WriteBytes [10]] ++ (if flusher then [Flush] else []))
    = flat_map (fun c => c ++ [10]) rows ++ [10]).
  { rewrite !bytesOf_app, bytesOf_lines. unfold rows. rewrite flat_map_app.
    assert (Hd : forall ls, flat_map dataLine ls
                 = flat_map (fun c => c ++ [10]) (map (fun l => go "data: " ++ l) ls)).
    { induction ls as [|l ls IHl]; cbn [flat_map map]; [done|].
      rewrite IHl. unfold dataLine. by rewrite <- !app_assoc. }
    rewrite Hd. destruct (eqs event []), flusher; cbn [bytesOf flat_map app];
      rewrite ?app_nil_r, <- ?app_assoc; done. }
  rewrite Hbytes. split; [|split; [|split]].
  - unfold rows. destruct (eqs event []).
    + destruct (Split data 10) as [|l ls]; [done|].
      exists 100. eexists. split; [reflexivity|]. split; discriminate.
    + exists 101. eexists. split; [reflexivity|]. split; discriminate.
  - destruct (exists_last (l:=rows)) as (rows' & c & ->).
    { unfold rows. destruct (Split data 10); [done|]. by destruct (eqs event []). }
    exists (flat_map (fun c => c ++ [10]) rows' ++ c).
    rewrite flat_map_app. cbn. by rewrite app_nil_r, <- !app_assoc.
  - intros before after. apply one_terminator.
    unfold rows. apply Forall_app. split.
    + destruct (eqs event []); constructor; [|done]. split; [done|].
      rewrite in_app_iff. intros [Hin|Hin]; [|done].
      vm_compute in Hin. intuition discriminate.
    + rewrite List.Forall_forall in *. intros c [l [<- Hl]]%in_map_iff.
      split; [done|]. rewrite in_app_iff. intros [Hin|Hin]; [|by apply (Hall l)].
      vm_compute in Hin. intuition discriminate.
  - intros Hcr_event Hcr_data.
    rewrite in_app_iff, in_flat_map. intros [(row & Hrow & Hin)|Hin].
    + rewrite in_app_iff in Hin. destruct Hin as [Hin|Hin];
        [|cbn in Hin; intuition discriminate].
      unfold rows in Hrow. rewrite in_app_iff in Hrow.
      destruct Hrow as [Hrow|Hrow].
      * destruct (eqs event []); [done|]. destruct Hrow as [<-|[]].
        rewrite in_app_iff in Hin. destruct Hin as [Hin|Hin]; [|done].
        vm_compute in Hin. intuition discriminate.
      * apply in_map_iff in Hrow as (l & <- & Hl).
        rewrite in_app_iff in Hin. destruct Hin as [Hin|Hin].
        -- vm_compute in Hin. intuition discriminate.
        -- apply Hcr_data. rewrite <- Hjoin. by eapply Join_In.
    + cbn in Hin. intuition discriminate.
Qed.

Lemma acceptedAll_nil sent : acceptedAll write sent [].
Proof. intros [|? ?] ? ? H; done. Qed.

Lemma acceptedAll_snoc sent new b :
  acceptedAll write sent new -> write (sent ++ new) b = None ->
  acceptedAll write sent (new ++ [WriteBytes b]).
Proof.
  intros Hnew Hb before call after Heq.
  destruct after as [|x after _] using rev_ind.
  - apply app_inj_tail in Heq as [-> <-]. eauto.
  - rewrite app_comm_cons, app_assoc in Heq.
    apply app_inj_tail in Heq as [-> _]. by eapply Hnew.
Qed.

Lemma writeLines_failure lines : forall sent0 new sent' e,
  acceptedAll write sent0 new ->
  writeLines write (sent0 ++ new) lines = (sent', Some e) ->
  exists made b, sent' = sent0 ++ made ++ [WriteBytes b] /\
    acceptedAll write sent0 made /\ write (sent0 ++ made) b = Some e.
Proof.
  induction lines as [|line lines IH]; intros sent0 new sent' e Hnew;
    cbn [writeLines]; [done|].
  destruct (write (sent0 ++ new) _) as [err|] eqn:Ew.
  - intros [= <- <-]. exists new, (go "data: " ++ line ++ [10]).
    by rewrite <- app_assoc.
  - rewrite <- app_assoc. apply IH. by apply acceptedAll_snoc.
Qed.

Lemma writeLines_success lines : forall sent0 new sent',
  acceptedAll write sent0 new ->
  writeLines write (sent0 ++ new) lines = (sent', None) ->
  exists made, sent' = sent0 ++ made /\ acceptedAll write sent0 made.
Proof.
  induction lines as [|line lines IH]; intros sent0 new sent' Hnew;
    cbn [writeLines].
  - intros [= <-]. eauto.
  - destruct (write (sent0 ++ new) _) as [err|] eqn:Ew; [done|].
    rewrite <- app_assoc. apply IH. by apply acceptedAll_snoc.
Qed.

(** X27. When a write fails, [writeSSEData] returns its error at once:
    the failed write is the last call it makes, after writes that were all
    accepted, and the writer is not flushed. *)
Theorem writeSSEData_failure (sent sent' : list wire) (event data : gostring)
    (e : error) :
  writeSSEData write flusher sent event data = (sent', Some e) ->
  exists made b,
    sent' = sent ++ made ++ [WriteBytes b] /\
    acceptedAll write sent made /\
    write (sent ++ made) b = Some e.
Proof.
  unfold writeSSEData.
  assert (Hrest : forall new,
    acceptedAll write sent new ->
    match writeLines write (sent ++ new) (Split data 10) with
    | (sent1, Some e1) => (sent1, Some e1)
    | (sent1, None) =>
        match write sent1 [10] with
        | Some e1 => (sent1 ++ [WriteBytes [10]], Some e1)
        | None =>
            (if flusher then (sent1 ++ [WriteBytes [10]]) ++ [Flush]
             else sent1 ++ [WriteBytes [10]], None)
        end
    end = (sent', Some e) ->
    exists made b, sent' = sent ++ made ++ [WriteBytes b] /\
      acceptedAll write sent made /\ write (sent ++ made) b = Some e).
  { intros new Hnew.
    destruct (writeLines write (sent ++ new) (Split data 10)) as [sent1 [e1|]] eqn:El.
    - intros [= <- <-]. by eapply writeLines_failure.
    - apply writeLines_success in El as (made & -> & Hmade); [|done].
      destruct (write (sent ++ made) [10]) as [e1|] eqn:Ew; [|done].
      intros [= <- <-]. exists made, [10]. by rewrite <- app_assoc. }
  destruct (eqs event []); cbn [negb].
  - rewrite <- (app_nil_r sent) at 1. apply Hrest, acceptedAll_nil.
  - destruct (write sent _) as [e1|] eqn:Ew.
    + intros [= <- <-]. exists [], (go "event: " ++ event ++ [10]).
      rewrite app_nil_r. split; [done|]. split; [apply acceptedAll_nil|done].
    + apply Hrest. apply (acceptedAll_snoc sent []); [apply acceptedAll_nil|].
      by rewrite app_nil_r.
Qed.
End SSEFacts.

(** A token of two lines, written to a writer that accepts everything. *)
Lemma writeSSEData_frame_witness :
  exists new lines,
    writeSSEData (fun _ _ => None) true [] (go "token") [104; 105; 10; 33]
      = ([] ++ new, None) /\
    bytesOf new =
      (if eqs (go "token") [] then [] else go "event: " ++ go "token" ++ [10])
      ++ flat_map dataLine lines ++ [10] /\
    Join lines [10] = [104; 105; 10; 33] /\
    Forall (fun line => ~ In 10 line) lines /\
    (In Flush new <-> true = true).
Proof.
  refine (writeSSEData_frame (fun _ _ => None) true [] (go "token")
            [104; 105; 10; 33] _).
  intros sent b. reflexivity.
Defined.

(** X26 on a token that holds an empty line. *)
Lemma writeSSEData_one_event_witness :
  exists new,
    writeSSEData (fun _ _ => None) true [] (go "token") [104; 105; 10; 10; 33]
      = ([] ++ new, None) /\
    (exists c rest, bytesOf new = c :: rest /\ c <> 10 /\ c <> 13) /\
    (exists body, bytesOf new = body ++ [10; 10]) /\
    (forall before after, bytesOf new = before ++ [10; 10] ++ after -> after = []) /\
    (~ In 13 (go "token") -> ~ In 13 [104; 105; 10; 10; 33] ->
     ~ In 13 (bytesOf new)).
Proof.
  refine (writeSSEData_one_event (fun _ _ => None) true [] (go "token")
            [104; 105; 10; 10; 33] _ _).
  - intros sent b. reflexivity.
  - intros H. vm_compute in H. intuition discriminate.
Defined.

(** The second write of a frame fails. *)
Lemma writeSSEData_failure_witness :
  exists made b,
    [WriteBytes (go "event: token" ++ [10]); WriteBytes (go "data: hi" ++ [10])]
      = [] ++ made ++ [WriteBytes b] /\
    acceptedAll (failsFrom 1) [] made /\
    failsFrom 1 ([] ++ made) b = Some (otherError "write: broken pipe").
Proof.
  refine (writeSSEData_failure (failsFrom 1) true [] _ (go "token") (go "hi") _ _).
  vm_compute. reflexivity.
Defined.
